(** * PeriodogramAnalysis: Welch / multitaper band power per chunk and channel

    A shallow embedding of [PeriodogramAnalysis.py].  Samples, frequencies and
    power values are finite floats; they are modelled as canonical rationals
    ([Qc]), that is, arithmetic is exact and rounding is not modelled.  The one
    place where the source can leave the finite numbers is the NumPy division
    of a band power by the total power, which is modelled with the IEEE
    special values ([npfloat]).  Where a property of the operator holds with
    exact arithmetic only, the statement says so; the subtraction of the
    mean (line 88) is rendered in binary64 as well (module [Float64]).

    The operator talks to three collaborators that are not part of the
    repository: SciPy ([sig.welch], [simpson]), the multitaper routine
    ([multitaper_psd]) and the logger.  A run is therefore a pair of the
    trace of these interactions and of the outcome (a value or a Python
    exception).  The plotting method talks to matplotlib instead; its runs
    are traces of matplotlib calls (section Plotting). *)

From Stdlib Require Import String Ascii DecimalString DecimalNat.
From Stdlib Require Import List Arith Bool Lia Lqa ZArith QArith Qcanon Qround SpecFloat.
Import ListNotations.

Set Implicit Arguments.

(* ------------------------------------------------------------------ *)
(** ** Numbers *)

Definition qc (n : Z) (d : positive) : Qc := Q2Qc (n # d).
Definition of_nat (n : nat) : Qc := Q2Qc (inject_Z (Z.of_nat n)).
Definition of_Z (z : Z) : Qc := Q2Qc (inject_Z z).

(** Python's [int(x)] on a float: truncation toward zero. *)
Definition py_int (x : Qc) : Z := Z.quot (Qnum x) (Zpos (Qden x)).

Definition Qcleb (x y : Qc) : bool := Qle_bool x y.
Definition Qcltb (x y : Qc) : bool := negb (Qle_bool y x).
Definition Qceqb (x y : Qc) : bool := Qc_eq_bool x y.

(** A NumPy float64 scalar after a true division. *)
Inductive npfloat : Type :=
| Finite (q : Qc)
| PosInf
| NegInf
| NaN.

(** [a / b] on NumPy scalars: a zero divisor is a warning, never an
    exception; the quotient is [nan] for [0/0] and a signed infinity
    otherwise. *)
Definition np_true_divide (a b : Qc) : npfloat :=
  if Qceqb b 0 then
    if Qceqb a 0 then NaN
    else if Qcltb 0 a then PosInf else NegInf
  else Finite (a / b).

(* ------------------------------------------------------------------ *)
(** ** Exceptions, interactions and runs *)

(** The Python exceptions the operator can meet, and the three error kinds
    of the design's taxonomy.  No statement of the source constructs one of
    the latter three. *)
Inductive exn : Type :=
| IndexError
| KeyError
| TypeError
| ValueError
| ZeroDivisionError
| InvalidSignalError
| InvalidWindowError
| InsufficientResolutionError.

Inductive outcome (A : Type) : Type :=
| Ok (a : A)
| Raise (e : exn).
Arguments Ok {A} a.
Arguments Raise {A} e.

Definition Band : Type := (Qc * Qc)%type.

Inductive method : Type := Multitaper | Welch.
Inductive band_name : Type := delta | theta | alpha | beta | gamma.

(** The lines handed to [self.logger.info]. *)
Inductive log_line : Type :=
| AnalysisOf (chunk channel : nat)
| BandPowerLine (band : Band) (relative : bool) (m : method) (value : npfloat)
| CanonicalLine (relative : bool) (name : band_name) (channel : nat) (value : npfloat).

Inductive event : Type :=
| WelchCall (x : list Qc) (fs nperseg : Qc) (nfft : option Qc)
| MultitaperCall (x : list Qc) (fs : Qc)
| LoggerInfo (line : log_line).

Definition M (A : Type) : Type := (list event * outcome A)%type.

Definition ret {A} (a : A) : M A := ([], Ok a).
Definition raise {A} (e : exn) : M A := ([], Raise e).
Definition emit (ev : event) : M unit := ([ev], Ok tt).
Definition lift {A} (o : outcome A) : M A := ([], o).

Definition bind {A B} (m : M A) (f : A -> M B) : M B :=
  match m with
  | (t, Raise e) => (t, Raise e)
  | (t, Ok a) => let (t', r) := f a in (t ++ t', r)
  end.

Declare Scope run_scope.
Delimit Scope run_scope with run.
Notation "x <- c1 ;; c2" := (bind c1 (fun x => c2))
  (at level 61, c1 at next level, right associativity) : run_scope.
Notation "' pat <- c1 ;; c2" := (bind c1 (fun x => match x with pat => c2 end))
  (at level 61, pat pattern, c1 at next level, right associativity) : run_scope.
Notation "c1 ;;; c2" := (bind c1 (fun _ => c2))
  (at level 61, right associativity) : run_scope.
Open Scope run_scope.

Definition trace {A} (m : M A) : list event := fst m.
Definition result {A} (m : M A) : outcome A := snd m.

(** A Python [for] loop whose body updates the loop state. *)
Fixpoint for_each {A S} (xs : list A) (body : A -> S -> M S) (s : S) : M S :=
  match xs with
  | [] => ret s
  | x :: xs' => s' <- body x s ;; for_each xs' body s'
  end.

(* ------------------------------------------------------------------ *)
(** ** Python dictionaries keyed by integers

    A [dict] keeps its keys in insertion order; assigning to a present key
    replaces the value in place. *)

Definition dict (V : Type) : Type := list (nat * V).

Fixpoint dict_get {V} (d : dict V) (k : nat) : option V :=
  match d with
  | [] => None
  | (k', v) :: d' => if Nat.eqb k k' then Some v else dict_get d' k
  end.

Fixpoint dict_set {V} (d : dict V) (k : nat) (v : V) : dict V :=
  match d with
  | [] => [(k, v)]
  | (k', v') :: d' =>
      if Nat.eqb k k' then (k, v) :: d' else (k', v') :: dict_set d' k v
  end.

Definition dict_keys {V} (d : dict V) : list nat := map fst d.

(** [d[k]] on a plain lookup. *)
Definition dict_item {V} (d : dict V) (k : nat) : outcome V :=
  match dict_get d k with
  | Some v => Ok v
  | None => Raise KeyError
  end.

(* ------------------------------------------------------------------ *)
(** ** NumPy array operations used by the operator *)

Definition np_sum (a : list Qc) : Qc := fold_right Qcplus 0%Qc a.

(** [np.mean(a)].  On an empty array NumPy yields [nan] with a warning; the
    operator only subtracts the mean from the elements of the same array,
    so that value is never observed and the quotient of [Qc] stands for it.
    The sum and the quotient are exact here; NumPy rounds each of them to
    binary64 ([Float64.np_mean] below). *)
Definition np_mean (a : list Qc) : Qc := (np_sum a / of_nat (length a))%Qc.

(** [a - m] for an array [a] and a scalar [m]. *)
Definition np_sub_scalar (a : list Qc) (m : Qc) : list Qc :=
  map (fun v => (v - m)%Qc) a.

(** [a >= v] and [a <= v], element by element. *)
Definition np_ge (a : list Qc) (v : Qc) : list bool := map (fun f => Qcleb v f) a.
Definition np_le (a : list Qc) (v : Qc) : list bool := map (fun f => Qcleb f v) a.

Definition np_logical_and (a b : list bool) : list bool :=
  map (fun p => fst p && snd p) (combine a b).

(** [a[idx]] with a boolean index: the index must have the array's length. *)
Definition np_select (a : list Qc) (idx : list bool) : outcome (list Qc) :=
  if Nat.eqb (length idx) (length a)
  then Ok (map fst (filter snd (combine a idx)))
  else Raise IndexError.

(** [freqs[1] - freqs[0]]. *)
Definition freq_res_of (freqs : list Qc) : outcome Qc :=
  match freqs with
  | f0 :: f1 :: _ => Ok (f1 - f0)%Qc
  | _ => Raise IndexError
  end.

(* ------------------------------------------------------------------ *)
(** ** SciPy routines

    [scipy.integrate.simpson] and [scipy.signal.welch] are not part of the
    repository.  They are modelled after SciPy's implementation as far as
    the operator depends on it: argument handling, the frequency axis and
    the quadrature rule.  The values of the averaged periodogram are left to
    a parameter ([density] below). *)

(** The sum [y[0:N-2:2] + 4 y[1:N-1:2] + y[2:N:2]] of SciPy's
    [_basic_simpson]: one term per pair of intervals; a trailing single
    interval contributes nothing. *)
Fixpoint basic_simpson_sum (y : list Qc) : Qc :=
  match y with
  | y0 :: y1 :: ((y2 :: _) as rest) => ((y0 + qc 4 1 * y1 + y2) + basic_simpson_sum rest)%Qc
  | _ => 0%Qc
  end.

(** [simpson(y, dx=dx)].  For an odd number of samples this is the composite
    rule.  For an even number SciPy reads [y[-1]], [y[-2]] (and [y[-3]]): two
    samples give the trapezoid, four or more the composite rule on all but
    the last interval plus a parabolic term for the last one, and an empty
    array has no [y[-1]]. *)
Definition simpson (y : list Qc) (dx : Qc) : outcome Qc :=
  if Nat.even (length y) then
    match rev y with
    | [] => Raise IndexError
    | [a; b] => Ok (qc 1 2 * dx * (a + b))%Qc
    | a :: b :: c :: _ =>
        let alpha := ((qc 2 1 * (dx * dx) + qc 3 1 * (dx * dx)) / (qc 6 1 * (dx + dx)))%Qc in
        let beta := ((dx * dx + qc 3 1 * (dx * dx)) / (qc 6 1 * dx))%Qc in
        let eta := ((dx * dx * dx) / (qc 6 1 * dx * (dx + dx)))%Qc in
        Ok (basic_simpson_sum y * (dx / qc 3 1) + (alpha * a + beta * b - eta * c))%Qc
    | _ => Ok (basic_simpson_sum y * (dx / qc 3 1))%Qc
    end
  else Ok (basic_simpson_sum y * (dx / qc 3 1))%Qc.

(** [rfftfreq(n, 1/fs)]: the bins [k * fs / n] for [k = 0 .. n // 2].
    NumPy computes bin [k] in binary64 as [k * (1.0 / (n * (1 / fs)))],
    which can differ from the exact value in the last bits: a bin that
    meets the edge of a band up to rounding may be selected by the program
    and not by the model, or the other way round. *)
Definition rfft_bins (n : Z) : nat := Z.to_nat (n / 2) + 1.

Definition rfftfreq (n : Z) (fs : Qc) : list Qc :=
  map (fun k => (of_nat k * (fs / of_Z n))%Qc) (seq 0 (rfft_bins n)).

Section Operator.

(** The numeric core of [sig.welch]: the averaged periodogram of [x] at
    bin [k], for sampling rate [fs], segment length [nperseg] and FFT
    length [nfft]. *)
Variable density : list Qc -> Qc -> Z -> Z -> nat -> Qc.

(** [multitaper_psd(x, fs)] of the module [MultitaperPowerSpectrum], which
    returns [(psd, freqs)]. *)
Variable multitaper_psd : list Qc -> Qc -> outcome (list Qc * list Qc).

(** [sig.welch(x, fs, nperseg=nperseg, nfft=nfft)] with the remaining
    arguments at their defaults, returning [(freqs, psd)]:
    - an empty input gives empty arrays;
    - [int(nperseg) < 1] is a [ValueError];
    - a segment longer than the input is shortened to the input (a
      warning);
    - [nfft] defaults to the segment length and must not be below it. *)
Definition welch (x : list Qc) (fs nperseg : Qc) (nfft : option Qc)
  : outcome (list Qc * list Qc) :=
  match x with
  | [] => Ok ([], [])
  | _ =>
      let n := py_int nperseg in
      if (n <? 1)%Z then Raise ValueError
      else
        let n := Z.min n (Z.of_nat (length x)) in
        let fft :=
          match nfft with
          | None => Ok n
          | Some f => if Qcltb f (of_Z n) then Raise ValueError else Ok (py_int f)
          end in
        match fft with
        | Raise e => Raise e
        | Ok m => Ok (rfftfreq m fs, map (density x fs n m) (seq 0 (rfft_bins m)))
        end
  end.

Definition sig_welch (x : list Qc) (fs nperseg : Qc) (nfft : option Qc)
  : M (list Qc * list Qc) :=
  emit (WelchCall x fs nperseg nfft) ;;; lift (welch x fs nperseg nfft).

Definition call_multitaper_psd (x : list Qc) (fs : Qc) : M (list Qc * list Qc) :=
  emit (MultitaperCall x fs) ;;; lift (multitaper_psd x fs).


(* ---------------------------------------------------------------- *)
(** ** The data of the operator *)

(** One chunk of the input: [data] holds the 2-D sample buffer by channel
    (entry [c] is [data[:, c]]), [rate] the sampling rate and
    [number_of_channels] the channel count the chunk declares. *)
Record Signal : Type := {
  data : list (list Qc);
  rate : Qc;
  number_of_channels : nat
}.

(** The fields of the dataclass. *)
Record PeriodogramAnalysis : Type := {
  exclude_channel_list : list nat;
  band_list : list Band;
  window_length_for_welch : option Qc
}.

(** [{'freqs': freqs, 'psd': psd}]. *)
Record Curve : Type := {
  freqs : list Qc;
  psd : list Qc
}.

(** The per-channel entry of [power_dict]. *)
Record PowerRecord : Type := {
  idx_delta : list bool;
  idx_theta : list bool;
  idx_alpha : list bool;
  idx_beta : list bool;
  idx_gamma : list bool;
  delta_power : Qc;
  theta_power : Qc;
  alpha_power : Qc;
  beta_power : Qc;
  gamma_power : Qc;
  delta_rel_power : npfloat;
  theta_rel_power : npfloat;
  alpha_rel_power : npfloat;
  beta_rel_power : npfloat;
  gamma_rel_power : npfloat
}.

(** The five bands of [computing_absolute_and_relative_power]. *)
Definition bands (b : band_name) : Band :=
  match b with
  | delta => (qc 1 2, qc 4 1)
  | theta => (qc 4 1, qc 8 1)
  | alpha => (qc 8 1, qc 12 1)
  | beta => (qc 12 1, qc 30 1)
  | gamma => (qc 30 1, qc 100 1)
  end.

(** [signal.data[:, channel]]. *)
Definition column (signal : Signal) (channel : nat) : outcome (list Qc) :=
  match nth_error (data signal) channel with
  | Some c => Ok c
  | None => Raise IndexError
  end.

(** [signal[channel]]: the host framework's [Signal.__getitem__] selects the
    samples of one channel. *)
Definition signal_getitem (signal : Signal) (channel : nat) : outcome (list Qc) :=
  column signal channel.

(** [channel in self.exclude_channel_list]. *)
Definition py_in (channel : nat) (l : list nat) : bool :=
  existsb (Nat.eqb channel) l.

(** [w * rate] where [w] may be [None].  The product is exact here and
    rounded to binary64 in the source, so that [int(w * rate)] can differ by
    one when the exact product is within rounding of an integer. *)
Definition py_mul (w : option Qc) (r : Qc) : outcome Qc :=
  match w with
  | Some w => Ok (w * r)%Qc
  | None => Raise TypeError
  end.

(** [a / b] on Python numbers. *)
Definition py_div (a b : Qc) : outcome Qc :=
  if Qceqb b 0 then Raise ZeroDivisionError else Ok (a / b)%Qc.

(** [np.logical_and(freqs >= low, freqs <= high)]. *)
Definition band_idx (freqs : list Qc) (band : Band) : list bool :=
  np_logical_and (np_ge freqs (fst band)) (np_le freqs (snd band)).

(** [simpson(psd[idx], dx=freq_res)]. *)
Definition simpson_masked (psd : list Qc) (idx : list bool) (freq_res : Qc)
  : outcome Qc :=
  match np_select psd idx with
  | Ok y => simpson y freq_res
  | Raise e => Raise e
  end.

(* ---------------------------------------------------------------- *)
(** ** The methods *)

Variable self : PeriodogramAnalysis.

Definition computing_welch_periodogram (signal : Signal) : M (dict Curve) :=
  win <- lift (py_mul (window_length_for_welch self) (rate signal)) ;;
  for_each (seq 0 (number_of_channels signal))
    (fun channel psd_dict =>
       if py_in channel (exclude_channel_list self) then ret psd_dict
       else
         col <- lift (column signal channel) ;;
         let signal_no_bias := np_sub_scalar col (np_mean col) in
         c <- sig_welch signal_no_bias (rate signal) win (Some (qc 4 1 * win)%Qc) ;;
         ret (dict_set psd_dict channel {| freqs := fst c; psd := snd c |}))
    [].

Definition computing_absolute_and_relative_power (psd_dict : dict Curve)
  : M (dict PowerRecord) :=
  for_each (dict_keys psd_dict)
    (fun channel power_dict =>
       c <- lift (dict_item psd_dict channel) ;;
       let freqs := freqs c in
       let psd := psd c in
       freq_res <- lift (freq_res_of freqs) ;;
       let idx_delta := band_idx freqs (bands delta) in
       let idx_theta := band_idx freqs (bands theta) in
       let idx_alpha := band_idx freqs (bands alpha) in
       let idx_beta := band_idx freqs (bands beta) in
       let idx_gamma := band_idx freqs (bands gamma) in
       delta_power <- lift (simpson_masked psd idx_delta freq_res) ;;
       theta_power <- lift (simpson_masked psd idx_theta freq_res) ;;
       alpha_power <- lift (simpson_masked psd idx_alpha freq_res) ;;
       beta_power <- lift (simpson_masked psd idx_beta freq_res) ;;
       gamma_power <- lift (simpson_masked psd idx_gamma freq_res) ;;
       total_power <- lift (simpson psd freq_res) ;;
       ret (dict_set power_dict channel
              {| idx_delta := idx_delta;
                 idx_theta := idx_theta;
                 idx_alpha := idx_alpha;
                 idx_beta := idx_beta;
                 idx_gamma := idx_gamma;
                 delta_power := delta_power;
                 theta_power := theta_power;
                 alpha_power := alpha_power;
                 beta_power := beta_power;
                 gamma_power := gamma_power;
                 delta_rel_power := np_true_divide delta_power total_power;
                 theta_rel_power := np_true_divide theta_power total_power;
                 alpha_rel_power := np_true_divide alpha_power total_power;
                 beta_rel_power := np_true_divide beta_power total_power;
                 gamma_rel_power := np_true_divide gamma_power total_power |}))
    [].

Definition computing_multitaper_bandpower
    (signal : Signal) (band : Band) (channel : nat) (relative : bool) : M npfloat :=
  let low := fst band in
  let high := snd band in
  let frequency := rate signal in
  x <- lift (signal_getitem signal channel) ;;
  c <- call_multitaper_psd x frequency ;;
  let psd := fst c in
  let freqs := snd c in
  freq_res <- lift (freq_res_of freqs) ;;
  let idx_band := band_idx freqs (low, high) in
  bp <- lift (simpson_masked psd idx_band freq_res) ;;
  if relative then
    total <- lift (simpson psd freq_res) ;;
    ret (np_true_divide bp total)
  else ret (Finite bp).

Definition computing_welch_bandpower
    (signal : Signal) (band : Band) (channel : nat) (relative : bool) : M npfloat :=
  let low := fst band in
  let high := snd band in
  let frequency := rate signal in
  nperseg <- lift (match window_length_for_welch self with
                   | Some w => Ok (w * frequency)%Qc
                   | None =>
                       match py_div (qc 2 1) low with
                       | Ok q => Ok (q * frequency)%Qc
                       | Raise e => Raise e
                       end
                   end) ;;
  x <- lift (signal_getitem signal channel) ;;
  c <- sig_welch x frequency nperseg None ;;
  let freqs := fst c in
  let psd := snd c in
  freq_res <- lift (freq_res_of freqs) ;;
  let idx_band := band_idx freqs (low, high) in
  bp <- lift (simpson_masked psd idx_band freq_res) ;;
  if relative then
    total <- lift (simpson psd freq_res) ;;
    ret (np_true_divide bp total)
  else ret (Finite bp).

(** The body of [for band in self.band_list] in
    [computing_ratio_and_bandpower]. *)
Definition report_band (signal : Signal) (channel : nat) (band : Band) : M unit :=
  multitaper_power <- computing_multitaper_bandpower signal band channel false ;;
  multitaper_power_rel <- computing_multitaper_bandpower signal band channel true ;;
  emit (LoggerInfo (BandPowerLine band false Multitaper multitaper_power)) ;;;
  emit (LoggerInfo (BandPowerLine band true Multitaper multitaper_power_rel)) ;;;
  welch_power <- computing_welch_bandpower signal band channel false ;;
  welch_power_rel <- computing_welch_bandpower signal band channel true ;;
  emit (LoggerInfo (BandPowerLine band false Welch welch_power)) ;;;
  emit (LoggerInfo (BandPowerLine band true Welch welch_power_rel)).

(** The last loop of [computing_ratio_and_bandpower]: the five stored
    powers of the channel, absolute then relative. *)
Definition report_canonical (channel : nat) (r : PowerRecord) : M unit :=
  for_each
    [(delta, delta_power r, delta_rel_power r);
     (theta, theta_power r, theta_rel_power r);
     (alpha, alpha_power r, alpha_rel_power r);
     (beta, beta_power r, beta_rel_power r);
     (gamma, gamma_power r, gamma_rel_power r)]
    (fun e _ =>
       emit (LoggerInfo (CanonicalLine false (fst (fst e)) channel (Finite (snd (fst e))))) ;;;
       emit (LoggerInfo (CanonicalLine true (fst (fst e)) channel (snd e))))
    tt.

Definition computing_ratio_and_bandpower
    (signal : Signal) (power_dict : dict (dict PowerRecord)) (chunk_index : nat)
  : M unit :=
  for_each (seq 0 (number_of_channels signal))
    (fun channel _ =>
       if py_in channel (exclude_channel_list self) then ret tt
       else
         emit (LoggerInfo (AnalysisOf chunk_index channel)) ;;;
         chunk_powers <- lift (dict_item power_dict chunk_index) ;;
         r <- lift (dict_item chunk_powers channel) ;;
         for_each (band_list self) (fun band _ => report_band signal channel band) tt ;;;
         report_canonical channel r)
    tt.

(** The chunks of the signal in order, numbered from 0. *)
Definition __call__ (signal : list Signal)
  : M (dict (dict Curve) * dict (dict PowerRecord)) :=
  for_each (combine (seq 0 (length signal)) signal)
    (fun piece dicts =>
       let chunk_idx := fst piece in
       let signal_piece := snd piece in
       chunk_psd <- computing_welch_periodogram signal_piece ;;
       let psd_dict := dict_set (fst dicts) chunk_idx chunk_psd in
       chunk_power <- computing_absolute_and_relative_power chunk_psd ;;
       let power_dict := dict_set (snd dicts) chunk_idx chunk_power in
       computing_ratio_and_bandpower signal_piece power_dict chunk_idx ;;;
       ret (psd_dict, power_dict))
    ([], []).

End Operator.

Arguments welch density x fs nperseg nfft : simpl never.

(* ------------------------------------------------------------------ *)
(** ** The Band-Power Integrator as the design states it *)

Module Spec.

(** The integrator in the words of the design (section 4.3),
    [band_power(curve, band, relative)]; the source has no such function and
    repeats the steps in three methods.  Following the text: fewer than two
    bins is an [InsufficientResolutionError]; the mask is the closed
    interval; a mask that selects no bin integrates to [0.0]; the relative
    power divides by the power of the whole curve.  The quadrature of a
    non-empty selection is SciPy's. *)
Definition integrate (y : list Qc) (dx : Qc) : Qc :=
  match y with
  | [] => 0%Qc
  | _ => match simpson y dx with Ok v => v | Raise _ => 0%Qc end
  end.

Definition mask (c : Curve) (band : Band) : list bool :=
  map (fun f => Qcleb (fst band) f && Qcleb f (snd band)) (freqs c).

Definition masked (c : Curve) (band : Band) : list Qc :=
  map fst (filter snd (combine (psd c) (mask c band))).

Definition band_power (c : Curve) (band : Band) (relative : bool) : outcome npfloat :=
  match freqs c with
  | f0 :: f1 :: _ =>
      let df := (f1 - f0)%Qc in
      let absolute := integrate (masked c band) df in
      if relative
      then Ok (np_true_divide absolute (integrate (psd c) df))
      else Ok (Finite absolute)
  | _ => Raise InsufficientResolutionError
  end.

End Spec.

(* ------------------------------------------------------------------ *)
(** ** A concrete setting for running the operator

    The estimators' numeric cores are parameters of the model.  To run the
    operator on concrete signals they are instantiated with a flat spectrum
    that carries the energy of the samples it is given.  This stand-in is
    not SciPy's periodogram (which detrends and windows every segment): the
    values it yields show that a run goes through and which samples an
    estimate was made from, not what the program would print. *)

Module Example.

Definition energy (x : list Qc) : Qc := np_sum (map (fun v => (v * v)%Qc) x).

Definition density (x : list Qc) (fs : Qc) (nperseg nfft : Z) (k : nat) : Qc :=
  energy x.

Definition multitaper_psd (x : list Qc) (fs : Qc) : outcome (list Qc * list Qc) :=
  let f := rfftfreq (Z.of_nat (length x)) fs in
  Ok (map (fun _ => energy x) f, f).

Definition samples (l : list Z) : list Qc := map of_Z l.

(** Three channels of eight samples at 64 Hz; the middle channel is silent. *)
Definition chunk : Signal :=
  {| data := [samples [1; 3; 1; 3; 1; 3; 1; 3];
              samples [0; 0; 0; 0; 0; 0; 0; 0];
              samples [2; 5; 2; 5; 2; 5; 2; 5]]%Z;
     rate := qc 64 1;
     number_of_channels := 3 |}.

(** One channel at 50 Hz: the curve ends at 25 Hz, below the gamma band. *)
Definition slow_chunk : Signal :=
  {| data := [samples [1; 3; 1; 3; 1; 3; 1; 3]%Z];
     rate := qc 50 1;
     number_of_channels := 1 |}.

(** The curve of a silent channel at 50 Hz: 101 bins from 0 to 25 Hz. *)
Definition silent_slow_curve : Curve :=
  {| freqs := rfftfreq 200 (qc 50 1);
     psd := map (fun _ => 0%Qc) (rfftfreq 200 (qc 50 1)) |}.

(** The curve of a silent channel at 64 Hz: 129 bins from 0 to 32 Hz. *)
Definition silent_curve : Curve :=
  {| freqs := rfftfreq 256 (qc 64 1);
     psd := map (fun _ => 0%Qc) (rfftfreq 256 (qc 64 1)) |}.

(** A curve with a single bin. *)
Definition one_bin_curve : Curve :=
  {| freqs := [0%Qc]; psd := [qc 1 1] |}.

(** A flat curve at 64 Hz: 129 bins from 0 to 32 Hz, density 1. *)
Definition flat_curve : Curve :=
  {| freqs := rfftfreq 256 (qc 64 1);
     psd := map (fun _ => qc 1 1) (rfftfreq 256 (qc 64 1)) |}.

Definition operator (excluded : list nat) (window : option Qc) : PeriodogramAnalysis :=
  {| exclude_channel_list := excluded;
     band_list := [(qc 8 1, qc 32 1)];
     window_length_for_welch := window |}.

Definition run (excluded : list nat) (window : option Qc) (signal : list Signal) :=
  __call__ density multitaper_psd (operator excluded window) signal.

End Example.

(* ------------------------------------------------------------------ *)
(** ** Notions used to state the properties *)

(** The chunk in which every sample of channel [k] is raised by the constant
    [offset k]. *)
Definition add_offset (offset : nat -> Qc) (signal : Signal) : Signal :=
  {| data := map (fun p => map (fun v => (v + offset (fst p))%Qc) (snd p))
                 (combine (seq 0 (length (data signal))) (data signal));
     rate := rate signal;
     number_of_channels := number_of_channels signal |}.

(** [signal.data[:, channel] - np.mean(signal.data[:, channel])], the
    samples line 89 hands to [sig.welch]. *)
Definition signal_no_bias (signal : Signal) (channel : nat) : outcome (list Qc) :=
  match column signal channel with
  | Ok col => Ok (np_sub_scalar col (np_mean col))
  | Raise e => Raise e
  end.

(** What of a PSD mapping does not depend on the values of the samples:
    the channels, their frequency axes and the number of density values. *)
Definition curve_axes (d : dict Curve) : list (nat * list Qc * nat) :=
  map (fun e => (fst e, freqs (snd e), length (psd (snd e)))) d.

(** Two outcomes of [computing_welch_periodogram] that end alike: the same
    exception, or mappings with the same axes. *)
Definition same_axes (r1 r2 : outcome (dict Curve)) : Prop :=
  match r1, r2 with
  | Ok d1, Ok d2 => curve_axes d1 = curve_axes d2
  | Raise e1, Raise e2 => e1 = e2
  | _, _ => False
  end.

(** A call of [sig.welch] up to the values of the samples. *)
Definition call_shape (c : list Qc * Qc * Qc * option Qc) : nat * Qc * Qc * option Qc :=
  (length (fst (fst (fst c))), snd (fst (fst c)), snd (fst c), snd c).

(** The channels a chunk is analysed on: [range(number_of_channels)] without
    the excluded ones, in order. *)
Definition analysed_channels (self : PeriodogramAnalysis) (signal : Signal) : list nat :=
  filter (fun channel => negb (py_in channel (exclude_channel_list self)))
         (seq 0 (number_of_channels signal)).

(** Arrays of non-negative values and of zeros. *)
Definition nonneg (y : list Qc) : Prop := Forall (fun v => (0 <= v)%Qc) y.
Definition zeros (y : list Qc) : Prop := Forall (fun v => v = 0%Qc) y.

(** The entries of a [PowerRecord], by band. *)
Definition idx_of (r : PowerRecord) (b : band_name) : list bool :=
  match b with
  | delta => idx_delta r
  | theta => idx_theta r
  | alpha => idx_alpha r
  | beta => idx_beta r
  | gamma => idx_gamma r
  end.

Definition power_of (r : PowerRecord) (b : band_name) : Qc :=
  match b with
  | delta => delta_power r
  | theta => theta_power r
  | alpha => alpha_power r
  | beta => beta_power r
  | gamma => gamma_power r
  end.

Definition rel_power_of (r : PowerRecord) (b : band_name) : npfloat :=
  match b with
  | delta => delta_rel_power r
  | theta => theta_rel_power r
  | alpha => alpha_rel_power r
  | beta => beta_rel_power r
  | gamma => gamma_rel_power r
  end.

(** The total power of a curve: [simpson(psd, dx=freqs[1] - freqs[0])]. *)
Definition total_power (c : Curve) : outcome Qc :=
  match freq_res_of (freqs c) with
  | Ok dx => simpson (psd c) dx
  | Raise e => Raise e
  end.

(** [r] holds the masks and powers of the five bands computed on [c]. *)
Definition record_of_curve (c : Curve) (r : PowerRecord) : Prop :=
  exists dx total,
    freq_res_of (freqs c) = Ok dx /\
    simpson (psd c) dx = Ok total /\
    forall b,
      idx_of r b = band_idx (freqs c) (bands b) /\
      simpson_masked (psd c) (idx_of r b) dx = Ok (power_of r b) /\
      rel_power_of r b = np_true_divide (power_of r b) total.

(** A band selects at least one bin of a frequency axis. *)
Definition selects (freqs : list Qc) (band : Band) : Prop :=
  In true (band_idx freqs band).

(** A curve on which the five bands can be integrated: one density value
    per bin, two bins or more, and at least one bin in every band. *)
Definition analysable (c : Curve) : Prop :=
  length (psd c) = length (freqs c) /\
  (2 <= length (freqs c))%nat /\
  forall b, selects (freqs c) (bands b).

(** The segment length [nperseg] that [computing_welch_bandpower] hands to
    [sig.welch]. *)
Definition welch_segment (self : PeriodogramAnalysis) (signal : Signal) (band : Band)
  : outcome Qc :=
  match window_length_for_welch self with
  | Some w => Ok (w * rate signal)%Qc
  | None =>
      match py_div (qc 2 1) (fst band) with
      | Ok q => Ok (q * rate signal)%Qc
      | Raise e => Raise e
      end
  end.

(** The steps that end [computing_multitaper_bandpower] and
    [computing_welch_bandpower] once the curve is there: spacing, mask,
    quadrature and, if asked for, the division by the total power. *)
Definition integrate_band (freqs psd : list Qc) (band : Band) (relative : bool)
  : outcome npfloat :=
  match freq_res_of freqs with
  | Raise e => Raise e
  | Ok freq_res =>
      match simpson_masked psd (band_idx freqs band) freq_res with
      | Raise e => Raise e
      | Ok bp =>
          if relative then
            match simpson psd freq_res with
            | Ok total => Ok (np_true_divide bp total)
            | Raise e => Raise e
            end
          else Ok (Finite bp)
      end
  end.

(** What a run shows to its collaborators. *)
Definition welch_calls (t : list event) : list (list Qc * Qc * Qc * option Qc) :=
  flat_map (fun ev => match ev with
                      | WelchCall x fs nperseg nfft => [(x, fs, nperseg, nfft)]
                      | _ => []
                      end) t.

Definition logged (t : list event) : list log_line :=
  flat_map (fun ev => match ev with LoggerInfo l => [l] | _ => [] end) t.

(** The absolute Welch band powers of a log, each under the header line
    ("Analysis of chunk i, channel c") it follows: the chunk and channel a
    reader of the log attributes the line to ([None] before the first
    header), the band and the value. *)
Fixpoint welch_report_from (header : option (nat * nat)) (lines : list log_line)
  : list (option (nat * nat) * Band * npfloat) :=
  match lines with
  | [] => []
  | AnalysisOf chunk channel :: rest => welch_report_from (Some (chunk, channel)) rest
  | BandPowerLine band false Welch v :: rest =>
      (header, band, v) :: welch_report_from header rest
  | _ :: rest => welch_report_from header rest
  end.

Definition welch_report (t : list event) : list (option (nat * nat) * Band * npfloat) :=
  welch_report_from None (logged t).

(** The headers and bands of the absolute Welch lines of a run that
    returns: for every chunk in order, every analysed channel in order,
    every band of [band_list] in order. *)
Definition report_keys (self : PeriodogramAnalysis) (signal : list Signal)
  : list (option (nat * nat) * Band) :=
  flat_map (fun piece =>
              flat_map (fun channel =>
                          map (fun band => (Some (fst piece, channel), band))
                              (band_list self))
                       (analysed_channels self (snd piece)))
           (combine (seq 0 (length signal)) signal).

(** [v] is the integrator's absolute power of [band] on the curve
    [sig.welch] returns for the samples of [channel] of [piece] as they
    are, with segment length [window * rate] and the default FFT length. *)
Definition own_welch_power
    (density : list Qc -> Qc -> Z -> Z -> nat -> Qc)
    (self : PeriodogramAnalysis) (piece : Signal) (channel : nat) (band : Band)
    (v : npfloat) : Prop :=
  exists w x c,
    window_length_for_welch self = Some w /\
    signal_getitem piece channel = Ok x /\
    welch density x (rate piece) (w * rate piece)%Qc None = Ok c /\
    Spec.band_power {| freqs := fst c; psd := snd c |} band false = Ok v.

Definition returns {A} (m : M A) : bool :=
  match result m with Ok _ => true | Raise _ => false end.

(* ------------------------------------------------------------------ *)
(** ** Notions of the further properties *)

Unset Implicit Arguments.

(** Two chunks that agree on everything the operator may look at: the rate,
    the channel count and the buffers of the channels that are not
    excluded. *)
Definition agree_on_analysed (self : PeriodogramAnalysis) (s1 s2 : Signal) : Prop :=
  rate s1 = rate s2 /\
  number_of_channels s1 = number_of_channels s2 /\
  forall channel,
    py_in channel (exclude_channel_list self) = false ->
    nth_error (data s1) channel = nth_error (data s2) channel.

(** The curve a band power of method [m] is integrated over: what the
    estimator of that method returns for the samples [x], as the pair
    (frequency axis, densities). *)
Definition estimate
    (density : list Qc -> Qc -> Z -> Z -> nat -> Qc)
    (mt : list Qc -> Qc -> outcome (list Qc * list Qc))
    (self : PeriodogramAnalysis) (signal : Signal) (band : Band)
    (m : method) (x : list Qc) : outcome (list Qc * list Qc) :=
  match m with
  | Multitaper =>
      match mt x (rate signal) with
      | Ok c => Ok (snd c, fst c)
      | Raise e => Raise e
      end
  | Welch =>
      match welch_segment self signal band with
      | Ok nperseg => welch density x (rate signal) nperseg None
      | Raise e => Raise e
      end
  end.

(** [computing_multitaper_bandpower] or [computing_welch_bandpower]. *)
Definition computing_bandpower
    (density : list Qc -> Qc -> Z -> Z -> nat -> Qc)
    (mt : list Qc -> Qc -> outcome (list Qc * list Qc))
    (self : PeriodogramAnalysis) (m : method)
    (signal : Signal) (band : Band) (channel : nat) (relative : bool) : M npfloat :=
  match m with
  | Multitaper => computing_multitaper_bandpower mt signal band channel relative
  | Welch => computing_welch_bandpower density self signal band channel relative
  end.

(** The three kinds of interaction of a run. *)
Inductive kind : Type := EstimateWelch | EstimateMultitaper | LogLine.

Definition kind_of (ev : event) : kind :=
  match ev with
  | WelchCall _ _ _ _ => EstimateWelch
  | MultitaperCall _ _ => EstimateMultitaper
  | LoggerInfo _ => LogLine
  end.

Definition kind_eqb (k1 k2 : kind) : bool :=
  match k1, k2 with
  | EstimateWelch, EstimateWelch => true
  | EstimateMultitaper, EstimateMultitaper => true
  | LogLine, LogLine => true
  | _, _ => false
  end.

Definition count_kind (k : kind) (t : list event) : nat :=
  length (filter (fun ev => kind_eqb (kind_of ev) k) t).

(** The interactions [__call__] spends on one analysed channel of one
    chunk, for [n] bands in [band_list]: one Welch estimate for the stored
    curve and two per band; two multitaper estimates per band; the header
    line, four lines per band and the ten lines of the stored powers. *)
Definition channel_cost (n : nat) (k : kind) : nat :=
  match k with
  | EstimateWelch => (1 + 2 * n)%nat
  | EstimateMultitaper => (2 * n)%nat
  | LogLine => (11 + 4 * n)%nat
  end.

(* ------------------------------------------------------------------ *)
(** ** Line 88 in binary64

    NumPy computes the mean and the difference in IEEE binary64: every
    sum, quotient and difference is rounded to the nearest float, ties to
    even.  [np.mean] adds the elements and divides by their number; for
    fewer than eight elements NumPy's pairwise summation adds them in
    order. *)
Module Float64.

Definition float64 : Type := spec_float.

Definition prec : Z := 53.
Definition emax : Z := 1024.

Definition add : float64 -> float64 -> float64 := SFadd prec emax.
Definition sub : float64 -> float64 -> float64 := SFsub prec emax.
Definition div : float64 -> float64 -> float64 := SFdiv prec emax.

(** The float nearest to the integer [z], and to the fraction [n / d] of
    two integers that are floats themselves (Python's literal [0.1] is
    [of_ratio 1 10]). *)
Definition of_Z (z : Z) : float64 := binary_normalize prec emax z 0 false.
Definition of_ratio (n d : Z) : float64 := div (of_Z n) (of_Z d).

Definition np_sum (a : list float64) : float64 :=
  fold_left add a (S754_zero false).

Definition np_mean (a : list float64) : float64 :=
  div (np_sum a) (of_Z (Z.of_nat (length a))).

Definition np_sub_scalar (a : list float64) (m : float64) : list float64 :=
  map (fun v => sub v m) a.

(** [col - np.mean(col)]. *)
Definition signal_no_bias (col : list float64) : list float64 :=
  np_sub_scalar col (np_mean col).

(** The buffer with [c] added to every sample. *)
Definition add_offset (c : float64) (col : list float64) : list float64 :=
  map (fun v => add v c) col.

(** [np.array_equal] on finite values. *)
Fixpoint array_equal (a b : list float64) : bool :=
  match a, b with
  | [], [] => true
  | x :: a', y :: b' => SFeqb x y && array_equal a' b'
  | _, _ => false
  end.

End Float64.

(* ------------------------------------------------------------------ *)
(** ** Plotting

    [plot_welch_periodogram] draws one figure per chunk and channel of the
    returned PSD mapping.  Its collaborators are matplotlib and the file
    system: a run of it is the trace of the matplotlib calls, in the order
    of the source, and the outcome.  Of matplotlib only the argument checks
    are modelled ([semilogx], [plot] and [fill_between] refuse arrays of
    different lengths with [ValueError]); whether [savefig] succeeds is the
    file system's affair and left to a parameter.  The constant arguments
    of the calls (line width, colours, labels, figure size, resolution) are
    not recorded; the arguments [self] and [input], which the method does
    not use, are left out. *)

Inductive axes : Type := ax1 | ax2.

(** The calls: [plt.subplots], [ax1.semilogx], [ax2.plot], the two
    [set_xlabel]/[set_ylabel] of a panel, [ax1.set_title], [fill_between]
    for a band, [set_ylim] (with its upper limit), [set_xlim], [legend],
    [plt.show], [plt.savefig] and [plt.close]. *)
Inductive plot_call : Type :=
| Subplots
| Semilogx (freqs psd : list Qc)
| PlotLine (freqs psd : list Qc)
| SetLabels (ax : axes)
| SetTitle (channel : nat)
| FillBetween (ax : axes) (freqs psd : list Qc) (where_ : list bool) (name : band_name)
| SetYlim (ax : axes) (top : Qc)
| SetXlim (ax : axes) (low high : Qc)
| Legend (ax : axes)
| ShowFigure
| Savefig (path : string)
| CloseFigure.

(** A run of the plotting method, with its sequencing. *)

Definition P (A : Type) : Type := (list plot_call * outcome A)%type.

Definition pret {A} (a : A) : P A := ([], Ok a).
Definition pcall (c : plot_call) : P unit := ([c], Ok tt).
Definition plift {A} (o : outcome A) : P A := ([], o).

Definition pbind {A B} (m : P A) (f : A -> P B) : P B :=
  match m with
  | (t, Raise e) => (t, Raise e)
  | (t, Ok a) => let (t', r) := f a in (t ++ t', r)
  end.

Declare Scope plot_scope.
Delimit Scope plot_scope with plot.
Notation "x <- c1 ;; c2" := (pbind c1 (fun x => c2))
  (at level 61, c1 at next level, right associativity) : plot_scope.
Notation "c1 ;;; c2" := (pbind c1 (fun _ => c2))
  (at level 61, right associativity) : plot_scope.

Definition calls {A} (m : P A) : list plot_call := fst m.
Definition outcome_of {A} (m : P A) : outcome A := snd m.

(** A Python [for] loop of the plotting method. *)
Fixpoint pfor {A} (xs : list A) (body : A -> P unit) : P unit :=
  match xs with
  | [] => pret tt
  | x :: xs' => (body x ;;; pfor xs' body)%plot
  end.

(** [np.max(a)]: an empty array has no maximum. *)
Definition Qcmax (a b : Qc) : Qc := if Qcleb a b then b else a.

Definition np_max (a : list Qc) : outcome Qc :=
  match a with
  | [] => Raise ValueError
  | v :: a' => Ok (fold_left Qcmax a' v)
  end.

(** [str(n)] for a non-negative integer, as an f-string formats it. *)
Definition str_of_int (n : nat) : string := NilEmpty.string_of_uint (Nat.to_uint n).

(** [os.path.join(a, b)] on POSIX. *)
Definition ends_with_sep (a : string) : bool :=
  match get (String.length a - 1) a with
  | Some c => Ascii.eqb c "/"
  | None => false
  end.

Definition os_path_join (a b : string) : string :=
  if prefix "/" b then b
  else if (String.eqb a "" || ends_with_sep a)%bool then (a ++ b)%string
  else (a ++ "/" ++ b)%string.

(** The file a figure is saved to. *)
Definition plot_path (save_path : string) (chunk channel : nat) : string :=
  os_path_join save_path
    ("Chunk" ++ str_of_int chunk ++ "_Welch_periodogram_of_channel_"
     ++ str_of_int channel ++ ".png")%string.

Section Plotting.

(** [plt.savefig(path, dpi=300)]. *)
Variable savefig : string -> outcome unit.

(** [ax.semilogx(freqs, psd)] and [ax.plot(freqs, psd)]. *)
Definition draw_line (ax : axes) (freqs psd : list Qc) : P unit :=
  if Nat.eqb (length freqs) (length psd)
  then pcall (match ax with ax1 => Semilogx freqs psd | ax2 => PlotLine freqs psd end)
  else plift (Raise ValueError).

(** [ax.fill_between(freqs, psd, where=power_dict[chunk][channel]['idx_<band>'])]:
    the mask is looked up first; a chunk or channel without a power record
    is a [KeyError] (also when [power_dict] is the [defaultdict] that
    [__call__] returns: the missing chunk is then created empty and the
    channel is missing in it). *)
Definition fill_between (ax : axes) (freqs psd : list Qc)
    (power_dict : dict (dict PowerRecord)) (chunk channel : nat) (b : band_name)
  : P unit :=
  (chunk_powers <- plift (dict_item power_dict chunk) ;;
   r <- plift (dict_item chunk_powers channel) ;;
   let where_ := idx_of r b in
   if Nat.eqb (length where_) (length freqs)
   then pcall (FillBetween ax freqs psd where_ b)
   else plift (Raise ValueError))%plot.

(** [ax.set_ylim([0, np.max(psd) * 1.1])]. *)
Definition set_ylim (ax : axes) (psd : list Qc) : P unit :=
  (top <- plift (np_max psd) ;; pcall (SetYlim ax (top * qc 11 10)%Qc))%plot.

(** One of the two panels of a figure, from its curve to its legend. *)
Definition draw_panel (ax : axes) (freqs psd : list Qc)
    (power_dict : dict (dict PowerRecord)) (chunk channel : nat) : P unit :=
  (draw_line ax freqs psd ;;;
   pcall (SetLabels ax) ;;;
   match ax with ax1 => pcall (SetTitle channel) | ax2 => pret tt end ;;;
   pfor [delta; theta; alpha; beta; gamma]
        (fill_between ax freqs psd power_dict chunk channel) ;;;
   set_ylim ax psd ;;;
   pcall (match ax with
          | ax1 => SetXlim ax1 (qc 1 10) (qc 100 1)
          | ax2 => SetXlim ax2 0%Qc (qc 100 1)
          end) ;;;
   pcall (Legend ax))%plot.

(** The body of the inner loop, the figure of one chunk and channel: the
    curve is looked up, the figure is opened, its two panels are drawn, it
    is shown if [show], saved if [save_path is not None], and closed. *)
Definition draw_figure (psd_dict : dict (dict Curve))
    (power_dict : dict (dict PowerRecord))
    (show : bool) (save_path : option string) (chunk channel : nat) : P unit :=
  (chunk_psd <- plift (dict_item psd_dict chunk) ;;
   c <- plift (dict_item chunk_psd channel) ;;
   let freqs := freqs c in
   let psd := psd c in
   pcall Subplots ;;;
   draw_panel ax1 freqs psd power_dict chunk channel ;;;
   draw_panel ax2 freqs psd power_dict chunk channel ;;;
   (if show then pcall ShowFigure else pret tt) ;;;
   match save_path with
   | Some dir =>
       let path := plot_path dir chunk channel in
       pcall (Savefig path) ;;; plift (savefig path)
   | None => pret tt
   end ;;;
   pcall CloseFigure)%plot.

Definition plot_welch_periodogram
    (output : dict (dict Curve) * dict (dict PowerRecord))
    (show : bool) (save_path : option string) : P unit :=
  let psd_dict := fst output in
  let power_dict := snd output in
  pfor (dict_keys psd_dict)
    (fun chunk =>
       (chunk_psd <- plift (dict_item psd_dict chunk) ;;
        pfor (dict_keys chunk_psd)
          (draw_figure psd_dict power_dict show save_path chunk))%plot).

End Plotting.

(** Figures opened ([plt.subplots]) and closed ([plt.close]) in a run, and
    the files saved. *)
Definition opened (t : list plot_call) : nat :=
  length (filter (fun c => match c with Subplots => true | _ => false end) t).

Definition closed (t : list plot_call) : nat :=
  length (filter (fun c => match c with CloseFigure => true | _ => false end) t).

Definition saved (t : list plot_call) : list string :=
  flat_map (fun c => match c with Savefig path => [path] | _ => [] end) t.

(** The (chunk, channel) pairs of a PSD mapping in the order the plotting
    method visits them. *)
Definition figures (psd_dict : dict (dict Curve)) : list (nat * nat) :=
  flat_map (fun chunk =>
              match dict_get psd_dict chunk with
              | Some chunk_psd => map (fun channel => (chunk, channel)) (dict_keys chunk_psd)
              | None => []
              end)
           (dict_keys psd_dict).

(** Decimal digits, to read a number back from a file name. *)
Definition is_digit (c : ascii) : bool :=
  (Nat.leb 48 (nat_of_ascii c) && Nat.leb (nat_of_ascii c) 57)%bool.

Fixpoint all_digits (s : string) : bool :=
  match s with
  | EmptyString => true
  | String c s' => (is_digit c && all_digits s')%bool
  end.

Definition starts_without_digit (s : string) : bool :=
  match s with
  | EmptyString => false
  | String c _ => negb (is_digit c)
  end.

(** Calls that neither open, close nor save a figure. *)
Definition quiet (c : plot_call) : Prop :=
  match c with
  | Subplots | CloseFigure | Savefig _ => False
  | _ => True
  end.

(** A run that opens and closes figures in step: after returning, as many
    closed as opened, with the files saved; after raising, one figure left
    open. *)
Definition accounted (m : P unit) (n : nat) (files : list string) : Prop :=
  match outcome_of m with
  | Ok _ => opened (calls m) = n /\ closed (calls m) = n /\ saved (calls m) = files
  | Raise _ => opened (calls m) = S (closed (calls m))
  end.

(* ================================================================== *)
(** * Properties *)

Unset Implicit Arguments.

(** ** Runs and loops *)

Lemma result_bind {A B} (m : M A) (f : A -> M B) :
  result (bind m f) =
  match result m with Ok a => result (f a) | Raise e => Raise e end.
Proof.
  destruct m as [t [a|e]]; simpl; [destruct (f a); reflexivity | reflexivity].
Qed.

Lemma trace_bind {A B} (m : M A) (f : A -> M B) :
  trace (bind m f) =
  trace m ++ match result m with Ok a => trace (f a) | Raise _ => [] end.
Proof.
  destruct m as [t [a|e]]; simpl.
  - destruct (f a); reflexivity.
  - symmetry; apply app_nil_r.
Qed.

Lemma result_lift {A} (o : outcome A) : result (lift o) = o.
Proof. reflexivity. Qed.

Lemma trace_lift {A} (o : outcome A) : trace (lift o) = [].
Proof. reflexivity. Qed.

Lemma bind_ext {A B} (m : M A) (f g : A -> M B) :
  (forall a, f a = g a) -> bind m f = bind m g.
Proof.
  intros H. destruct m as [t [a|e]]; simpl; [rewrite H|]; reflexivity.
Qed.

Lemma for_each_ext {A S} (xs : list A) (body body' : A -> S -> M S) :
  (forall x s, In x xs -> body x s = body' x s) ->
  forall s, for_each xs body s = for_each xs body' s.
Proof.
  induction xs as [|x xs IH]; intros H s; simpl; [reflexivity|].
  rewrite (H x s) by (left; reflexivity).
  destruct (body' x s) as [t [s'|e]]; simpl; [|reflexivity].
  rewrite IH by (intros; apply H; right; assumption).
  reflexivity.
Qed.

(** An event of a loop's trace is an event of one of its iterations. *)
Lemma for_each_trace_in {A S} (xs : list A) (body : A -> S -> M S) ev :
  forall s, In ev (trace (for_each xs body s)) ->
  exists x s', In x xs /\ In ev (trace (body x s')).
Proof.
  induction xs as [|x xs IH]; intros s H; simpl in H; [contradiction|].
  rewrite trace_bind in H. apply in_app_or in H. destruct H as [H|H].
  - exists x, s. split; [left; reflexivity | assumption].
  - destruct (result (body x s)) as [s'|e]; [|contradiction].
    destruct (IH _ H) as (y & s2 & Hy & Hev).
    exists y, s2. split; [right; assumption | assumption].
Qed.

(** A loop that returns has kept every invariant its iterations keep; an
    iteration may rely on its position in the list. *)
Lemma for_each_invariant_from {A S} (I : list A -> S -> Prop) (body : A -> S -> M S)
    (all : list A) :
  (forall done x rest s1 s2,
      all = done ++ x :: rest -> I done s1 -> result (body x s1) = Ok s2 ->
      I (done ++ [x]) s2) ->
  forall xs pre s s',
    all = pre ++ xs -> I pre s ->
    result (for_each xs body s) = Ok s' -> I all s'.
Proof.
  intros Hstep. induction xs as [|x xs IH]; intros pre s s' Hall HI Hres; simpl in Hres.
  - rewrite app_nil_r in Hall. inversion Hres; subst; assumption.
  - rewrite result_bind in Hres.
    destruct (result (body x s)) as [s1|e] eqn:E; [|discriminate].
    apply (IH (pre ++ [x]) s1 s').
    + rewrite <- app_assoc. exact Hall.
    + eapply Hstep; eassumption.
    + exact Hres.
Qed.

Lemma for_each_invariant {A S} (I : list A -> S -> Prop) (body : A -> S -> M S)
    (xs : list A) (s s' : S) :
  I [] s ->
  (forall done x rest s1 s2,
      xs = done ++ x :: rest -> I done s1 -> result (body x s1) = Ok s2 ->
      I (done ++ [x]) s2) ->
  result (for_each xs body s) = Ok s' -> I xs s'.
Proof.
  intros H0 Hstep Hres.
  exact (for_each_invariant_from I body xs Hstep xs [] s s' eq_refl H0 Hres).
Qed.

(** A loop raises only what one of its iterations raises. *)
Lemma for_each_raise {A S} (xs : list A) (body : A -> S -> M S) e :
  forall s, result (for_each xs body s) = Raise e ->
  exists x s', In x xs /\ result (body x s') = Raise e.
Proof.
  induction xs as [|x xs IH]; intros s H; simpl in H; [discriminate|].
  rewrite result_bind in H.
  destruct (result (body x s)) as [s1|e1] eqn:E.
  - destruct (IH _ H) as (y & s2 & Hy & Hr).
    exists y, s2. split; [right; assumption | assumption].
  - inversion H; subst. exists x, s. split; [left; reflexivity | assumption].
Qed.

(** ** Arithmetic of the sample mean *)

Lemma of_nat_S (n : nat) : of_nat (S n) = (of_nat n + 1)%Qc.
Proof.
  unfold of_nat, Qcplus. apply Q2Qc_eq_iff.
  cbn [this Q2Qc]. rewrite !Qred_correct. rewrite Nat2Z.inj_succ. unfold Z.succ.
  rewrite inject_Z_plus. reflexivity.
Qed.

Lemma of_nat_pos (n : nat) : n <> 0%nat -> of_nat n <> 0%Qc.
Proof.
  intros Hn H. unfold of_nat in H. apply Q2Qc_eq_iff in H.
  unfold Qeq in H. simpl in H. lia.
Qed.

Lemma of_nat_0 : of_nat 0 = 0%Qc.
Proof. apply Qc_is_canon. reflexivity. Qed.

Lemma np_sum_offset (c : Qc) (a : list Qc) :
  np_sum (map (fun v => v + c) a) = (np_sum a + of_nat (length a) * c)%Qc.
Proof.
  induction a as [|v a IH].
  - simpl. rewrite of_nat_0. ring.
  - cbn [map length np_sum fold_right].
    fold (np_sum (map (fun v => v + c) a)). fold (np_sum a).
    rewrite IH, of_nat_S. ring.
Qed.

Lemma np_mean_offset (c : Qc) (a : list Qc) :
  a <> [] -> np_mean (map (fun v => v + c) a) = (np_mean a + c)%Qc.
Proof.
  intros Ha. unfold np_mean. rewrite np_sum_offset, length_map.
  assert (H : of_nat (length a) <> 0%Qc)
    by (apply of_nat_pos; destruct a; [congruence | simpl; lia]).
  field. exact H.
Qed.

(** With exact arithmetic, subtracting the mean cancels a constant offset. *)
Lemma signal_no_bias_offset (c : Qc) (a : list Qc) :
  np_sub_scalar (map (fun v => v + c) a) (np_mean (map (fun v => v + c) a)) =
  np_sub_scalar a (np_mean a).
Proof.
  destruct a as [|v a]; [reflexivity|].
  rewrite np_mean_offset by discriminate.
  unfold np_sub_scalar. rewrite map_map. apply map_ext. intros w. ring.
Qed.

Lemma nth_error_enumerate {A} (l : list A) :
  forall start i,
    nth_error (combine (seq start (length l)) l) i =
    option_map (fun a => ((start + i)%nat, a)) (nth_error l i).
Proof.
  induction l as [|a l IH]; intros start i.
  - destruct i; reflexivity.
  - destruct i as [|i]; simpl.
    + rewrite Nat.add_0_r. reflexivity.
    + rewrite IH. replace (S start + i)%nat with (start + S i)%nat by lia. reflexivity.
Qed.

Lemma column_add_offset (offset : nat -> Qc) (signal : Signal) (channel : nat) :
  column (add_offset offset signal) channel =
  match column signal channel with
  | Ok col => Ok (map (fun v => (v + offset channel)%Qc) col)
  | Raise e => Raise e
  end.
Proof.
  unfold column, add_offset; simpl. rewrite nth_error_map, nth_error_enumerate.
  destruct (nth_error (data signal) channel); reflexivity.
Qed.

(** With exact arithmetic the centred samples of a chunk do not change
    when a constant is added to every sample of a channel. *)
Lemma exact_centring_cancels_offset (offset : nat -> Qc) (signal : Signal) (channel : nat) :
  signal_no_bias (add_offset offset signal) channel = signal_no_bias signal channel.
Proof.
  unfold signal_no_bias. rewrite column_add_offset.
  destruct (column signal channel) as [col|e]; [|reflexivity].
  rewrite signal_no_bias_offset. reflexivity.
Qed.

(** ** Dictionaries *)

Lemma dict_get_set_eq {V} (d : dict V) k v : dict_get (dict_set d k v) k = Some v.
Proof.
  induction d as [|[k' v'] d IH]; simpl.
  - rewrite Nat.eqb_refl. reflexivity.
  - destruct (Nat.eqb k k') eqn:E; simpl.
    + rewrite Nat.eqb_refl. reflexivity.
    + rewrite E. exact IH.
Qed.

Lemma dict_get_set_ne {V} (d : dict V) k k' v :
  k <> k' -> dict_get (dict_set d k v) k' = dict_get d k'.
Proof.
  intros Hne. induction d as [|[k1 v1] d IH]; simpl.
  - destruct (Nat.eqb k' k) eqn:E; [apply Nat.eqb_eq in E; congruence | reflexivity].
  - destruct (Nat.eqb k k1) eqn:E; simpl.
    + apply Nat.eqb_eq in E; subst k1.
      destruct (Nat.eqb k' k) eqn:E'; [apply Nat.eqb_eq in E'; congruence | reflexivity].
    + rewrite IH. reflexivity.
Qed.

Lemma dict_keys_set_fresh {V} (d : dict V) k v :
  ~ In k (dict_keys d) -> dict_keys (dict_set d k v) = dict_keys d ++ [k].
Proof.
  induction d as [|[k' v'] d IH]; simpl; intros Hk; [reflexivity|].
  destruct (Nat.eqb k k') eqn:E.
  - apply Nat.eqb_eq in E. subst. exfalso. apply Hk. left; reflexivity.
  - simpl. f_equal. apply IH. intros H. apply Hk. right; exact H.
Qed.

Lemma dict_get_in_keys {V} (d : dict V) k :
  In k (dict_keys d) -> exists v, dict_get d k = Some v.
Proof.
  induction d as [|[k' v'] d IH]; simpl; intros H; [contradiction|].
  destruct (Nat.eqb k k') eqn:E; [eexists; reflexivity|].
  destruct H as [H|H]; [subst; rewrite Nat.eqb_refl in E; discriminate | exact (IH H)].
Qed.

Lemma dict_get_some_in_keys {V} (d : dict V) k v :
  dict_get d k = Some v -> In k (dict_keys d).
Proof.
  induction d as [|[k' v'] d IH]; simpl; intros H; [discriminate|].
  destruct (Nat.eqb k k') eqn:E.
  - apply Nat.eqb_eq in E. left. congruence.
  - right. exact (IH H).
Qed.

(** ** The band mask *)

Lemma Qcleb_iff (x y : Qc) : Qcleb x y = true <-> (x <= y)%Qc.
Proof. unfold Qcleb, Qcle. apply Qle_bool_iff. Qed.

Lemma band_idx_cons (f : Qc) (freqs : list Qc) (band : Band) :
  band_idx (f :: freqs) band =
  (Qcleb (fst band) f && Qcleb f (snd band)) :: band_idx freqs band.
Proof. reflexivity. Qed.

Lemma band_idx_length (freqs : list Qc) (band : Band) :
  length (band_idx freqs band) = length freqs.
Proof.
  induction freqs as [|f freqs IH]; [reflexivity|].
  rewrite band_idx_cons. simpl. rewrite IH. reflexivity.
Qed.


(** ** Cracking a run that returned *)

Lemma result_bind_ok {A B} (m : M A) (f : A -> M B) (b : B) :
  result (bind m f) = Ok b -> exists a, result m = Ok a /\ result (f a) = Ok b.
Proof.
  rewrite result_bind. destruct (result m) as [a|e]; [|discriminate].
  intros H. exists a. split; [reflexivity | exact H].
Qed.

Ltac crack H :=
  let a := fresh "a" in
  let Ha := fresh "Ha" in
  apply result_bind_ok in H; destruct H as (a & Ha & H).

(** ** The keys of the returned mappings *)

Lemma py_in_iff channel l : py_in channel l = true <-> In channel l.
Proof.
  unfold py_in. rewrite existsb_exists. split.
  - intros (x & Hx & E). apply Nat.eqb_eq in E. subst. exact Hx.
  - intros H. exists channel. split; [exact H | apply Nat.eqb_refl].
Qed.

Lemma analysed_channels_spec self signal ch :
  In ch (analysed_channels self signal) <->
  ((ch < number_of_channels signal)%nat /\ ~ In ch (exclude_channel_list self)).
Proof.
  unfold analysed_channels. rewrite filter_In, in_seq, negb_true_iff.
  rewrite <- py_in_iff. destruct (py_in ch (exclude_channel_list self)); split; intros [H1 H2];
    (split; [lia | congruence]).
Qed.

Lemma analysed_channels_NoDup self signal : NoDup (analysed_channels self signal).
Proof. apply NoDup_filter, seq_NoDup. Qed.

Lemma welch_periodogram_keys density self signal d :
  result (computing_welch_periodogram density self signal) = Ok d ->
  dict_keys d = analysed_channels self signal.
Proof.
  unfold computing_welch_periodogram, analysed_channels. intros H.
  crack H.
  revert H. apply for_each_invariant with
    (I := fun done (psd_dict : dict Curve) =>
            dict_keys psd_dict =
            filter (fun channel => negb (py_in channel (exclude_channel_list self))) done).
  - reflexivity.
  - intros done x rest s1 s2 Hall HI Hbody.
    rewrite filter_app. simpl.
    destruct (py_in x (exclude_channel_list self)) eqn:Ex; simpl.
    + inversion Hbody; subst. rewrite app_nil_r. exact HI.
    + crack Hbody. crack Hbody. inversion Hbody; subst.
      rewrite dict_keys_set_fresh; [rewrite HI; reflexivity|].
      rewrite HI. intros Hin. apply filter_In in Hin. destruct Hin as [Hin _].
      pose proof (seq_NoDup (number_of_channels signal) 0) as ND.
      rewrite Hall in ND. apply NoDup_remove_2 in ND.
      apply ND. apply in_or_app. left. exact Hin.
Qed.

Lemma power_keys psd_dict p :
  NoDup (dict_keys psd_dict) ->
  result (computing_absolute_and_relative_power psd_dict) = Ok p ->
  dict_keys p = dict_keys psd_dict.
Proof.
  intros ND. unfold computing_absolute_and_relative_power.
  apply for_each_invariant with
    (I := fun done (power_dict : dict PowerRecord) => dict_keys power_dict = done).
  - reflexivity.
  - intros done x rest s1 s2 Hall HI Hbody.
    do 8 crack Hbody. inversion Hbody; subst.
    rewrite dict_keys_set_fresh; [reflexivity|].
    rewrite Hall in ND. apply NoDup_remove_2 in ND.
    intros Hin. apply ND. apply in_or_app. left. exact Hin.
Qed.

Lemma map_fst_enumerate {A} (l : list A) start :
  map fst (combine (seq start (length l)) l) = seq start (length l).
Proof.
  revert start. induction l as [|a l IH]; intros start; simpl; [reflexivity|].
  rewrite IH. reflexivity.
Qed.

Lemma in_enumerate {A} (l : list A) start i a :
  nth_error l i = Some a -> In ((start + i)%nat, a) (combine (seq start (length l)) l).
Proof.
  revert start i. induction l as [|b l IH]; intros start i H.
  - destruct i; discriminate.
  - destruct i as [|i]; simpl in *.
    + inversion H; subst. left. rewrite Nat.add_0_r. reflexivity.
    + right. replace (start + S i)%nat with (S start + i)%nat by lia. apply IH. exact H.
Qed.

(** C8.  When [__call__] returns, both returned mappings have one entry per
    chunk, [0 .. len(signal) - 1], and for every chunk the keys of its PSD
    mapping and of its power mapping are exactly the analysed channels: the
    indices [0 .. number_of_channels - 1] that are not excluded (each once,
    in increasing order). *)
Theorem result_keys_are_analysed_channels :
  forall density mt self signal psd_dict power_dict,
    result (__call__ density mt self signal) = Ok (psd_dict, power_dict) ->
    dict_keys psd_dict = seq 0 (length signal) /\
    dict_keys power_dict = seq 0 (length signal) /\
    forall i piece, nth_error signal i = Some piece ->
      exists d p,
        dict_get psd_dict i = Some d /\ dict_get power_dict i = Some p /\
        dict_keys d = analysed_channels self piece /\
        dict_keys p = analysed_channels self piece /\
        forall ch, In ch (analysed_channels self piece) <->
                   ((ch < number_of_channels piece)%nat /\
                    ~ In ch (exclude_channel_list self)).
Proof.
  intros density mt self signal psd_dict power_dict.
  unfold __call__. intros H.
  pose (I := fun (done : list (nat * Signal))
                 (dicts : dict (dict Curve) * dict (dict PowerRecord)) =>
     dict_keys (fst dicts) = map fst done /\
     dict_keys (snd dicts) = map fst done /\
     forall i piece, In (i, piece) done ->
       exists d p,
         dict_get (fst dicts) i = Some d /\ dict_get (snd dicts) i = Some p /\
         dict_keys d = analysed_channels self piece /\
         dict_keys p = analysed_channels self piece).
  assert (HI : I (combine (seq 0 (length signal)) signal) (psd_dict, power_dict)).
  { revert H. apply for_each_invariant with (I := I).
    - repeat split; intros i piece [].
    - intros done [idx piece] rest [pd pw] s2 Hall (K1 & K2 & K3) Hbody.
      cbn [fst snd] in *.
      crack Hbody. crack Hbody. crack Hbody. inversion Hbody; subst s2; clear Hbody.
      assert (Hfresh : ~ In idx (map fst done)).
      { pose proof (seq_NoDup (length signal) 0) as ND.
        rewrite <- (map_fst_enumerate signal 0), Hall, map_app in ND.
        simpl in ND. apply NoDup_remove_2 in ND.
        intros Hin. apply ND. apply in_or_app. left. exact Hin. }
      unfold I; cbn [fst snd]. rewrite map_app. simpl.
      rewrite !dict_keys_set_fresh by congruence.
      rewrite K1, K2. repeat split.
      intros i p Hin. apply in_app_or in Hin. destruct Hin as [Hin|[Hin|[]]].
      + assert (idx <> i).
        { intros ->. apply Hfresh. apply in_map_iff. exists (i, p). split; [reflexivity|exact Hin]. }
        rewrite !dict_get_set_ne by assumption. apply K3. exact Hin.
      + inversion Hin; subst i p. rewrite !dict_get_set_eq.
        exists a, a0. repeat split.
        * exact (welch_periodogram_keys density self piece a Ha).
        * pose proof (welch_periodogram_keys density self piece a Ha) as Hk.
          rewrite (power_keys a a0); [exact Hk | | exact Ha0].
          rewrite Hk. apply analysed_channels_NoDup.
  }
  destruct HI as (K1 & K2 & K3). cbn [fst snd] in *.
  rewrite map_fst_enumerate in K1, K2. repeat split; try assumption.
  intros i piece Hn.
  destruct (K3 i piece (in_enumerate signal 0 i piece Hn)) as (d & p & G1 & G2 & G3 & G4).
  exists d, p. split; [exact G1|]. split; [exact G2|]. split; [exact G3|].
  split; [exact G4|]. intros ch. apply analysed_channels_spec.
Qed.

(** ** Simpson's rule *)

Lemma Qc_eq_Qeq (x y : Qc) : x = y <-> (this x == this y)%Q.
Proof. split; [intros ->; reflexivity | apply Qc_is_canon]. Qed.

(** Goals and hypotheses over [Qc] read over [Q], where [lra] and [field]
    apply. *)
Ltac qc_norm :=
  repeat match goal with
  | H : @eq Qc _ _ |- _ => apply Qc_eq_Qeq in H
  | H : ~ @eq Qc _ _ |- _ => rewrite Qc_eq_Qeq in H
  end;
  try (apply Qc_eq_Qeq);
  unfold Qcle, Qclt, Qcminus, Qcdiv, Qcplus, Qcmult, Qcopp, Qcinv, qc in *;
  cbn [this Q2Qc] in *;
  rewrite ?Qred_correct in *.

(** Induction along the recursion of [basic_simpson_sum]. *)
Lemma simpson_ind (P : list Qc -> Prop) :
  P [] -> (forall a, P [a]) -> (forall a b, P [a; b]) ->
  (forall y0 y1 y2 t, P (y2 :: t) -> P (y0 :: y1 :: y2 :: t)) ->
  forall y, P y.
Proof.
  intros H0 H1 H2 H3.
  assert (H : forall n y, (length y <= n)%nat -> P y).
  { induction n as [|n IH]; intros y Hy.
    - destruct y; [exact H0 | simpl in Hy; lia].
    - destruct y as [|y0 [|y1 [|y2 t]]]; auto.
      apply H3. apply IH. simpl in *. lia. }
  intros y. apply (H (length y)). lia.
Qed.

Lemma basic_simpson_sum_step y0 y1 y2 t :
  basic_simpson_sum (y0 :: y1 :: y2 :: t) =
  ((y0 + qc 4 1 * y1 + y2) + basic_simpson_sum (y2 :: t))%Qc.
Proof. reflexivity. Qed.

Lemma basic_simpson_sum_nonneg y : nonneg y -> (0 <= basic_simpson_sum y)%Qc.
Proof.
  induction y as [| a | a b | y0 y1 y2 t IH] using simpson_ind; intros H;
    try (simpl; apply Qcle_refl).
  rewrite basic_simpson_sum_step.
  inversion H as [|? ? P0 H']; subst. inversion H' as [|? ? P1 H'']; subst.
  specialize (IH H''). inversion H'' as [|? ? P2 _]; subst.
  qc_norm. lra.
Qed.

Lemma basic_simpson_sum_zeros y : zeros y -> basic_simpson_sum y = 0%Qc.
Proof.
  induction y as [| a | a b | y0 y1 y2 t IH] using simpson_ind; intros H;
    try reflexivity.
  rewrite basic_simpson_sum_step.
  inversion H as [|? ? P0 H']; subst. inversion H' as [|? ? P1 H'']; subst.
  rewrite (IH H''). inversion H'' as [|? ? P2 _]; subst. apply Qc_is_canon. reflexivity.
Qed.

(** A vanishing sum over non-negative samples: every sample but possibly the
    last is zero, and the last one too when the number of samples is odd. *)
Lemma basic_simpson_sum_vanishes y :
  nonneg y -> basic_simpson_sum y = 0%Qc -> (3 <= length y)%nat ->
  zeros (removelast y) /\ (Nat.odd (length y) = true -> zeros y).
Proof.
  induction y as [| a | a b | y0 y1 y2 t IH] using simpson_ind; intros H HB Hlen;
    try (simpl in Hlen; lia).
  rewrite basic_simpson_sum_step in HB.
  inversion H as [|? ? P0 H']; subst. inversion H' as [|? ? P1 H'']; subst.
  pose proof (basic_simpson_sum_nonneg _ H'') as PB.
  inversion H'' as [|? ? P2 Ht]; subst.
  assert (E0 : y0 = 0%Qc) by (qc_norm; lra).
  assert (E1 : y1 = 0%Qc) by (qc_norm; lra).
  assert (E2 : y2 = 0%Qc) by (qc_norm; lra).
  assert (EB : basic_simpson_sum (y2 :: t) = 0%Qc) by (qc_norm; lra).
  subst y0 y1 y2.
  destruct t as [|a [|b t]].
  - split; [repeat constructor | intros _; repeat constructor].
  - split; [repeat constructor | simpl; discriminate].
  - destruct (IH H'' EB ltac:(simpl; lia)) as [Z1 Z2].
    split.
    + change (removelast (0%Qc :: 0%Qc :: 0%Qc :: a :: b :: t))
        with (0%Qc :: 0%Qc :: removelast (0%Qc :: a :: b :: t)).
      constructor; [reflexivity|]. constructor; [reflexivity|]. exact Z1.
    + intros Hodd. constructor; [reflexivity|]. constructor; [reflexivity|]. apply Z2.
      change (length (0%Qc :: 0%Qc :: 0%Qc :: a :: b :: t))
        with (S (S (length (0%Qc :: a :: b :: t)))) in Hodd.
      rewrite Nat.odd_succ_succ in Hodd. exact Hodd.
Qed.

Lemma rev_cons_inv {A} (y : list A) a r : rev y = a :: r -> y = rev r ++ [a].
Proof.
  intros H. rewrite <- (rev_involutive y), H. reflexivity.
Qed.

(** The parabolic term of the last interval, with SciPy's coefficients. *)
Lemma last_interval_term (dx a b c : Qc) :
  let alpha := ((qc 2 1 * (dx * dx) + qc 3 1 * (dx * dx)) / (qc 6 1 * (dx + dx)))%Qc in
  let beta := ((dx * dx + qc 3 1 * (dx * dx)) / (qc 6 1 * dx))%Qc in
  let eta := ((dx * dx * dx) / (qc 6 1 * dx * (dx + dx)))%Qc in
  (alpha * a + beta * b - eta * c =
   dx * (qc 5 12 * a + qc 2 3 * b - qc 1 12 * c))%Qc.
Proof.
  intros alpha beta eta. subst alpha beta eta.
  destruct (Qc_eq_dec dx 0) as [->|Hdx].
  - apply Qc_is_canon. reflexivity.
  - qc_norm. field. split; lra.
Qed.

Lemma Ok_inj {A} (a b : A) : Ok a = Ok b -> a = b.
Proof. intros H. injection H. auto. Qed.

Lemma simpson_nil dx : simpson [] dx = Raise IndexError.
Proof. reflexivity. Qed.

Lemma simpson_returns y dx : y <> [] -> exists v, simpson y dx = Ok v.
Proof.
  intros Hy. unfold simpson.
  destruct (Nat.even (length y)); [|eexists; reflexivity].
  destruct (rev y) as [|a [|b [|c r]]] eqn:E; try (eexists; reflexivity).
  apply (f_equal (@rev Qc)) in E. rewrite rev_involutive in E. contradiction.
Qed.

Lemma simpson_raise y dx e : simpson y dx = Raise e -> y = [] /\ e = IndexError.
Proof.
  intros H. destruct y as [|v y]; [inversion H; auto|].
  destruct (simpson_returns (v :: y) dx ltac:(discriminate)) as [w Hw]. congruence.
Qed.

(** Over samples that are all zero the quadrature is zero. *)
Lemma simpson_zeros y dx : zeros y -> y <> [] -> simpson y dx = Ok 0%Qc.
Proof.
  intros Hz Hy. unfold simpson. rewrite (basic_simpson_sum_zeros y Hz).
  assert (Hr : zeros (rev y)) by (apply Forall_rev; exact Hz).
  destruct (Nat.even (length y)); [|f_equal; ring].
  destruct (rev y) as [|a [|b [|c r]]] eqn:E.
  - apply (f_equal (@rev Qc)) in E. rewrite rev_involutive in E. contradiction.
  - f_equal. ring.
  - inversion Hr as [|? ? Za Hr1]; subst. inversion Hr1 as [|? ? Zb _]; subst.
    f_equal. ring.
  - inversion Hr as [|? ? Za Hr1]; subst. inversion Hr1 as [|? ? Zb Hr2]; subst.
    inversion Hr2 as [|? ? Zc _]; subst.
    rewrite last_interval_term. f_equal. ring.
Qed.

(** With a zero spacing the quadrature is zero. *)
Lemma simpson_zero_spacing y : y <> [] -> simpson y 0%Qc = Ok 0%Qc.
Proof.
  intros Hy. unfold simpson.
  destruct (Nat.even (length y)); [|f_equal; unfold Qcdiv; ring].
  destruct (rev y) as [|a [|b [|c r]]] eqn:E.
  - apply (f_equal (@rev Qc)) in E. rewrite rev_involutive in E. contradiction.
  - f_equal. unfold Qcdiv; ring.
  - f_equal. ring.
  - rewrite last_interval_term. f_equal. unfold Qcdiv; ring.
Qed.

(** For an even number of samples (four or more) the sum holds four times
    the third sample from the end plus the second one from the end. *)
Lemma basic_simpson_sum_tail y :
  forall a b c r,
    nonneg y -> Nat.even (length y) = true -> rev y = a :: b :: c :: r ->
    (qc 4 1 * c + b <= basic_simpson_sum y)%Qc.
Proof.
  induction y as [| a0 | a0 b0 | y0 y1 y2 t IH] using simpson_ind;
    intros a b c r Hn Hev Hrev; try discriminate Hrev.
  rewrite basic_simpson_sum_step.
  inversion Hn as [|? ? P0 H']; subst. inversion H' as [|? ? P1 H'']; subst.
  pose proof (basic_simpson_sum_nonneg _ H'') as PB.
  change (rev (y0 :: y1 :: y2 :: t)) with ((rev (y2 :: t) ++ [y1]) ++ [y0]) in Hrev.
  rewrite <- app_assoc in Hrev. simpl app at 2 in Hrev.
  change (length (y0 :: y1 :: y2 :: t)) with (S (S (length (y2 :: t)))) in Hev.
  rewrite Nat.even_succ_succ in Hev.
  destruct (rev (y2 :: t)) as [|a' [|b' [|c' r']]] eqn:E.
  - apply (f_equal (@length Qc)) in E. rewrite length_rev in E. discriminate E.
  - apply (f_equal (@length Qc)) in E. rewrite length_rev in E.
    simpl in E. injection E as E. destruct t; [|discriminate E]. discriminate Hev.
  - apply rev_cons_inv in E. simpl in E. destruct t as [|a1 [|a2 t]]; try discriminate E.
    injection E as E1 E2. subst. simpl in Hrev. injection Hrev as -> -> -> _.
    inversion H'' as [|? ? P2 _]; subst.
    change (basic_simpson_sum [b; a]) with 0%Qc. qc_norm. lra.
  - simpl in Hrev. injection Hrev as -> -> -> _.
    specialize (IH a b c r' H'' Hev eq_refl).
    inversion H'' as [|? ? P2 _]; subst. qc_norm. lra.
Qed.

(** The quadrature of non-negative samples, two or more of them, vanishes
    only if the spacing is zero or every sample is. *)
Lemma simpson_vanishes y dx :
  nonneg y -> (2 <= length y)%nat -> simpson y dx = Ok 0%Qc ->
  dx = 0%Qc \/ zeros y.
Proof.
  intros Hn Hlen H.
  destruct (Qc_eq_dec dx 0) as [Hdx|Hdx]; [left; exact Hdx | right].
  pose proof (basic_simpson_sum_nonneg y Hn) as HB.
  assert (H3 : (/ qc 3 1)%Qc <> 0%Qc) by (intros K; discriminate K).
  unfold simpson in H.
  destruct (Nat.even (length y)) eqn:Ev.
  - assert (Hr : nonneg (rev y)) by (apply Forall_rev; exact Hn).
    destruct (rev y) as [|a [|b [|c r]]] eqn:E.
    + discriminate H.
    + apply (f_equal (@length Qc)) in E. rewrite length_rev in E. simpl in E. lia.
    + apply rev_cons_inv in E. simpl in E. subst y.
      inversion Hr as [|? ? Pa Hr1]; subst. inversion Hr1 as [|? ? Pb _]; subst.
      apply Ok_inj in H. rename H into H'.
      assert (a = 0%Qc /\ b = 0%Qc) as [-> ->].
      { apply Qcmult_integral in H'. destruct H' as [K|K].
        - apply Qcmult_integral in K. destruct K as [K|K]; [discriminate K | contradiction].
        - split; qc_norm; lra. }
      repeat constructor.
    + rewrite last_interval_term in H. apply Ok_inj in H. rename H into H'.
      pose proof (basic_simpson_sum_tail y a b c r Hn Ev E) as HT.
      inversion Hr as [|? ? Pa Hr1]; subst. inversion Hr1 as [|? ? Pb Hr2]; subst.
      inversion Hr2 as [|? ? Pc _]; subst.
      assert (Hlen3 : (3 <= length y)%nat).
      { apply (f_equal (@length Qc)) in E. rewrite length_rev in E. simpl in E. lia. }
      assert (K : (dx * (basic_simpson_sum y * / qc 3 1 +
                         (qc 5 12 * a + qc 2 3 * b - qc 1 12 * c)) = 0)%Qc)
        by (rewrite <- H'; unfold Qcdiv; ring).
      apply Qcmult_integral in K. destruct K as [K|K]; [contradiction|].
      assert (Ea : a = 0%Qc) by (qc_norm; cbn in *; lra).
      assert (EB : basic_simpson_sum y = 0%Qc) by (qc_norm; cbn in *; lra).
      destruct (basic_simpson_sum_vanishes y Hn EB Hlen3) as [Z _].
      apply rev_cons_inv in E. rewrite E in Z |- *.
      rewrite removelast_last in Z.
      apply Forall_app. split; [exact Z | constructor; [exact Ea | constructor]].
  - apply Ok_inj in H.
    apply Qcmult_integral in H. destruct H as [EB|K].
    + apply (basic_simpson_sum_vanishes y Hn EB).
      * destruct y as [|v0 [|v1 [|v2 y]]]; simpl in *; try lia; discriminate Ev.
      * rewrite <- Nat.negb_even, Ev. reflexivity.
    + unfold Qcdiv in K. apply Qcmult_integral in K.
      destruct K as [K|K]; contradiction.
Qed.

(** ** Boolean selection *)

Lemma select_in (a : list Qc) :
  forall idx v, In v (map fst (filter snd (combine a idx))) -> In v a.
Proof.
  intros idx v H. apply in_map_iff in H. destruct H as ([w m] & E & H).
  apply filter_In in H. destruct H as [H _]. simpl in E. subst w.
  exact (in_combine_l _ _ _ _ H).
Qed.

Lemma select_nonempty (a : list Qc) :
  forall idx, length idx = length a -> In true idx ->
              map fst (filter snd (combine a idx)) <> [].
Proof.
  induction a as [|v a IH]; intros [|m idx] Hlen Hin; simpl in *; try contradiction; try lia.
  destruct m; simpl; [discriminate|].
  destruct Hin as [Hin|Hin]; [discriminate|].
  apply IH; [lia | exact Hin].
Qed.

Lemma select_empty (a : list Qc) :
  forall idx, ~ In true idx -> map fst (filter snd (combine a idx)) = [].
Proof.
  induction a as [|v a IH]; intros [|m idx] Hin; simpl in *; try reflexivity.
  destruct m; simpl.
  - exfalso. apply Hin. left; reflexivity.
  - apply IH. intros H. apply Hin. right; exact H.
Qed.

Lemma np_select_raise a idx e : np_select a idx = Raise e -> e = IndexError.
Proof.
  unfold np_select. destruct (Nat.eqb (length idx) (length a)); congruence.
Qed.

Lemma np_select_ok a idx :
  length idx = length a ->
  np_select a idx = Ok (map fst (filter snd (combine a idx))).
Proof.
  intros H. unfold np_select. rewrite H, Nat.eqb_refl. reflexivity.
Qed.

Lemma simpson_masked_raise psd idx dx e :
  simpson_masked psd idx dx = Raise e -> e = IndexError.
Proof.
  unfold simpson_masked. destruct (np_select psd idx) as [y|e'] eqn:E.
  - intros H. apply simpson_raise in H. tauto.
  - intros H. inversion H; subst. exact (np_select_raise _ _ _ E).
Qed.

(** A mask that selects no bin hands [simpson] an empty array. *)
Lemma simpson_masked_empty psd idx dx :
  length idx = length psd -> ~ In true idx ->
  simpson_masked psd idx dx = Raise IndexError.
Proof.
  intros Hlen Hin. unfold simpson_masked.
  rewrite (np_select_ok _ _ Hlen), (select_empty _ _ Hin). reflexivity.
Qed.

Lemma simpson_masked_returns psd idx dx :
  length idx = length psd -> In true idx ->
  exists bp, simpson_masked psd idx dx = Ok bp.
Proof.
  intros Hlen Hin. unfold simpson_masked. rewrite (np_select_ok _ _ Hlen).
  apply simpson_returns. apply select_nonempty; assumption.
Qed.

(** On a non-negative curve of zero total power, a band that selects a bin
    has zero power. *)
Lemma simpson_masked_zero psd idx dx :
  nonneg psd -> (2 <= length psd)%nat -> simpson psd dx = Ok 0%Qc ->
  length idx = length psd -> In true idx ->
  simpson_masked psd idx dx = Ok 0%Qc.
Proof.
  intros Hn Hlen Htot Hidx Hin. unfold simpson_masked.
  rewrite (np_select_ok _ _ Hidx).
  pose proof (select_nonempty psd idx Hidx Hin) as Hne.
  destruct (simpson_vanishes psd dx Hn Hlen Htot) as [->|Hz].
  - apply simpson_zero_spacing. exact Hne.
  - apply simpson_zeros; [|exact Hne].
    apply Forall_forall. intros v Hv.
    apply select_in in Hv. unfold zeros in Hz. rewrite Forall_forall in Hz. auto.
Qed.

Lemma np_true_divide_zero_zero : np_true_divide 0%Qc 0%Qc = NaN.
Proof. reflexivity. Qed.

Lemma freq_res_of_ok freqs dx : freq_res_of freqs = Ok dx -> (2 <= length freqs)%nat.
Proof. destruct freqs as [|f0 [|f1 r]]; simpl; intros H; try discriminate; lia. Qed.

Lemma freq_res_of_short freqs : (length freqs < 2)%nat -> freq_res_of freqs = Raise IndexError.
Proof. destruct freqs as [|f0 [|f1 r]]; simpl; intros H; try reflexivity; lia. Qed.

Lemma freq_res_of_raise freqs e : freq_res_of freqs = Raise e -> e = IndexError.
Proof. destruct freqs as [|f0 [|f1 r]]; simpl; congruence. Qed.

Lemma band_idx_spec_mask c band : band_idx (freqs c) band = Spec.mask c band.
Proof.
  unfold Spec.mask. induction (freqs c) as [|f l IH]; [reflexivity|].
  rewrite band_idx_cons, IH. reflexivity.
Qed.

(** ** The power records *)

Lemma dict_item_ok {V} (d : dict V) k v : dict_item d k = Ok v <-> dict_get d k = Some v.
Proof.
  unfold dict_item. destruct (dict_get d k); split; intros H; congruence.
Qed.

(** A loop returns when each iteration does, from any state that keeps the
    invariant. *)
Lemma for_each_returns {A S} (I : S -> Prop) (body : A -> S -> M S) (xs : list A) :
  (forall x s1, In x xs -> I s1 -> exists s2, result (body x s1) = Ok s2 /\ I s2) ->
  forall s, I s -> exists s', result (for_each xs body s) = Ok s' /\ I s'.
Proof.
  induction xs as [|x xs IH]; intros Hstep s Hs; simpl.
  - exists s. split; [reflexivity | exact Hs].
  - rewrite result_bind.
    destruct (Hstep x s (or_introl eq_refl) Hs) as (s1 & E & Hs1). rewrite E.
    apply IH; [|exact Hs1]. intros y s2 Hy. apply Hstep. right; exact Hy.
Qed.

(** A loop that returned ran every iteration to its end. *)
Lemma for_each_ok_all {A S} (body : A -> S -> M S) (xs : list A) :
  forall s s', result (for_each xs body s) = Ok s' ->
  forall x, In x xs -> exists s1 s2, result (body x s1) = Ok s2.
Proof.
  induction xs as [|y xs IH]; intros s s' H x Hx; [contradiction|].
  simpl in H. rewrite result_bind in H.
  destruct (result (body y s)) as [s1|e] eqn:E; [|discriminate].
  destruct Hx as [->|Hx]; [exists s, s1; exact E | exact (IH _ _ H x Hx)].
Qed.

Lemma power_of_returned psd_dict power :
  result (computing_absolute_and_relative_power psd_dict) = Ok power ->
  forall channel c, dict_get psd_dict channel = Some c ->
  exists r, dict_get power channel = Some r /\ record_of_curve c r.
Proof.
  intros H channel c Hc.
  assert (Hin : In channel (dict_keys psd_dict)) by exact (dict_get_some_in_keys _ _ _ Hc).
  revert channel c Hc Hin. unfold computing_absolute_and_relative_power in H.
  refine (for_each_invariant
            (fun done (power : dict PowerRecord) =>
               forall channel c, dict_get psd_dict channel = Some c -> In channel done ->
               exists r, dict_get power channel = Some r /\ record_of_curve c r)
            _ _ _ _ _ _ H).
  - intros channel c _ [].
  - intros done x rest s1 s2 _ HI Hbody channel c Hc Hin.
    do 8 crack Hbody. apply Ok_inj in Hbody. subst s2.
    rewrite result_lift in *.
    destruct (Nat.eq_dec x channel) as [->|Hne].
    + rewrite dict_get_set_eq. eexists. split; [reflexivity|].
      apply dict_item_ok in Ha. rewrite Hc in Ha. injection Ha as <-.
      exists a0, a6. split; [exact Ha0|]. split; [exact Ha6|].
      intros [| | | |]; cbn [idx_of power_of rel_power_of idx_delta idx_theta idx_alpha
        idx_beta idx_gamma delta_power theta_power alpha_power beta_power gamma_power
        delta_rel_power theta_rel_power alpha_rel_power beta_rel_power gamma_rel_power];
        (split; [reflexivity|]; split; [assumption | reflexivity]).
    + rewrite dict_get_set_ne by exact Hne. apply HI; [exact Hc|].
      apply in_app_or in Hin. destruct Hin as [Hin|[Hin|[]]]; [exact Hin | congruence].
Qed.




Lemma result_bind_raise {A B} (m : M A) (f : A -> M B) (e : exn) :
  result (bind m f) = Raise e ->
  result m = Raise e \/ exists a, result m = Ok a /\ result (f a) = Raise e.
Proof.
  rewrite result_bind. destruct (result m) as [a|e']; intros H.
  - right. exists a. split; [reflexivity | exact H].
  - left. injection H as ->. reflexivity.
Qed.

Ltac crack_raise H :=
  let a := fresh "a" in
  let Ha := fresh "Ha" in
  apply result_bind_raise in H; destruct H as [H|(a & Ha & H)].

Lemma freq_res_of_returns freqs :
  (2 <= length freqs)%nat -> exists dx, freq_res_of freqs = Ok dx.
Proof.
  destruct freqs as [|f0 [|f1 r]]; simpl; intros H; try lia. eexists; reflexivity.
Qed.

Lemma for_each_returns_plain {A S} (body : A -> S -> M S) (xs : list A) :
  (forall x s1, In x xs -> exists s2, result (body x s1) = Ok s2) ->
  forall s, exists s', result (for_each xs body s) = Ok s'.
Proof.
  intros Hstep s.
  destruct (for_each_returns (fun _ : S => True) body xs) with (s := s)
    as (s' & E & _); [| exact I | exists s'; exact E].
  intros x s1 Hx _. destruct (Hstep x s1 Hx) as (s2 & E). exists s2. split; [exact E | exact I].
Qed.

(** The power computation returns on analysable curves. *)
Lemma power_returns psd_dict :
  (forall channel c, dict_get psd_dict channel = Some c -> analysable c) ->
  exists power, result (computing_absolute_and_relative_power psd_dict) = Ok power.
Proof.
  intros Hgood. unfold computing_absolute_and_relative_power.
  apply for_each_returns_plain. intros x s1 Hx.
  destruct (dict_get_in_keys psd_dict x Hx) as (c & Hc).
  destruct (Hgood x c Hc) as (Hlen & H2 & Hsel).
  destruct (freq_res_of_returns _ H2) as (dx & Hdx).
  assert (Hm : forall b, exists bp,
             simpson_masked (psd c) (band_idx (freqs c) (bands b)) dx = Ok bp).
  { intros b. apply simpson_masked_returns; [rewrite band_idx_length; congruence | apply Hsel]. }
  destruct (Hm delta) as (p1 & E1). destruct (Hm theta) as (p2 & E2).
  destruct (Hm alpha) as (p3 & E3). destruct (Hm beta) as (p4 & E4).
  destruct (Hm gamma) as (p5 & E5).
  destruct (simpson_returns (psd c) dx) as (tot & Et).
  { intros K. rewrite K in Hlen. simpl in Hlen. lia. }
  apply dict_item_ok in Hc.
  eexists.
  rewrite result_bind, result_lift, Hc. cbv zeta.
  rewrite result_bind, result_lift, Hdx.
  rewrite result_bind, result_lift, E1.
  rewrite result_bind, result_lift, E2.
  rewrite result_bind, result_lift, E3.
  rewrite result_bind, result_lift, E4.
  rewrite result_bind, result_lift, E5.
  rewrite result_bind, result_lift, Et.
  reflexivity.
Qed.

(** On analysable curves the per-chunk power computation returns, and every
    channel of the PSD mapping has a power record that holds, for each of
    the five bands, the closed-interval mask on the channel's frequency
    axis, the Simpson integral of the masked densities with the spacing of
    the first two bins, and that integral divided by the Simpson integral of
    the whole curve. *)
Theorem power_records_hold_band_powers :
  forall psd_dict,
    (forall channel c, dict_get psd_dict channel = Some c -> analysable c) ->
    exists power,
      result (computing_absolute_and_relative_power psd_dict) = Ok power /\
      forall channel c, dict_get psd_dict channel = Some c ->
      exists r, dict_get power channel = Some r /\ record_of_curve c r.
Proof.
  intros psd_dict Hgood.
  destruct (power_returns psd_dict Hgood) as (power & E).
  exists power. split; [exact E|].
  intros channel c Hc. exact (power_of_returned psd_dict power E channel c Hc).
Qed.

Lemma power_raises_index_error psd_dict e :
  result (computing_absolute_and_relative_power psd_dict) = Raise e -> e = IndexError.
Proof.
  unfold computing_absolute_and_relative_power. intros H.
  apply for_each_raise in H. destruct H as (x & s & Hx & H).
  crack_raise H.
  { rewrite result_lift in H. destruct (dict_get_in_keys psd_dict x Hx) as (c & Hc).
    apply dict_item_ok in Hc. congruence. }
  crack_raise H; [rewrite result_lift in H; exact (freq_res_of_raise _ _ H)|].
  do 5 (crack_raise H; [rewrite result_lift in H; exact (simpson_masked_raise _ _ _ _ H)|]).
  crack_raise H; [rewrite result_lift in H; apply simpson_raise in H; tauto|].
  discriminate H.
Qed.

Lemma power_short_curve psd_dict channel c :
  dict_get psd_dict channel = Some c -> (length (freqs c) < 2)%nat ->
  result (computing_absolute_and_relative_power psd_dict) = Raise IndexError.
Proof.
  intros Hc Hshort.
  destruct (result (computing_absolute_and_relative_power psd_dict)) as [power|e] eqn:E.
  - exfalso. unfold computing_absolute_and_relative_power in E.
    destruct (for_each_ok_all _ _ _ _ E channel (dict_get_some_in_keys _ _ _ Hc))
      as (s1 & s2 & Hbody).
    crack Hbody. crack Hbody. rewrite result_lift in *.
    apply dict_item_ok in Ha. rewrite Hc in Ha. injection Ha as <-.
    rewrite (freq_res_of_short _ Hshort) in Ha0. discriminate Ha0.
  - f_equal. exact (power_raises_index_error _ _ E).
Qed.

(** ** The two band-power methods *)

Lemma welch_bandpower_result density self signal band channel relative :
  result (computing_welch_bandpower density self signal band channel relative) =
  match welch_segment self signal band with
  | Raise e => Raise e
  | Ok nperseg =>
      match signal_getitem signal channel with
      | Raise e => Raise e
      | Ok x =>
          match welch density x (rate signal) nperseg None with
          | Raise e => Raise e
          | Ok c => integrate_band (fst c) (snd c) band relative
          end
      end
  end.
Proof.
  unfold computing_welch_bandpower, welch_segment, integrate_band.
  rewrite result_bind, result_lift.
  destruct (match window_length_for_welch self with
            | Some w => Ok (w * rate signal)%Qc
            | None => match py_div (qc 2 1) (fst band) with
                      | Ok q => Ok (q * rate signal)%Qc
                      | Raise e => Raise e
                      end
            end) as [nperseg|e]; [|reflexivity].
  rewrite result_bind, result_lift.
  destruct (signal_getitem signal channel) as [x|e]; [|reflexivity].
  rewrite result_bind. unfold sig_welch at 1. rewrite result_bind. cbn [emit result snd].
  rewrite result_lift.
  destruct (welch density x (rate signal) nperseg None) as [c|e]; [|reflexivity].
  rewrite result_bind, result_lift.
  destruct (freq_res_of (fst c)) as [dx|e]; [|reflexivity].
  rewrite result_bind, result_lift. destruct band as [low high]. cbn [fst snd].
  destruct (simpson_masked (snd c) (band_idx (fst c) (low, high)) dx) as [bp|e]; [|reflexivity].
  destruct relative; [|reflexivity].
  rewrite result_bind, result_lift.
  destruct (simpson (snd c) dx); reflexivity.
Qed.

Lemma welch_bandpower_trace density self signal band channel relative :
  trace (computing_welch_bandpower density self signal band channel relative) =
  match welch_segment self signal band, signal_getitem signal channel with
  | Ok nperseg, Ok x => [WelchCall x (rate signal) nperseg None]
  | _, _ => []
  end.
Proof.
  unfold computing_welch_bandpower, welch_segment.
  rewrite trace_bind, trace_lift, result_lift.
  destruct (match window_length_for_welch self with
            | Some w => Ok (w * rate signal)%Qc
            | None => match py_div (qc 2 1) (fst band) with
                      | Ok q => Ok (q * rate signal)%Qc
                      | Raise e => Raise e
                      end
            end) as [nperseg|e]; [|reflexivity].
  rewrite trace_bind, trace_lift, result_lift.
  destruct (signal_getitem signal channel) as [x|e]; [|reflexivity].
  rewrite trace_bind. unfold sig_welch at 1 2.
  rewrite trace_bind, result_bind. cbn [emit result trace fst snd app].
  rewrite trace_lift, result_lift.
  destruct (welch density x (rate signal) nperseg None) as [c|e]; [|reflexivity].
  rewrite trace_bind, trace_lift, result_lift.
  destruct (freq_res_of (fst c)) as [dx|e]; [|reflexivity].
  rewrite trace_bind, trace_lift, result_lift. cbn [app].
  destruct (simpson_masked (snd c) (band_idx (fst c) (fst band, snd band)) dx) as [bp|e];
    [|reflexivity].
  destruct relative; [|reflexivity].
  rewrite trace_bind, trace_lift, result_lift.
  destruct (simpson (snd c) dx); reflexivity.
Qed.

Lemma multitaper_bandpower_result mt signal band channel relative :
  result (computing_multitaper_bandpower mt signal band channel relative) =
  match signal_getitem signal channel with
  | Raise e => Raise e
  | Ok x =>
      match mt x (rate signal) with
      | Raise e => Raise e
      | Ok c => integrate_band (snd c) (fst c) band relative
      end
  end.
Proof.
  unfold computing_multitaper_bandpower, integrate_band.
  rewrite result_bind, result_lift.
  destruct (signal_getitem signal channel) as [x|e]; [|reflexivity].
  rewrite result_bind. unfold call_multitaper_psd at 1. rewrite result_bind.
  cbn [emit result snd]. rewrite result_lift.
  destruct (mt x (rate signal)) as [c|e]; [|reflexivity].
  rewrite result_bind, result_lift.
  destruct (freq_res_of (snd c)) as [dx|e]; [|reflexivity].
  rewrite result_bind, result_lift. destruct band as [low high]. cbn [fst snd].
  destruct (simpson_masked (fst c) (band_idx (snd c) (low, high)) dx) as [bp|e]; [|reflexivity].
  destruct relative; [|reflexivity].
  rewrite result_bind, result_lift.
  destruct (simpson (fst c) dx); reflexivity.
Qed.

Lemma multitaper_bandpower_trace mt signal band channel relative :
  trace (computing_multitaper_bandpower mt signal band channel relative) =
  match signal_getitem signal channel with
  | Ok x => [MultitaperCall x (rate signal)]
  | Raise _ => []
  end.
Proof.
  unfold computing_multitaper_bandpower.
  rewrite trace_bind, trace_lift, result_lift.
  destruct (signal_getitem signal channel) as [x|e]; [|reflexivity].
  rewrite trace_bind. unfold call_multitaper_psd at 1 2.
  rewrite trace_bind, result_bind. cbn [emit result trace fst snd app].
  rewrite trace_lift, result_lift.
  destruct (mt x (rate signal)) as [c|e]; [|reflexivity].
  rewrite trace_bind, trace_lift, result_lift.
  destruct (freq_res_of (snd c)) as [dx|e]; [|reflexivity].
  rewrite trace_bind, trace_lift, result_lift. cbn [app].
  destruct (simpson_masked (fst c) (band_idx (snd c) (fst band, snd band)) dx) as [bp|e];
    [|reflexivity].
  destruct relative; [|reflexivity].
  rewrite trace_bind, trace_lift, result_lift.
  destruct (simpson (fst c) dx); reflexivity.
Qed.

(** ** Degenerate curves and bands *)

Lemma integrate_band_short freqs psd band relative :
  (length freqs < 2)%nat -> integrate_band freqs psd band relative = Raise IndexError.
Proof.
  intros H. unfold integrate_band. rewrite (freq_res_of_short _ H). reflexivity.
Qed.

Lemma integrate_band_raise freqs psd band relative e :
  integrate_band freqs psd band relative = Raise e -> e = IndexError.
Proof.
  unfold integrate_band.
  destruct (freq_res_of freqs) as [dx|e1] eqn:E1;
    [|intros H; injection H as <-; exact (freq_res_of_raise _ _ E1)].
  destruct (simpson_masked psd (band_idx freqs band) dx) as [bp|e2] eqn:E2;
    [|intros H; injection H as <-; exact (simpson_masked_raise _ _ _ _ E2)].
  destruct relative; [|discriminate].
  destruct (simpson psd dx) as [tot|e3] eqn:E3; [discriminate|].
  intros H; injection H as <-. apply simpson_raise in E3. tauto.
Qed.

Lemma integrate_band_empty freqs psd band relative :
  length psd = length freqs -> (2 <= length freqs)%nat -> ~ selects freqs band ->
  integrate_band freqs psd band relative = Raise IndexError.
Proof.
  intros Hlen H2 Hsel. unfold integrate_band.
  destruct (freq_res_of_returns _ H2) as (dx & ->).
  rewrite simpson_masked_empty; [reflexivity | rewrite band_idx_length; congruence | exact Hsel].
Qed.

Lemma integrate_band_zero_total freqs psd band dx :
  length psd = length freqs -> nonneg psd ->
  freq_res_of freqs = Ok dx -> simpson psd dx = Ok 0%Qc -> selects freqs band ->
  integrate_band freqs psd band true = Ok NaN.
Proof.
  intros Hlen Hn Hdx Htot Hsel. unfold integrate_band. rewrite Hdx.
  rewrite (simpson_masked_zero psd (band_idx freqs band) dx); try assumption.
  - rewrite Htot. reflexivity.
  - rewrite Hlen. exact (freq_res_of_ok _ _ Hdx).
  - rewrite band_idx_length. congruence.
Qed.

Lemma welch_lengths density x fs nperseg nfft c :
  welch density x fs nperseg nfft = Ok c -> length (snd c) = length (fst c).
Proof.
  unfold welch. destruct x as [|v x]; [intros H; injection H as <-; reflexivity|].
  destruct (py_int nperseg <? 1)%Z; [discriminate|].
  destruct (match nfft with
            | Some f =>
                if Qcltb f (of_Z (Z.min (py_int nperseg) (Z.of_nat (length (v :: x)))))
                then Raise ValueError else Ok (py_int f)
            | None => Ok (Z.min (py_int nperseg) (Z.of_nat (length (v :: x))))
            end) as [m|e]; [|discriminate].
  intros H; injection H as <-. cbn [fst snd]. unfold rfftfreq.
  rewrite !length_map. reflexivity.
Qed.

(** C4 (as amended).  A curve with fewer than two frequency bins makes the
    integration fail with Python's [IndexError], raised by [freqs[1]], in
    the per-chunk power computation and in the per-band Welch computation
    alike (the source has no [InsufficientResolutionError]); with two bins
    or more the spacing is the difference of the first two bins. *)
Theorem short_curve_raises_index_error :
  (forall psd_dict channel c,
      dict_get psd_dict channel = Some c -> (length (freqs c) < 2)%nat ->
      result (computing_absolute_and_relative_power psd_dict) = Raise IndexError) /\
  (forall density self signal band channel relative nperseg x c,
      welch_segment self signal band = Ok nperseg ->
      signal_getitem signal channel = Ok x ->
      welch density x (rate signal) nperseg None = Ok c ->
      (length (fst c) < 2)%nat ->
      result (computing_welch_bandpower density self signal band channel relative)
      = Raise IndexError) /\
  (forall f0 f1 rest, freq_res_of (f0 :: f1 :: rest) = Ok (f1 - f0)%Qc).
Proof.
  split; [|split].
  - exact power_short_curve.
  - intros density self signal band channel relative nperseg x c Hn Hx Hc Hshort.
    rewrite welch_bandpower_result, Hn, Hx, Hc.
    apply integrate_band_short. exact Hshort.
  - reflexivity.
Qed.

(** On a non-negative curve whose total power is exactly zero, the relative
    power of every band that selects at least one bin is NumPy's [nan] (the
    quotient [0/0]) and no exception is raised: for the five bands of the
    per-chunk power record when each of them selects a bin, and for the
    per-band Welch computation. *)
Theorem zero_total_power_is_nan :
  (forall psd_dict,
      (forall channel c, dict_get psd_dict channel = Some c -> analysable c) ->
      exists power,
        result (computing_absolute_and_relative_power psd_dict) = Ok power /\
        forall channel c,
          dict_get psd_dict channel = Some c ->
          nonneg (psd c) -> total_power c = Ok 0%Qc ->
          exists r, dict_get power channel = Some r /\
                    forall b, rel_power_of r b = NaN) /\
  (forall density self signal band channel nperseg x c,
      welch_segment self signal band = Ok nperseg ->
      signal_getitem signal channel = Ok x ->
      welch density x (rate signal) nperseg None = Ok c ->
      nonneg (snd c) ->
      total_power {| freqs := fst c; psd := snd c |} = Ok 0%Qc ->
      selects (fst c) band ->
      result (computing_welch_bandpower density self signal band channel true) = Ok NaN).
Proof.
  split.
  - intros psd_dict Hgood.
    destruct (power_returns psd_dict Hgood) as (power & E).
    exists power. split; [exact E|].
    intros channel c Hc Hn Htot.
    destruct (power_of_returned psd_dict power E channel c Hc) as (r & Hr & dx & total & Hdx & Ht & Hb).
    exists r. split; [exact Hr|]. intros b.
    destruct (Hgood channel c Hc) as (Hlen & H2 & Hsel).
    unfold total_power in Htot. rewrite Hdx in Htot.
    assert (total = 0%Qc) by congruence. subst total.
    destruct (Hb b) as (Hi & Hp & Hrel).
    rewrite Hi in Hp.
    rewrite (simpson_masked_zero (psd c) (band_idx (freqs c) (bands b)) dx) in Hp.
    + apply Ok_inj in Hp. rewrite Hrel, <- Hp. reflexivity.
    + exact Hn.
    + rewrite Hlen. exact H2.
    + exact Ht.
    + rewrite band_idx_length. congruence.
    + apply Hsel.
  - intros density self signal band channel nperseg x c Hseg Hx Hc Hn Htot Hsel.
    rewrite welch_bandpower_result, Hseg, Hx, Hc.
    unfold total_power in Htot. cbn [freqs psd] in Htot.
    destruct (freq_res_of (fst c)) as [dx|e] eqn:Hdx; [|discriminate Htot].
    apply (integrate_band_zero_total (fst c) (snd c) band dx); try assumption.
    exact (welch_lengths _ _ _ _ _ _ Hc).
Qed.

(** ** Concrete runs: degenerate curves and bands *)

Lemma in_true_existsb (l : list bool) : existsb (fun m => m) l = true -> In true l.
Proof.
  intros H. apply existsb_exists in H. destruct H as (m & Hm & ->). exact Hm.
Qed.

Lemma not_in_true (l : list bool) : existsb (fun m => m) l = false -> ~ In true l.
Proof.
  intros H Hin. assert (K : existsb (fun m => m) l = true)
    by (apply existsb_exists; exists true; split; [exact Hin | reflexivity]).
  congruence.
Qed.

(** Closed equations between canonical rationals. *)
Ltac qc_closed := apply Qc_is_canon; vm_compute; reflexivity.

(** With one sample per segment ([window * rate = 1]) the Welch curve of
    channel 0 of the example chunk has a single bin, and the per-band
    computation fails with [IndexError]. *)
Lemma short_curve_witness :
  result (computing_welch_bandpower Example.density
            (Example.operator [] (Some (qc 1 64))) Example.chunk
            (qc 8 1, qc 32 1) 0 false) = Raise IndexError.
Proof.
  eapply (proj1 (proj2 short_curve_raises_index_error) Example.density
            (Example.operator [] (Some (qc 1 64))) Example.chunk (qc 8 1, qc 32 1)
            0%nat false).
  - reflexivity.
  - reflexivity.
  - vm_compute. reflexivity.
  - vm_compute. lia.
Defined.

(** C4, counterexample: on a curve with a single frequency bin the power
    computation fails with [IndexError], not with
    [InsufficientResolutionError]. *)
Lemma short_curve_counterexample :
  result (computing_absolute_and_relative_power [(0%nat, Example.one_bin_curve)])
  = Raise IndexError.
Proof. vm_compute. reflexivity. Qed.

Lemma silent_curve_analysable : analysable Example.silent_curve.
Proof.
  split; [|split].
  - unfold Example.silent_curve; cbn [psd freqs]. apply length_map.
  - vm_compute. lia.
  - intros b. apply in_true_existsb. destruct b; vm_compute; reflexivity.
Qed.

Lemma silent_curve_nonneg : nonneg (psd Example.silent_curve).
Proof.
  apply Forall_forall. intros v Hv. apply in_map_iff in Hv.
  destruct Hv as (f & <- & _). apply Qcle_refl.
Qed.

Lemma silent_curve_total : total_power Example.silent_curve = Ok 0%Qc.
Proof. vm_compute. f_equal. qc_closed. Qed.

(** The silent curve at 64 Hz, and the silent channel of the example chunk. *)
Lemma zero_total_power_witness :
  (exists power r,
      result (computing_absolute_and_relative_power [(0%nat, Example.silent_curve)])
      = Ok power /\
      dict_get power 0 = Some r /\ rel_power_of r alpha = NaN) /\
  result (computing_welch_bandpower Example.density
            (Example.operator [] (Some (qc 1 1))) Example.chunk
            (qc 8 1, qc 32 1) 1 true) = Ok NaN.
Proof.
  split.
  - destruct (proj1 zero_total_power_is_nan [(0%nat, Example.silent_curve)])
      as (power & E & K).
    + intros channel c Hc. destruct channel; [|discriminate Hc].
      injection Hc as <-. exact silent_curve_analysable.
    + destruct (K 0%nat Example.silent_curve eq_refl silent_curve_nonneg silent_curve_total)
        as (r & Hr & Hnan).
      exists power, r. split; [exact E|]. split; [exact Hr | exact (Hnan alpha)].
  - eapply (proj2 zero_total_power_is_nan Example.density
              (Example.operator [] (Some (qc 1 1))) Example.chunk (qc 8 1, qc 32 1) 1%nat).
    + reflexivity.
    + reflexivity.
    + vm_compute. reflexivity.
    + cbn [snd]. apply Forall_forall. intros v Hv.
      repeat (destruct Hv as [<-|Hv]; [vm_compute; discriminate|]). destruct Hv.
    + vm_compute. f_equal. qc_closed.
    + apply in_true_existsb. vm_compute. reflexivity.
Defined.

(** C5, at the failing input: the curve of a silent channel sampled at
    50 Hz is non-negative and has a total power of exactly zero, yet the
    power computation on it ends in [IndexError] (the gamma band selects no
    bin) instead of returning a sentinel for every band. *)
Theorem zero_total_power_above_nyquist_raises :
  total_power Example.silent_slow_curve = Ok 0%Qc /\
  nonneg (psd Example.silent_slow_curve) /\
  result (computing_absolute_and_relative_power [(0%nat, Example.silent_slow_curve)])
  = Raise IndexError.
Proof.
  split; [vm_compute; f_equal; qc_closed|]. split; [|vm_compute; reflexivity].
  apply Forall_forall. intros v Hv. apply in_map_iff in Hv.
  destruct Hv as (f & <- & _). apply Qcle_refl.
Qed.

(** C6, at the failing input: on a chunk sampled at 50 Hz the curve ends at
    25 Hz, the gamma band (30 to 100 Hz) selects no bin, and, whatever the
    estimators compute, the whole invocation ends in [IndexError] where the
    design asks for a power of [0.0]. *)
Theorem band_above_nyquist_raises_index_error :
  forall density mt,
    result (__call__ density mt (Example.operator [] (Some (qc 1 1))) [Example.slow_chunk])
    = Raise IndexError /\
    ~ selects (rfftfreq 200 (qc 50 1)) (bands gamma).
Proof.
  intros density mt. split; [vm_compute; reflexivity|].
  apply not_in_true. vm_compute. reflexivity.
Qed.

(** ** What the estimator is called with *)

Lemma trace_bind_in {A B} (m : M A) (f : A -> M B) ev :
  In ev (trace (bind m f)) ->
  In ev (trace m) \/ exists a, result m = Ok a /\ In ev (trace (f a)).
Proof.
  rewrite trace_bind. intros H. apply in_app_or in H. destruct H as [H|H]; [left; exact H|].
  destruct (result m) as [a|e]; [|contradiction].
  right. exists a. split; [reflexivity | exact H].
Qed.

Ltac crack_trace H :=
  let a := fresh "a" in
  let Ha := fresh "Ha" in
  apply trace_bind_in in H; destruct H as [H|(a & Ha & H)].

Lemma Qceqb_eq (x y : Qc) : Qceqb x y = true <-> x = y.
Proof.
  unfold Qceqb. split.
  - apply Qc_eq_bool_correct.
  - intros ->. unfold Qc_eq_bool. destruct (Qc_eq_dec y y); congruence.
Qed.

Lemma py_div_ok (a b : Qc) : b <> 0%Qc -> py_div a b = Ok (a / b)%Qc.
Proof.
  intros H. unfold py_div. destruct (Qceqb b 0) eqn:E; [|reflexivity].
  apply Qceqb_eq in E. contradiction.
Qed.

Lemma py_div_zero (a : Qc) : py_div a 0%Qc = Raise ZeroDivisionError.
Proof. reflexivity. Qed.

(** C10 (as amended).  With [window_length_for_welch = None] and a band whose
    low edge is not zero, the per-band Welch computation does not stop at
    the missing window: it calls [sig.welch] once, on the channel's samples,
    with the segment length [(2 / low) * rate], and integrates the curve it
    gets.  That segment length determines the low edge (for a non-zero
    rate), so bands with different low edges are estimated with different
    segments, whereas a configured window gives every band the segment
    [window * rate].  A band whose low edge is zero makes the fallback fail
    with [ZeroDivisionError] before anything is estimated. *)
Theorem welch_segment_fallback :
  forall density self signal band channel relative,
    window_length_for_welch self = None ->
    (fst band <> 0%Qc ->
     forall x, signal_getitem signal channel = Ok x ->
       trace (computing_welch_bandpower density self signal band channel relative)
       = [WelchCall x (rate signal) (qc 2 1 / fst band * rate signal)%Qc None] /\
       result (computing_welch_bandpower density self signal band channel relative)
       = match welch density x (rate signal) (qc 2 1 / fst band * rate signal)%Qc None with
         | Ok c => integrate_band (fst c) (snd c) band relative
         | Raise e => Raise e
         end /\
       (forall band',
           fst band' <> 0%Qc -> rate signal <> 0%Qc ->
           welch_segment self signal band' = welch_segment self signal band ->
           fst band' = fst band)) /\
    (fst band = 0%Qc ->
     computing_welch_bandpower density self signal band channel relative
     = ([], Raise ZeroDivisionError)) /\
    (forall w band' band'',
        welch_segment
          {| exclude_channel_list := exclude_channel_list self;
             band_list := band_list self;
             window_length_for_welch := Some w |} signal band'
        = welch_segment
          {| exclude_channel_list := exclude_channel_list self;
             band_list := band_list self;
             window_length_for_welch := Some w |} signal band'').
Proof.
  intros density self signal band channel relative Hw.
  split; [|split].
  - intros Hlow x Hx.
    assert (Hseg : welch_segment self signal band
                   = Ok (qc 2 1 / fst band * rate signal)%Qc).
    { unfold welch_segment. rewrite Hw, (py_div_ok _ _ Hlow). reflexivity. }
    split; [|split].
    + rewrite welch_bandpower_trace, Hseg, Hx. reflexivity.
    + rewrite welch_bandpower_result, Hseg, Hx. reflexivity.
    + intros band' Hlow' Hrate E. rewrite Hseg in E.
      unfold welch_segment in E. rewrite Hw, (py_div_ok _ _ Hlow') in E.
      apply Ok_inj in E.
      assert (K : (qc 2 1 / fst band' = qc 2 1 / fst band)%Qc).
      { apply (f_equal (fun q => (q / rate signal)%Qc)) in E.
        rewrite !Qcdiv_mult_l in E by exact Hrate. exact E. }
      assert (H2 : qc 2 1 <> 0%Qc) by discriminate.
      assert (Inv : forall a : Qc, a <> 0%Qc -> a = (qc 2 1 / (qc 2 1 / a))%Qc).
      { intros a Ha. generalize dependent (qc 2 1). intros two _ _ _ H2'.
        field. split; assumption. }
      rewrite (Inv (fst band') Hlow'), K. symmetry. apply Inv. exact Hlow.
  - intros Hlow.
    assert (Hseg : welch_segment self signal band = Raise ZeroDivisionError).
    { unfold welch_segment. rewrite Hw, Hlow. reflexivity. }
    pose proof (welch_bandpower_trace density self signal band channel relative) as Ht.
    pose proof (welch_bandpower_result density self signal band channel relative) as Hr.
    rewrite Hseg in Ht, Hr.
    destruct (computing_welch_bandpower density self signal band channel relative)
      as [t r]. cbn [trace result fst snd] in Ht, Hr. subst. reflexivity.
  - intros w band' band''. reflexivity.
Qed.

Lemma in_analysed_channels self signal channel :
  In channel (seq 0 (number_of_channels signal)) ->
  py_in channel (exclude_channel_list self) = false ->
  In channel (analysed_channels self signal).
Proof.
  intros Hin Hex. unfold analysed_channels. apply filter_In.
  split; [exact Hin | rewrite Hex; reflexivity].
Qed.

(** Every interaction of the per-chunk PSD computation is a call of
    [sig.welch] on the mean-centred samples of an analysed channel, with
    segment length [window * rate] and FFT length four times that. *)
Lemma welch_periodogram_events density self signal ev :
  In ev (trace (computing_welch_periodogram density self signal)) ->
  exists channel col w,
    In channel (analysed_channels self signal) /\
    column signal channel = Ok col /\
    window_length_for_welch self = Some w /\
    ev = WelchCall (np_sub_scalar col (np_mean col)) (rate signal)
                   (w * rate signal)%Qc (Some (qc 4 1 * (w * rate signal))%Qc).
Proof.
  unfold computing_welch_periodogram. intros H.
  crack_trace H; [contradiction|].
  rewrite result_lift in Ha.
  destruct (window_length_for_welch self) as [w|] eqn:Hw; [|discriminate Ha].
  apply Ok_inj in Ha. subst a.
  apply for_each_trace_in in H. destruct H as (channel & psd_dict & Hin & H).
  destruct (py_in channel (exclude_channel_list self)) eqn:Hex; [contradiction|].
  crack_trace H; [contradiction|].
  rewrite result_lift in Ha.
  crack_trace H.
  - unfold sig_welch in H. crack_trace H; [|contradiction].
    destruct H as [<-|[]].
    exists channel, a, w. split; [exact (in_analysed_channels _ _ _ Hin Hex)|].
    split; [exact Ha|]. split; reflexivity.
  - contradiction.
Qed.

(** C2 (as amended).  In the per-chunk PSD computation the samples handed to
    [sig.welch] are the channel buffer minus the arithmetic mean of the
    whole buffer; in the per-band Welch power computation they are the
    channel buffer as it is. *)
Theorem welch_inputs :
  forall density self signal,
    (forall x fs nperseg nfft,
        In (WelchCall x fs nperseg nfft)
           (trace (computing_welch_periodogram density self signal)) ->
        exists channel col,
          In channel (analysed_channels self signal) /\
          column signal channel = Ok col /\
          x = np_sub_scalar col (np_mean col)) /\
    (forall band channel relative x fs nperseg nfft,
        In (WelchCall x fs nperseg nfft)
           (trace (computing_welch_bandpower density self signal band channel relative)) ->
        signal_getitem signal channel = Ok x).
Proof.
  intros density self signal. split.
  - intros x fs nperseg nfft H.
    destruct (welch_periodogram_events _ _ _ _ H) as (channel & col & w & Hin & Hcol & _ & E).
    exists channel, col. split; [exact Hin|]. split; [exact Hcol|].
    injection E as -> _ _ _. reflexivity.
  - intros band channel relative x fs nperseg nfft H.
    rewrite welch_bandpower_trace in H.
    destruct (welch_segment self signal band) as [n|e]; [|contradiction].
    destruct (signal_getitem signal channel) as [y|e]; [|contradiction].
    destruct H as [E|[]]. injection E as -> _ _. reflexivity.
Qed.

(** The inputs of the estimator on channel 0 of the example chunk. *)
Lemma welch_inputs_witness :
  (exists channel col,
      In channel (analysed_channels (Example.operator [] (Some (qc 1 1))) Example.chunk) /\
      column Example.chunk channel = Ok col /\
      np_sub_scalar (Example.samples [1; 3; 1; 3; 1; 3; 1; 3]%Z)
                    (np_mean (Example.samples [1; 3; 1; 3; 1; 3; 1; 3]%Z))
      = np_sub_scalar col (np_mean col)) /\
  signal_getitem Example.chunk 0 = Ok (Example.samples [1; 3; 1; 3; 1; 3; 1; 3]%Z).
Proof.
  split.
  - apply (proj1 (welch_inputs Example.density (Example.operator [] (Some (qc 1 1)))
                    Example.chunk)
             _ (qc 64 1) (qc 1 1 * qc 64 1)%Qc (Some (qc 4 1 * (qc 1 1 * qc 64 1))%Qc)).
    left. reflexivity.
  - apply (proj2 (welch_inputs Example.density (Example.operator [] (Some (qc 1 1)))
                    Example.chunk)
             (qc 8 1, qc 32 1) 0%nat false _ (qc 64 1) (qc 1 1 * qc 64 1)%Qc None).
    left. reflexivity.
Defined.

(** C2, counterexample: the per-band Welch computation on channel 0 of the
    example chunk calls the estimator on the samples 1, 3, 1, 3, ..., whose
    mean is 2; the mean-centred samples would be -1, 1, -1, 1, ... *)
Lemma welch_inputs_counterexample :
  (forall density,
      map (fun args => map this (fst (fst (fst args))))
          (welch_calls (trace (computing_welch_bandpower density
                                 (Example.operator [] (Some (qc 1 1))) Example.chunk
                                 (qc 8 1, qc 32 1) 0 false)))
      = [[1; 3; 1; 3; 1; 3; 1; 3]%Q]) /\
  map this (np_sub_scalar (Example.samples [1; 3; 1; 3; 1; 3; 1; 3]%Z)
                          (np_mean (Example.samples [1; 3; 1; 3; 1; 3; 1; 3]%Z)))
  = [-1; 1; -1; 1; -1; 1; -1; 1]%Q.
Proof. split; [intros density|]; vm_compute; reflexivity. Qed.

(** ** A constant offset of the input *)

Lemma column_add_offset_shape (offset : nat -> Qc) (signal : Signal) (channel : nat) :
  match column (add_offset offset signal) channel, column signal channel with
  | Ok a, Ok b => length a = length b
  | Raise e1, Raise e2 => e1 = e2
  | _, _ => False
  end.
Proof.
  rewrite column_add_offset. destruct (column signal channel) as [col|e]; [|reflexivity].
  apply length_map.
Qed.

(** A loop run on two inputs: a relation between the states that every
    iteration keeps is kept by the loop, and so is a relation between the
    traces that concatenation keeps. *)
Lemma for_each_related {A S} (R : S -> S -> Prop) (T : list event -> list event -> Prop)
    (body1 body2 : A -> S -> M S) (xs : list A) :
  T [] [] ->
  (forall a b c d, T a b -> T c d -> T (a ++ c) (b ++ d)) ->
  (forall x s1 s2, In x xs -> R s1 s2 ->
      T (trace (body1 x s1)) (trace (body2 x s2)) /\
      match result (body1 x s1), result (body2 x s2) with
      | Ok a, Ok b => R a b
      | Raise e1, Raise e2 => e1 = e2
      | _, _ => False
      end) ->
  forall s1 s2, R s1 s2 ->
    T (trace (for_each xs body1 s1)) (trace (for_each xs body2 s2)) /\
    match result (for_each xs body1 s1), result (for_each xs body2 s2) with
    | Ok a, Ok b => R a b
    | Raise e1, Raise e2 => e1 = e2
    | _, _ => False
    end.
Proof.
  intros T0 Tapp. induction xs as [|x xs IH]; intros Hb s1 s2 HR.
  - split; [exact T0 | exact HR].
  - cbn [for_each]. rewrite !trace_bind, !result_bind.
    destruct (Hb x s1 s2 (or_introl eq_refl) HR) as [HT Hres].
    destruct (result (body1 x s1)) as [a|e1]; destruct (result (body2 x s2)) as [b|e2];
      try contradiction.
    + destruct (IH (fun y t1 t2 Hy => Hb y t1 t2 (or_intror Hy)) a b Hres) as [HT' Hres'].
      split; [apply Tapp; assumption | exact Hres'].
    + split; [apply Tapp; [exact HT | exact T0] | exact Hres].
Qed.

Lemma welch_calls_app a b : welch_calls (a ++ b) = welch_calls a ++ welch_calls b.
Proof. unfold welch_calls. apply flat_map_app. Qed.

(** What [sig.welch] returns depends on the samples only through their
    number, as far as the exception, the frequency axis and the number of
    density values go. *)
Lemma welch_shape density x1 x2 fs nperseg nfft :
  length x1 = length x2 ->
  match welch density x1 fs nperseg nfft, welch density x2 fs nperseg nfft with
  | Ok c1, Ok c2 => fst c1 = fst c2 /\ length (snd c1) = length (snd c2)
  | Raise e1, Raise e2 => e1 = e2
  | _, _ => False
  end.
Proof.
  intros Hlen. unfold welch.
  destruct x1 as [|v1 x1]; destruct x2 as [|v2 x2]; try discriminate Hlen.
  - split; reflexivity.
  - rewrite Hlen.
    destruct (py_int nperseg <? 1)%Z; [reflexivity|].
    destruct nfft as [f|].
    + destruct (Qcltb f (of_Z (Z.min (py_int nperseg) (Z.of_nat (length (v2 :: x2))))));
        [reflexivity|].
      cbn [fst snd]. rewrite !length_map. split; reflexivity.
    + cbn [fst snd]. rewrite !length_map. split; reflexivity.
Qed.

Lemma curve_axes_dict_set (d1 d2 : dict Curve) k c1 c2 :
  curve_axes d1 = curve_axes d2 ->
  freqs c1 = freqs c2 -> length (psd c1) = length (psd c2) ->
  curve_axes (dict_set d1 k c1) = curve_axes (dict_set d2 k c2).
Proof.
  intros Hd Hf Hp. revert d2 Hd.
  induction d1 as [|[k1 v1] d1 IH]; intros [|[k2 v2] d2] Hd; try discriminate Hd.
  - cbn. rewrite Hf, Hp. reflexivity.
  - cbn [curve_axes map fst snd] in Hd. injection Hd as -> Hfv Hpv Hrest.
    cbn [dict_set]. destruct (Nat.eqb k k2).
    + cbn [curve_axes map fst snd]. rewrite Hf, Hp. f_equal. exact Hrest.
    + cbn [curve_axes map fst snd]. rewrite Hfv, Hpv. f_equal. apply IH. exact Hrest.
Qed.

(** Two chunks with the same rate, channel count and buffer lengths: the
    per-chunk PSD computation ends alike on both, with the same channels
    and frequency axes, after the same calls of [sig.welch] up to the
    values of the samples. *)
Lemma welch_periodogram_same_shape density self s1 s2 :
  rate s1 = rate s2 -> number_of_channels s1 = number_of_channels s2 ->
  (forall channel,
      match column s1 channel, column s2 channel with
      | Ok a, Ok b => length a = length b
      | Raise e1, Raise e2 => e1 = e2
      | _, _ => False
      end) ->
  same_axes (result (computing_welch_periodogram density self s1))
            (result (computing_welch_periodogram density self s2)) /\
  map call_shape (welch_calls (trace (computing_welch_periodogram density self s1))) =
  map call_shape (welch_calls (trace (computing_welch_periodogram density self s2))).
Proof.
  intros Hr Hn Hcol. unfold computing_welch_periodogram. rewrite <- Hr, <- Hn.
  rewrite !result_bind, !trace_bind, !result_lift, !trace_lift. cbn [app].
  destruct (py_mul (window_length_for_welch self) (rate s1)) as [win|e];
    [|split; reflexivity].
  match goal with
  | |- same_axes (result (for_each ?xs ?b1 ?s)) (result (for_each _ ?b2 _)) /\ _ =>
      pose proof (for_each_related
                    (fun d1 d2 : dict Curve => curve_axes d1 = curve_axes d2)
                    (fun t1 t2 => map call_shape (welch_calls t1) =
                                  map call_shape (welch_calls t2))
                    b1 b2 xs) as K
  end.
  cbv beta in K.
  destruct K with (s1 := @nil (nat * Curve)) (s2 := @nil (nat * Curve)) as [KT KR].
  - reflexivity.
  - intros a b c d E1 E2. rewrite !welch_calls_app, !map_app, E1, E2. reflexivity.
  - intros channel d1 d2 _ Hd.
    destruct (py_in channel (exclude_channel_list self)); [split; [reflexivity | exact Hd]|].
    rewrite !trace_bind, !result_bind, !trace_lift, !result_lift. cbn [app].
    specialize (Hcol channel).
    destruct (column s1 channel) as [a|e1]; destruct (column s2 channel) as [b|e2];
      try contradiction; [|split; [reflexivity | exact Hcol]].
    unfold sig_welch.
    rewrite ?trace_bind, ?result_bind. cbn [emit trace result fst snd app].
    rewrite ?trace_bind, ?result_bind, ?trace_lift, ?result_lift. cbn [app].
    assert (Hlen : length (np_sub_scalar a (np_mean a)) = length (np_sub_scalar b (np_mean b))).
    { unfold np_sub_scalar. rewrite !length_map. exact Hcol. }
    pose proof (welch_shape density _ _ (rate s1) win (Some (qc 4 1 * win)%Qc) Hlen) as W.
    destruct (welch density (np_sub_scalar a (np_mean a)) (rate s1) win (Some (qc 4 1 * win)%Qc))
      as [c1|e1];
      destruct (welch density (np_sub_scalar b (np_mean b)) (rate s1) win
                      (Some (qc 4 1 * win)%Qc)) as [c2|e2]; try contradiction.
    + cbn [ret trace result fst snd app welch_calls flat_map map].
      unfold call_shape. cbn [fst snd]. rewrite Hlen. split; [reflexivity|].
      apply curve_axes_dict_set; [exact Hd | apply W | apply W].
    + cbn [trace result fst snd app welch_calls flat_map map].
      unfold call_shape. cbn [fst snd]. rewrite Hlen. split; [reflexivity | exact W].
  - reflexivity.
  - split; [|exact KT].
    unfold same_axes.
    match goal with
    | |- match ?r1 with _ => _ end => destruct r1 as [d1|e1]
    end;
    match goal with
    | |- match ?r2 with _ => _ end => destruct r2 as [d2|e2]
    end; exact KR.
Qed.

(** Two chunks with the same rate and channel count whose analysed
    channels give the same mean-centred samples: the per-chunk PSD
    computation runs alike on both. *)
Lemma welch_periodogram_same_centred density self s1 s2 :
  rate s1 = rate s2 -> number_of_channels s1 = number_of_channels s2 ->
  (forall channel, In channel (analysed_channels self s2) ->
      signal_no_bias s1 channel = signal_no_bias s2 channel) ->
  computing_welch_periodogram density self s1 = computing_welch_periodogram density self s2.
Proof.
  intros Hr Hn Hc. unfold computing_welch_periodogram. rewrite Hr, Hn.
  apply bind_ext; intros win.
  apply for_each_ext; intros channel psd_dict Hin.
  destruct (py_in channel (exclude_channel_list self)) eqn:Hex; [reflexivity|].
  specialize (Hc channel (in_analysed_channels _ _ _ Hin Hex)).
  unfold signal_no_bias in Hc.
  destruct (column s1 channel) as [a|e1]; destruct (column s2 channel) as [b|e2];
    try discriminate Hc.
  - apply Ok_inj in Hc. unfold lift; cbn [bind]. rewrite Hc. reflexivity.
  - injection Hc as ->. reflexivity.
Qed.

(** C9 (as amended).  Adding a constant to every sample of a channel
    buffer (a constant of its own for each channel) never changes how the
    per-chunk Welch computation ends, the channels of the mapping, their
    [freqs] arrays, the number of [psd] values, or the calls of [sig.welch]
    up to the values of the samples.  The [psd] arrays are those of the
    mean-centred samples of line 88: when the centred samples of the
    raised buffers are the centred samples of the original ones, as they
    are whenever the mean and the difference are computed without
    rounding, the whole run is the same, [psd] arrays included. *)
Theorem welch_periodogram_offset :
  forall density self (offset : nat -> Qc) (signal : Signal),
    same_axes (result (computing_welch_periodogram density self (add_offset offset signal)))
              (result (computing_welch_periodogram density self signal)) /\
    map call_shape
        (welch_calls (trace (computing_welch_periodogram density self
                               (add_offset offset signal)))) =
    map call_shape
        (welch_calls (trace (computing_welch_periodogram density self signal))) /\
    ((forall channel, In channel (analysed_channels self signal) ->
         signal_no_bias (add_offset offset signal) channel = signal_no_bias signal channel) ->
     computing_welch_periodogram density self (add_offset offset signal) =
     computing_welch_periodogram density self signal).
Proof.
  intros density self offset signal.
  destruct (welch_periodogram_same_shape density self (add_offset offset signal) signal
              eq_refl eq_refl (column_add_offset_shape offset signal)) as [H1 H2].
  split; [exact H1|]. split; [exact H2|].
  intros Hc. apply welch_periodogram_same_centred; [reflexivity | reflexivity | exact Hc].
Qed.

(** The example chunk raised by 5, 7 and 11: the centred samples are those
    of the chunk, and so is the run. *)
Lemma welch_periodogram_offset_witness :
  computing_welch_periodogram Example.density (Example.operator [1%nat] (Some (qc 1 1)))
    (add_offset (fun channel => nth channel [qc 5 1; qc 7 1; qc 11 1] 0%Qc) Example.chunk) =
  computing_welch_periodogram Example.density (Example.operator [1%nat] (Some (qc 1 1)))
    Example.chunk.
Proof.
  apply (proj2 (proj2 (welch_periodogram_offset
                         Example.density (Example.operator [1%nat] (Some (qc 1 1)))
                         (fun channel => nth channel [qc 5 1; qc 7 1; qc 11 1] 0%Qc)
                         Example.chunk))).
  intros channel Hch.
  destruct Hch as [<-|[<-|[]]]; vm_compute; reflexivity.
Defined.

(** C9, counterexample: the buffer [0.1, 0.3] and the same buffer raised by
    1.  With exact arithmetic the centred samples of both are -1/10 and
    1/10.  In binary64, as line 88 computes them, the centred samples of
    the buffer are -0x1.999999999999ap-4 and 0x1.9999999999998p-4, those of
    the raised buffer -0x1.99999999999a0p-4 and 0x1.9999999999990p-4: the
    two calls of [sig.welch] are handed different samples. *)
Lemma welch_periodogram_offset_counterexample :
  np_sub_scalar [qc 11 10; qc 13 10] (np_mean [qc 11 10; qc 13 10]) =
  np_sub_scalar [qc 1 10; qc 3 10] (np_mean [qc 1 10; qc 3 10]) /\
  Float64.signal_no_bias [Float64.of_ratio 1 10; Float64.of_ratio 3 10] =
  [S754_finite true 7205759403792794 (-56); S754_finite false 7205759403792792 (-56)] /\
  Float64.signal_no_bias
    (Float64.add_offset (Float64.of_Z 1) [Float64.of_ratio 1 10; Float64.of_ratio 3 10]) =
  [S754_finite true 7205759403792800 (-56); S754_finite false 7205759403792784 (-56)] /\
  Float64.array_equal
    (Float64.signal_no_bias
       (Float64.add_offset (Float64.of_Z 1) [Float64.of_ratio 1 10; Float64.of_ratio 3 10]))
    (Float64.signal_no_bias [Float64.of_ratio 1 10; Float64.of_ratio 3 10]) = false.
Proof.
  split; [|split; [|split]]; vm_compute; reflexivity.
Qed.

(** ** The window length *)

Lemma welch_invalid_segment density x fs nperseg nfft :
  x <> [] -> (py_int nperseg < 1)%Z ->
  welch density x fs nperseg nfft = Raise ValueError.
Proof.
  intros Hx Hn. unfold welch. destruct x as [|v x]; [contradiction|].
  apply Z.ltb_lt in Hn. rewrite Hn. reflexivity.
Qed.

Lemma py_int_le (x : Qc) : (1 <= py_int x)%Z -> (inject_Z (py_int x) <= x)%Q.
Proof.
  unfold py_int. intros H.
  assert (Hnum : (0 <= Qnum x)%Z).
  { destruct (Z.le_gt_cases 0 (Qnum x)) as [K|K]; [exact K|].
    assert (Z.quot (Qnum x) (Z.pos (Qden x)) <= 0)%Z; [|lia].
    rewrite <- (Z.opp_involutive (Qnum x)), Z.quot_opp_l by lia.
    assert (0 <= Z.quot (- Qnum x) (Z.pos (Qden x)))%Z by (apply Z.quot_pos; lia).
    lia. }
  rewrite Z.quot_div_nonneg by lia.
  replace (Qnum x / Z.pos (Qden x))%Z with (Qfloor x) by (destruct x as [[n d] c]; reflexivity).
  apply Qfloor_le.
Qed.

Lemma Qcltb_false (x y : Qc) : (y <= x)%Qc -> Qcltb x y = false.
Proof.
  intros H. unfold Qcltb. apply negb_false_iff. apply Qle_bool_iff. exact H.
Qed.

Lemma of_Z_le (a b : Z) : (a <= b)%Z -> (of_Z a <= of_Z b)%Qc.
Proof.
  intros H. unfold of_Z, Qcle. cbn [this Q2Qc]. rewrite !Qred_correct.
  rewrite <- Zle_Qle. exact H.
Qed.

(** A window of one sample or more is never refused, however long: a
    segment longer than the buffer is shortened to the buffer. *)
Lemma welch_long_window_returns density x fs win :
  x <> [] -> (1 <= py_int win)%Z ->
  exists c, welch density x fs win (Some (qc 4 1 * win)%Qc) = Ok c.
Proof.
  intros Hx Hn. unfold welch. destruct x as [|v x]; [contradiction|].
  assert (E : (py_int win <? 1)%Z = false) by (apply Z.ltb_ge; exact Hn).
  rewrite E.
  rewrite Qcltb_false; [eexists; reflexivity|].
  apply Qcle_trans with (of_Z (py_int win)); [apply of_Z_le; lia|].
  pose proof (py_int_le win Hn) as K.
  assert (K1 : (1 <= inject_Z (py_int win))%Q)
    by (change 1%Q with (inject_Z 1); rewrite <- Zle_Qle; exact Hn).
  unfold of_Z, Qcle, Qcmult, qc. cbn [this Q2Qc]. rewrite !Qred_correct. lra.
Qed.

(** A loop raises as soon as one iteration does, whatever the state. *)
Lemma for_each_raises_at {A S} (body : A -> S -> M S) (xs : list A) (x : A) :
  In x xs -> (forall s, exists e, result (body x s) = Raise e) ->
  forall s, exists e, result (for_each xs body s) = Raise e.
Proof.
  intros Hin Hx. induction xs as [|y xs IH]; intros s; [contradiction|].
  simpl. rewrite result_bind.
  destruct (result (body y s)) as [s1|e] eqn:E; [|exists e; reflexivity].
  destruct Hin as [->|Hin].
  - destruct (Hx s) as (e & K). congruence.
  - exact (IH Hin s1).
Qed.

(** A loop over channels raises [e] when its first iteration that does not
    skip raises [e]. *)
Lemma for_each_first_raise {S} (body : nat -> S -> M S) (skip : nat -> bool) (e : exn) :
  forall xs,
    (exists x, In x xs /\ skip x = false) ->
    (forall x s, In x xs -> skip x = true -> body x s = ret s) ->
    (forall x s, In x xs -> skip x = false -> result (body x s) = Raise e) ->
    forall s, result (for_each xs body s) = Raise e.
Proof.
  induction xs as [|y xs IH]; intros (x & Hin & Hx) Hskip Hraise s; [contradiction|].
  simpl. rewrite result_bind.
  destruct (skip y) eqn:Ey.
  - rewrite (Hskip y s (or_introl eq_refl) Ey). cbn [ret result snd].
    destruct Hin as [->|Hin]; [congruence|].
    apply IH.
    + exists x. split; assumption.
    + intros z s' Hz. apply Hskip. right; exact Hz.
    + intros z s' Hz. apply Hraise. right; exact Hz.
  - rewrite (Hraise y s (or_introl eq_refl) Ey). reflexivity.
Qed.

Lemma analysed_channels_in self signal channel :
  In channel (analysed_channels self signal) ->
  In channel (seq 0 (number_of_channels signal)) /\
  py_in channel (exclude_channel_list self) = false.
Proof.
  unfold analysed_channels. intros H. apply filter_In in H.
  destruct H as [H1 H2]. split; [exact H1 | apply negb_true_iff; exact H2].
Qed.

Lemma welch_periodogram_invalid_window density self signal w :
  window_length_for_welch self = Some w ->
  (py_int (w * rate signal) < 1)%Z ->
  analysed_channels self signal <> [] ->
  (forall channel, In channel (analysed_channels self signal) ->
                   exists col, column signal channel = Ok col /\ col <> []) ->
  result (computing_welch_periodogram density self signal) = Raise ValueError.
Proof.
  intros Hw Hn Hne Hcols. unfold computing_welch_periodogram.
  rewrite result_bind, result_lift, Hw. cbn [py_mul].
  apply for_each_first_raise with (skip := fun channel => py_in channel (exclude_channel_list self)).
  - destruct (analysed_channels self signal) as [|ch l] eqn:E; [contradiction|].
    assert (Hin : In ch (analysed_channels self signal)) by (rewrite E; left; reflexivity).
    apply analysed_channels_in in Hin. exists ch. exact Hin.
  - intros x s _ Hx. rewrite Hx. reflexivity.
  - intros x s Hin Hx. rewrite Hx.
    destruct (Hcols x (in_analysed_channels _ _ _ Hin Hx)) as (col & Hcol & Hnil).
    rewrite result_bind, result_lift, Hcol.
    rewrite result_bind. unfold sig_welch. rewrite result_bind. cbn [emit result snd].
    rewrite result_lift, welch_invalid_segment; [reflexivity | | exact Hn].
    destruct col; [contradiction | discriminate].
Qed.

Lemma returns_false_iff {A} (m : M A) : returns m = false <-> exists e, result m = Raise e.
Proof.
  unfold returns. destruct (result m) as [a|e]; split; intros H; try discriminate.
  - destruct H as (e & H). discriminate H.
  - exists e. reflexivity.
  - reflexivity.
Qed.

(** C3 (as amended).  The source does not check the window itself; what
    happens is [sig.welch]'s doing.  A window of less than one sample
    ([int(window * rate) < 1]) on a non-empty buffer is refused with
    [ValueError] (there is no [InvalidWindowError]), the per-chunk
    computation raises it at its first analysed channel, and a chunk on
    which this happens leaves the whole invocation without a result.  A
    window of one sample or more is never refused: one that is longer than
    the buffer is shortened to the buffer. *)
Theorem invalid_window_is_value_error :
  (forall density x fs nperseg nfft,
      x <> [] -> (py_int nperseg < 1)%Z ->
      welch density x fs nperseg nfft = Raise ValueError) /\
  (forall density mt self pre piece post w,
      window_length_for_welch self = Some w ->
      (py_int (w * rate piece) < 1)%Z ->
      analysed_channels self piece <> [] ->
      (forall channel, In channel (analysed_channels self piece) ->
                       exists col, column piece channel = Ok col /\ col <> []) ->
      result (computing_welch_periodogram density self piece) = Raise ValueError /\
      returns (__call__ density mt self (pre ++ piece :: post)) = false) /\
  (forall density x fs win,
      x <> [] -> (1 <= py_int win)%Z ->
      exists c, welch density x fs win (Some (qc 4 1 * win)%Qc) = Ok c).
Proof.
  split; [exact welch_invalid_segment | split; [|exact welch_long_window_returns]].
  intros density mt self pre piece post w Hw Hn Hne Hcols.
  pose proof (welch_periodogram_invalid_window density self piece w Hw Hn Hne Hcols) as K.
  split; [exact K|].
  apply returns_false_iff. unfold __call__.
  apply for_each_raises_at with (x := (length pre, piece)).
  - apply (in_enumerate (pre ++ piece :: post) 0 (length pre) piece).
    rewrite nth_error_app2 by lia. rewrite Nat.sub_diag. reflexivity.
  - intros s. exists ValueError. cbn [fst snd].
    rewrite result_bind, K. reflexivity.
Qed.

(** A window of zero seconds on the example chunk. *)
Lemma invalid_window_witness :
  result (computing_welch_periodogram Example.density
            (Example.operator [1%nat] (Some 0%Qc)) Example.chunk) = Raise ValueError /\
  returns (Example.run [1%nat] (Some 0%Qc) [Example.chunk; Example.chunk]) = false.
Proof.
  apply (proj1 (proj2 invalid_window_is_value_error) Example.density Example.multitaper_psd
           (Example.operator [1%nat] (Some 0%Qc)) [Example.chunk] Example.chunk [] 0%Qc).
  - reflexivity.
  - vm_compute. reflexivity.
  - vm_compute. discriminate.
  - intros channel Hin. vm_compute in Hin.
    destruct Hin as [<-|[<-|[]]]; eexists; (split; [reflexivity | discriminate]).
Defined.

(** C3, counterexample: ten seconds at 64 Hz are 640 samples, more than the
    eight samples of the example chunk, yet the estimator returns a curve
    for every channel and the invocation returns a result; a window of zero
    seconds ends in [ValueError].  Neither depends on what the estimators
    compute. *)
Lemma invalid_window_counterexample :
  (forall density,
      returns (computing_welch_periodogram density
                 (Example.operator [] (Some (qc 10 1))) Example.chunk) = true) /\
  returns (Example.run [] (Some (qc 10 1)) [Example.chunk]) = true /\
  (forall density mt,
      result (__call__ density mt (Example.operator [] (Some 0%Qc)) [Example.chunk])
      = Raise ValueError).
Proof.
  split; [intros density; vm_compute; reflexivity|].
  split; [vm_compute; reflexivity | intros density mt; vm_compute; reflexivity].
Qed.

(** ** What is reported to the logger *)

Lemma power_trace psd_dict : trace (computing_absolute_and_relative_power psd_dict) = [].
Proof.
  destruct (trace (computing_absolute_and_relative_power psd_dict)) as [|ev t] eqn:E;
    [reflexivity|].
  exfalso.
  assert (H : In ev (trace (computing_absolute_and_relative_power psd_dict)))
    by (rewrite E; left; reflexivity).
  unfold computing_absolute_and_relative_power in H.
  apply for_each_trace_in in H. destruct H as (x & s & _ & H).
  do 8 (crack_trace H; [contradiction|]).
  contradiction.
Qed.

(** The integration steps of the source agree with the integrator of the
    design whenever they return. *)
Lemma integrate_band_spec c band relative v :
  integrate_band (freqs c) (psd c) band relative = Ok v ->
  Spec.band_power c band relative = Ok v.
Proof.
  unfold integrate_band, Spec.band_power, Spec.masked.
  rewrite <- band_idx_spec_mask.
  destruct (freqs c) as [|f0 [|f1 rest]] eqn:Ef; try discriminate.
  cbn [freq_res_of].
  unfold simpson_masked, np_select.
  destruct (Nat.eqb (length (band_idx (f0 :: f1 :: rest) band)) (length (psd c)));
    [|discriminate].
  set (sel := map fst (filter snd (combine (psd c) (band_idx (f0 :: f1 :: rest) band)))).
  destruct (simpson sel (f1 - f0)%Qc) as [bp|e] eqn:Ebp; [|discriminate].
  assert (Hint : Spec.integrate sel (f1 - f0)%Qc = bp).
  { unfold Spec.integrate. destruct sel as [|s0 sel']; [discriminate Ebp|].
    rewrite Ebp. reflexivity. }
  rewrite Hint.
  destruct relative; [|exact (fun H => H)].
  destruct (simpson (psd c) (f1 - f0)%Qc) as [total|e] eqn:Et; [|discriminate].
  assert (Htot : Spec.integrate (psd c) (f1 - f0)%Qc = total).
  { unfold Spec.integrate. destruct (psd c) as [|p0 ps]; [discriminate Et|].
    rewrite Et. reflexivity. }
  rewrite Htot. exact (fun H => H).
Qed.

(** The lines [report_band] logs for the Welch method carry the values the
    per-band Welch computation returned. *)
Lemma report_band_welch_line density mt self signal channel band band' v :
  In (LoggerInfo (BandPowerLine band' false Welch v))
     (trace (report_band density mt self signal channel band)) ->
  band' = band /\
  result (computing_welch_bandpower density self signal band channel false) = Ok v.
Proof.
  unfold report_band. intros H.
  crack_trace H.
  { rewrite multitaper_bandpower_trace in H.
    destruct (signal_getitem signal channel); [destruct H as [H|[]]; discriminate H | contradiction]. }
  crack_trace H.
  { rewrite multitaper_bandpower_trace in H.
    destruct (signal_getitem signal channel); [destruct H as [H|[]]; discriminate H | contradiction]. }
  crack_trace H; [destruct H as [H|[]]; discriminate H|].
  crack_trace H; [destruct H as [H|[]]; discriminate H|].
  crack_trace H.
  { rewrite welch_bandpower_trace in H.
    destruct (welch_segment self signal band); [|contradiction].
    destruct (signal_getitem signal channel); [destruct H as [H|[]]; discriminate H | contradiction]. }
  crack_trace H.
  { rewrite welch_bandpower_trace in H.
    destruct (welch_segment self signal band); [|contradiction].
    destruct (signal_getitem signal channel); [destruct H as [H|[]]; discriminate H | contradiction]. }
  crack_trace H.
  - destruct H as [H|[]]. injection H as -> ->. split; [reflexivity | exact Ha3].
  - destruct H as [H|[]]. discriminate H.
Qed.

Lemma report_canonical_lines channel r ev :
  In ev (trace (report_canonical channel r)) ->
  exists relative name ch v, ev = LoggerInfo (CanonicalLine relative name ch v).
Proof.
  unfold report_canonical. intros H.
  apply for_each_trace_in in H. destruct H as (e & s & _ & H).
  crack_trace H; destruct H as [<-|[]]; repeat eexists.
Qed.

Lemma welch_periodogram_window density self signal d :
  result (computing_welch_periodogram density self signal) = Ok d ->
  exists w, window_length_for_welch self = Some w.
Proof.
  unfold computing_welch_periodogram. intros H. crack H. rewrite result_lift in Ha.
  destruct (window_length_for_welch self) as [w|]; [exists w; reflexivity | discriminate Ha].
Qed.

(** ** Further concrete runs *)

(** The example chunk twice, channel 1 excluded: every chunk has the keys 0
    and 2. *)
Lemma result_keys_witness :
  exists psd_dict power_dict d p,
    result (Example.run [1%nat] (Some (qc 1 1)) [Example.chunk; Example.chunk])
    = Ok (psd_dict, power_dict) /\
    dict_get psd_dict 1 = Some d /\ dict_get power_dict 1 = Some p /\
    dict_keys d = [0%nat; 2%nat] /\ dict_keys p = [0%nat; 2%nat].
Proof.
  destruct (result (Example.run [1%nat] (Some (qc 1 1)) [Example.chunk; Example.chunk]))
    as [[psd_dict power_dict]|e] eqn:E; [|vm_compute in E; discriminate E].
  destruct (result_keys_are_analysed_channels _ _ _ _ _ _ E) as (_ & _ & K).
  destruct (K 1%nat Example.chunk eq_refl) as (d & p & G1 & G2 & G3 & G4 & _).
  exists psd_dict, power_dict, d, p.
  split; [reflexivity|]. split; [exact G1|]. split; [exact G2|].
  split; [exact G3 | exact G4].
Defined.

(** Without a configured window, the band 8 to 32 Hz at 64 Hz is estimated
    with segments of [(2 / 8) * 64 = 16] samples. *)
Lemma welch_segment_fallback_witness :
  trace (computing_welch_bandpower Example.density (Example.operator [] None)
           Example.chunk (qc 8 1, qc 32 1) 0 false)
  = [WelchCall (Example.samples [1; 3; 1; 3; 1; 3; 1; 3]%Z) (qc 64 1)
               (qc 2 1 / qc 8 1 * qc 64 1)%Qc None].
Proof.
  apply (proj1 (welch_segment_fallback Example.density (Example.operator [] None)
                  Example.chunk (qc 8 1, qc 32 1) 0%nat false eq_refl)).
  - intros H. discriminate H.
  - reflexivity.
Defined.

(** C10, counterexample: without a configured window a band that starts at
    0 Hz makes the per-band Welch computation fail, with
    [ZeroDivisionError] from [2 / low]. *)
Lemma welch_segment_fallback_counterexample :
  result (computing_welch_bandpower Example.density (Example.operator [] None)
            Example.chunk (0%Qc, qc 4 1) 0 false) = Raise ZeroDivisionError.
Proof. vm_compute. reflexivity. Qed.

(** ** The missing window at the entry point *)

(** With [window_length_for_welch = None] the entry point never reaches the
    per-band computation: the per-chunk PSD computation of the first chunk
    multiplies [None] by the rate, and [__call__] ends in [TypeError]
    before anything is estimated or logged. *)
Theorem call_without_window_is_type_error :
  forall density mt self piece rest,
    window_length_for_welch self = None ->
    __call__ density mt self (piece :: rest) = ([], Raise TypeError).
Proof.
  intros density mt self piece rest Hw. unfold __call__.
  cbn [length seq combine for_each fst snd].
  unfold computing_welch_periodogram at 1. rewrite Hw. reflexivity.
Qed.

Lemma call_without_window_witness :
  Example.run [] None [Example.chunk] = ([], Raise TypeError).
Proof.
  apply (call_without_window_is_type_error Example.density Example.multitaper_psd
           (Example.operator [] None) Example.chunk []).
  reflexivity.
Defined.

(** The power record of the silent curve at 64 Hz. *)
Lemma power_records_witness :
  exists power r,
    result (computing_absolute_and_relative_power [(0%nat, Example.silent_curve)])
    = Ok power /\
    dict_get power 0 = Some r /\ record_of_curve Example.silent_curve r.
Proof.
  destruct (power_records_hold_band_powers [(0%nat, Example.silent_curve)])
    as (power & E & K).
  - intros channel c Hc. destruct channel; [|discriminate Hc].
    injection Hc as <-. exact silent_curve_analysable.
  - destruct (K 0%nat Example.silent_curve eq_refl) as (r & Hr & Hrec).
    exists power, r. split; [exact E|]. split; [exact Hr | exact Hrec].
Defined.

(* ================================================================== *)
(** * Further properties *)

(** ** The stored curves *)

Lemma welch_periodogram_curves density self signal d :
  result (computing_welch_periodogram density self signal) = Ok d ->
  forall ch c, dict_get d ch = Some c ->
  exists col w,
    column signal ch = Ok col /\
    window_length_for_welch self = Some w /\
    welch density (np_sub_scalar col (np_mean col)) (rate signal)
          (w * rate signal)%Qc (Some (qc 4 1 * (w * rate signal))%Qc)
    = Ok (freqs c, psd c).
Proof.
  unfold computing_welch_periodogram. intros H.
  crack H. rewrite result_lift in Ha.
  destruct (window_length_for_welch self) as [w|]; [|discriminate Ha].
  apply Ok_inj in Ha. subst a.
  refine (for_each_invariant
            (fun (done : list nat) (psd_dict : dict Curve) =>
               forall ch c, dict_get psd_dict ch = Some c ->
               exists col w0,
                 column signal ch = Ok col /\ Some w = Some w0 /\
                 welch density (np_sub_scalar col (np_mean col)) (rate signal)
                       (w0 * rate signal)%Qc (Some (qc 4 1 * (w0 * rate signal))%Qc)
                 = Ok (freqs c, psd c))
            _ _ _ _ _ _ H).
  - intros ch c Hc. discriminate Hc.
  - intros done x rest s1 s2 _ HI Hbody ch c Hc.
    destruct (py_in x (exclude_channel_list self)).
    + apply Ok_inj in Hbody. subst s2. exact (HI ch c Hc).
    + crack Hbody. crack Hbody. apply Ok_inj in Hbody. subst s2.
      rewrite result_lift in Ha.
      unfold sig_welch in Ha0. rewrite result_bind in Ha0. cbn [emit result snd] in Ha0.
      rewrite result_lift in Ha0.
      destruct (Nat.eq_dec x ch) as [->|Hne].
      * rewrite dict_get_set_eq in Hc. injection Hc as <-. cbn [freqs psd].
        exists a, w. split; [exact Ha|]. split; [reflexivity|].
        rewrite Ha0. destruct a0; reflexivity.
      * rewrite dict_get_set_ne in Hc by exact Hne. exact (HI ch c Hc).
Qed.

(** The frequency axis [sig.welch] returns for a non-empty input: the bins
    of an FFT of some length [m >= 1]. *)
Lemma welch_axis density x fs nperseg nfft c :
  x <> [] -> welch density x fs nperseg nfft = Ok c ->
  exists m, (1 <= m)%Z /\ fst c = rfftfreq m fs.
Proof.
  intros Hx. unfold welch. destruct x as [|v x]; [contradiction|].
  destruct (py_int nperseg <? 1)%Z eqn:En; [discriminate|].
  apply Z.ltb_ge in En.
  set (n := Z.min (py_int nperseg) (Z.of_nat (length (v :: x)))).
  assert (Hn : (1 <= n)%Z) by (subst n; simpl length; lia).
  destruct nfft as [f|].
  - destruct (Qcltb f (of_Z n)) eqn:Ef; [discriminate|].
    intros H. apply Ok_inj in H. subst c. cbn [fst].
    exists (py_int f). split; [|reflexivity].
    unfold Qcltb in Ef. apply negb_false_iff in Ef. apply Qle_bool_iff in Ef.
    unfold of_Z in Ef. cbn [this Q2Qc] in Ef. rewrite Qred_correct in Ef.
    unfold py_int.
    assert (K : (inject_Z 1 <= f)%Q).
    { apply Qle_trans with (inject_Z n); [rewrite <- Zle_Qle; exact Hn | exact Ef]. }
    unfold Qle, inject_Z in K. simpl in K.
    assert (0 < Z.pos (Qden f))%Z by lia.
    rewrite Z.quot_div_nonneg by lia.
    apply Z.div_le_lower_bound; lia.
  - intros H. apply Ok_inj in H. subst c. cbn [fst].
    exists n. split; [exact Hn | reflexivity].
Qed.

(** ** When the power computation returns *)

Lemma in_true_dec (l : list bool) : {In true l} + {~ In true l}.
Proof. apply in_dec. exact bool_dec. Qed.

Lemma simpson_masked_ok psd idx dx v :
  simpson_masked psd idx dx = Ok v -> length idx = length psd /\ In true idx.
Proof.
  unfold simpson_masked, np_select.
  destruct (Nat.eqb (length idx) (length psd)) eqn:E; [|discriminate].
  apply Nat.eqb_eq in E. intros H. split; [exact E|].
  destruct (in_true_dec idx) as [Hin|Hin]; [exact Hin|].
  rewrite (select_empty psd idx Hin) in H. discriminate H.
Qed.

Lemma power_returned_analysable psd_dict power :
  result (computing_absolute_and_relative_power psd_dict) = Ok power ->
  forall channel c, dict_get psd_dict channel = Some c -> analysable c.
Proof.
  intros H channel c Hc. unfold computing_absolute_and_relative_power in H.
  destruct (for_each_ok_all _ _ _ _ H channel (dict_get_some_in_keys _ _ _ Hc))
    as (s1 & s2 & Hbody).
  do 7 crack Hbody. rewrite result_lift in *.
  apply dict_item_ok in Ha. rewrite Hc in Ha. injection Ha as <-.
  assert (Hsel : forall b, exists v,
             simpson_masked (psd c) (band_idx (freqs c) (bands b)) a0 = Ok v).
  { intros [| | | |]; eexists; eassumption. }
  split; [|split].
  - destruct (Hsel delta) as (v & Hv). apply simpson_masked_ok in Hv.
    destruct Hv as [Hl _]. rewrite band_idx_length in Hl. symmetry. exact Hl.
  - exact (freq_res_of_ok _ _ Ha0).
  - intros b. destruct (Hsel b) as (v & Hv). apply simpson_masked_ok in Hv. apply Hv.
Qed.

(** The per-chunk power computation returns exactly on analysable curves:
    any curve with fewer than two bins, with a density array of another
    length than the frequency axis, or with a band that selects no bin,
    ends it in [IndexError]; it raises nothing else and talks to no
    collaborator. *)
Theorem power_returns_iff_analysable :
  forall psd_dict,
    ((exists power, result (computing_absolute_and_relative_power psd_dict) = Ok power) <->
     (forall channel c, dict_get psd_dict channel = Some c -> analysable c)) /\
    (forall e, result (computing_absolute_and_relative_power psd_dict) = Raise e ->
               e = IndexError) /\
    trace (computing_absolute_and_relative_power psd_dict) = [].
Proof.
  intros psd_dict. split; [split|split].
  - intros (power & H). exact (power_returned_analysable psd_dict power H).
  - exact (power_returns psd_dict).
  - exact (power_raises_index_error psd_dict).
  - exact (power_trace psd_dict).
Qed.

(** ** The sign of the frequency axis *)

Lemma of_nat_nonneg (k : nat) : (0 <= of_nat k)%Qc.
Proof.
  unfold of_nat, Qcle. cbn [this Q2Qc]. rewrite !Qred_correct.
  unfold Qle. simpl. lia.
Qed.

(** With a sampling rate that is not positive no bin is positive. *)
Lemma rfftfreq_nonpos (m : Z) (fs f : Qc) :
  (1 <= m)%Z -> (fs <= 0)%Qc -> In f (rfftfreq m fs) -> (f <= 0)%Qc.
Proof.
  intros Hm Hfs Hin. unfold rfftfreq in Hin. apply in_map_iff in Hin.
  destruct Hin as (k & <- & _).
  pose proof (of_nat_nonneg k) as HK.
  assert (Hmq : (0 < inject_Z m)%Q).
  { change 0%Q with (inject_Z 0). rewrite <- Zlt_Qlt. lia. }
  assert (Hinv : (0 < / inject_Z m)%Q) by (apply Qinv_lt_0_compat; exact Hmq).
  unfold of_Z. qc_norm.
  assert (H1 : (this fs * / inject_Z m <= 0)%Q) by nra.
  nra.
Qed.

(** A band that selects a bin: the bin lies in the closed interval. *)
Lemma selects_bin (freqs : list Qc) (band : Band) :
  selects freqs band ->
  exists f, In f freqs /\ (fst band <= f)%Qc /\ (f <= snd band)%Qc.
Proof.
  unfold selects. induction freqs as [|f freqs IH]; [intros []|].
  rewrite band_idx_cons. intros [H|H].
  - apply andb_true_iff in H. rewrite !Qcleb_iff in H.
    exists f. split; [left; reflexivity | exact H].
  - destruct (IH H) as (g & Hg & Hb). exists g. split; [right; exact Hg | exact Hb].
Qed.

Lemma welch_empty density fs nperseg nfft : welch density [] fs nperseg nfft = Ok ([], []).
Proof. reflexivity. Qed.

Lemma stored_curve_facts density self signal d channel c :
  result (computing_welch_periodogram density self signal) = Ok d ->
  dict_get d channel = Some c -> analysable c ->
  exists col w m,
    column signal channel = Ok col /\ col <> [] /\
    window_length_for_welch self = Some w /\
    (1 <= py_int (w * rate signal))%Z /\
    (0 < rate signal)%Qc /\
    (1 <= m)%Z /\ freqs c = rfftfreq m (rate signal) /\
    welch density (np_sub_scalar col (np_mean col)) (rate signal)
          (w * rate signal)%Qc (Some (qc 4 1 * (w * rate signal))%Qc)
    = Ok (freqs c, psd c).
Proof.
  intros Hd Hc (Hlen & H2 & Hsel).
  destruct (welch_periodogram_curves _ _ _ _ Hd channel c Hc) as (col & w & Hcol & Hw & Hwelch).
  assert (Hne : col <> []).
  { intros ->. cbn [np_sub_scalar map] in Hwelch. rewrite welch_empty in Hwelch.
    injection Hwelch as E _. rewrite <- E in H2. simpl in H2. lia. }
  assert (Hne' : np_sub_scalar col (np_mean col) <> []).
  { destruct col; [contradiction | discriminate]. }
  destruct (welch_axis _ _ _ _ _ _ Hne' Hwelch) as (m & Hm & Haxis).
  cbn [fst] in Haxis.
  exists col, w, m.
  split; [exact Hcol|]. split; [exact Hne|]. split; [exact Hw|]. split; [|split].
  - destruct (Z_lt_le_dec (py_int (w * rate signal)) 1) as [K|K]; [|exact K].
    rewrite (welch_invalid_segment _ _ _ _ _ Hne' K) in Hwelch. discriminate Hwelch.
  - destruct (Qclt_le_dec 0 (rate signal)) as [K|K]; [exact K | exfalso].
    destruct (selects_bin _ _ (Hsel gamma)) as (f & Hf & Hlo & _).
    rewrite Haxis in Hf.
    pose proof (rfftfreq_nonpos m (rate signal) f Hm K Hf) as Hle.
    cbn [bands fst] in Hlo.
    assert (H30 : (0 < qc 30 1)%Qc) by reflexivity.
    apply (Qclt_not_le _ _ (Qclt_le_trans _ _ _ H30 Hlo)). exact Hle.
  - split; [exact Hm|]. split; [exact Haxis | exact Hwelch].
Qed.

(** What [__call__] needs in order to return: a configured window, and on
    every chunk, for every analysed channel, a non-empty sample buffer, a
    window of at least one sample and a positive sampling rate (the stored
    curve must have a bin in the gamma band, from 30 Hz on). *)
Theorem call_returns_requires :
  forall density mt self signal out,
    result (__call__ density mt self signal) = Ok out ->
    forall piece, In piece signal ->
    exists w,
      window_length_for_welch self = Some w /\
      forall channel, In channel (analysed_channels self piece) ->
        (exists col, column piece channel = Ok col /\ col <> []) /\
        (1 <= py_int (w * rate piece))%Z /\
        (0 < rate piece)%Qc.
Proof.
  intros density mt self signal out H piece Hpiece. unfold __call__ in H.
  destruct (In_nth_error _ _ Hpiece) as (i & Hi).
  pose proof (in_enumerate signal 0 i piece Hi) as Hin.
  destruct (for_each_ok_all _ _ _ _ H _ Hin) as (s1 & s2 & Hbody).
  cbn [fst snd] in Hbody. crack Hbody. crack Hbody. clear Hbody.
  destruct (welch_periodogram_window _ _ _ _ Ha) as (w & Hw).
  exists w. split; [exact Hw|].
  intros channel Hch.
  rewrite <- (welch_periodogram_keys _ _ _ _ Ha) in Hch.
  destruct (dict_get_in_keys _ _ Hch) as (c & Hc).
  pose proof (power_returned_analysable _ _ Ha0 channel c Hc) as Han.
  destruct (stored_curve_facts _ _ _ _ _ _ Ha Hc Han)
    as (col & w' & m & Hcol & Hne & Hw' & Hn & Hrate & _).
  rewrite Hw in Hw'. injection Hw' as <-.
  split; [exists col; split; assumption|]. split; assumption.
Qed.

(** The example chunk (64 Hz, eight samples per channel) with a window of
    one second. *)
Lemma call_returns_requires_witness :
  exists w,
    window_length_for_welch (Example.operator [] (Some (qc 1 1))) = Some w /\
    forall channel,
      In channel (analysed_channels (Example.operator [] (Some (qc 1 1))) Example.chunk) ->
      (exists col, column Example.chunk channel = Ok col /\ col <> []) /\
      (1 <= py_int (w * rate Example.chunk))%Z /\
      (0 < rate Example.chunk)%Qc.
Proof.
  destruct (result (Example.run [] (Some (qc 1 1)) [Example.chunk])) as [out|e] eqn:E;
    [|vm_compute in E; discriminate E].
  apply (call_returns_requires Example.density Example.multitaper_psd
           (Example.operator [] (Some (qc 1 1))) [Example.chunk] out E Example.chunk).
  left. reflexivity.
Defined.

(** ** The mean-centred samples *)

(** What [computing_welch_periodogram] returns: one curve per analysed
    channel, in channel order, each curve being the pair [sig.welch]
    returned for the channel's buffer minus its mean, with segment length
    [window * rate] and FFT length four times that. *)
Theorem welch_periodogram_stores_estimates :
  forall density self signal d,
    result (computing_welch_periodogram density self signal) = Ok d ->
    exists w,
      window_length_for_welch self = Some w /\
      dict_keys d = analysed_channels self signal /\
      forall channel, In channel (analysed_channels self signal) ->
        exists col c,
          column signal channel = Ok col /\
          dict_get d channel = Some c /\
          welch density (np_sub_scalar col (np_mean col)) (rate signal)
                (w * rate signal)%Qc (Some (qc 4 1 * (w * rate signal))%Qc)
          = Ok (freqs c, psd c).
Proof.
  intros density self signal d H.
  destruct (welch_periodogram_window _ _ _ _ H) as (w & Hw).
  pose proof (welch_periodogram_keys _ _ _ _ H) as Hk.
  exists w. split; [exact Hw|]. split; [exact Hk|].
  intros channel Hch. rewrite <- Hk in Hch.
  destruct (dict_get_in_keys _ _ Hch) as (c & Hc).
  destruct (welch_periodogram_curves _ _ _ _ H channel c Hc) as (col & w' & Hcol & Hw' & Hwelch).
  rewrite Hw in Hw'. injection Hw' as <-.
  exists col, c. split; [exact Hcol|]. split; [exact Hc | exact Hwelch].
Qed.

Lemma welch_periodogram_stores_estimates_witness :
  exists w,
    window_length_for_welch (Example.operator [1%nat] (Some (qc 1 1))) = Some w /\
    dict_keys (match result (computing_welch_periodogram Example.density
                               (Example.operator [1%nat] (Some (qc 1 1))) Example.chunk)
               with Ok d => d | Raise _ => [] end)
    = analysed_channels (Example.operator [1%nat] (Some (qc 1 1))) Example.chunk /\
    forall channel,
      In channel (analysed_channels (Example.operator [1%nat] (Some (qc 1 1))) Example.chunk) ->
      exists col c,
        column Example.chunk channel = Ok col /\
        dict_get (match result (computing_welch_periodogram Example.density
                                  (Example.operator [1%nat] (Some (qc 1 1))) Example.chunk)
                  with Ok d => d | Raise _ => [] end) channel = Some c /\
        welch Example.density (np_sub_scalar col (np_mean col)) (rate Example.chunk)
              (w * rate Example.chunk)%Qc (Some (qc 4 1 * (w * rate Example.chunk))%Qc)
        = Ok (freqs c, psd c).
Proof.
  destruct (result (computing_welch_periodogram Example.density
                      (Example.operator [1%nat] (Some (qc 1 1))) Example.chunk))
    as [d|e] eqn:E; [|vm_compute in E; discriminate E].
  exact (welch_periodogram_stores_estimates _ _ _ d E).
Defined.

(** ** The entries of the returned mappings *)

(** What [__call__] returned, chunk by chunk. *)
Lemma call_entries density mt self signal psd_dict power_dict :
  result (__call__ density mt self signal) = Ok (psd_dict, power_dict) ->
  dict_keys psd_dict = seq 0 (length signal) /\
  forall i piece, In (i, piece) (combine (seq 0 (length signal)) signal) ->
    exists d p,
      dict_get psd_dict i = Some d /\ dict_get power_dict i = Some p /\
      result (computing_welch_periodogram density self piece) = Ok d /\
      result (computing_absolute_and_relative_power d) = Ok p.
Proof.
  intros H. unfold __call__ in H.
  pose (I := fun (done : list (nat * Signal))
                 (dicts : dict (dict Curve) * dict (dict PowerRecord)) =>
     dict_keys (fst dicts) = map fst done /\
     forall i piece, In (i, piece) done ->
       exists d p,
         dict_get (fst dicts) i = Some d /\ dict_get (snd dicts) i = Some p /\
         result (computing_welch_periodogram density self piece) = Ok d /\
         result (computing_absolute_and_relative_power d) = Ok p).
  assert (HI : I (combine (seq 0 (length signal)) signal) (psd_dict, power_dict)).
  { refine (for_each_invariant I _ _ _ _ _ _ H).
    - split; [reflexivity | intros j q []].
    - intros done [idx q] rest [pd pw] s2 Hall (K1 & K) Hbody.
      cbn [fst snd] in *.
      crack Hbody. crack Hbody. crack Hbody. apply Ok_inj in Hbody. subst s2.
      assert (Hfresh : ~ In idx (map fst done)).
      { pose proof (seq_NoDup (length signal) 0) as ND.
        rewrite <- (map_fst_enumerate signal 0), Hall, map_app in ND.
        simpl in ND. apply NoDup_remove_2 in ND.
        intros Hin. apply ND. apply in_or_app. left. exact Hin. }
      split; cbn [fst snd].
      + rewrite map_app. cbn [map fst]. rewrite dict_keys_set_fresh by congruence.
        rewrite K1. reflexivity.
      + intros j q' Hin.
        apply in_app_or in Hin. destruct Hin as [Hin|[Hin|[]]].
        * assert (idx <> j).
          { intros ->. apply Hfresh. apply in_map_iff. exists (j, q').
            split; [reflexivity|exact Hin]. }
          rewrite !dict_get_set_ne by assumption. apply K. exact Hin.
        * injection Hin as <- <-. rewrite !dict_get_set_eq.
          exists a, a0. split; [reflexivity|]. split; [reflexivity|].
          split; [exact Ha | exact Ha0]. }
  destruct HI as (K1 & K). cbn [fst snd] in K1, K.
  rewrite map_fst_enumerate in K1. split; [exact K1 | exact K].
Qed.

(** The mappings [__call__] returns hold, for every chunk, what the
    per-chunk methods return for that chunk alone: [psd_dict[i]] is the
    result of [computing_welch_periodogram] on chunk [i] and
    [power_dict[i]] the result of [computing_absolute_and_relative_power]
    on [psd_dict[i]]. *)
Theorem call_output_is_per_chunk :
  forall density mt self signal psd_dict power_dict,
    result (__call__ density mt self signal) = Ok (psd_dict, power_dict) ->
    forall i piece, nth_error signal i = Some piece ->
      exists d p,
        dict_get psd_dict i = Some d /\ dict_get power_dict i = Some p /\
        result (computing_welch_periodogram density self piece) = Ok d /\
        result (computing_absolute_and_relative_power d) = Ok p.
Proof.
  intros density mt self signal psd_dict power_dict H i piece Hn.
  destruct (call_entries density mt self signal psd_dict power_dict H) as (_ & K).
  apply K. apply (in_enumerate signal 0 i piece). exact Hn.
Qed.

Lemma call_output_is_per_chunk_witness :
  exists d p,
    dict_get (match result (Example.run [1%nat] (Some (qc 1 1)) [Example.chunk; Example.chunk])
              with Ok out => fst out | Raise _ => [] end) 1 = Some d /\
    dict_get (match result (Example.run [1%nat] (Some (qc 1 1)) [Example.chunk; Example.chunk])
              with Ok out => snd out | Raise _ => [] end) 1 = Some p /\
    result (computing_welch_periodogram Example.density
              (Example.operator [1%nat] (Some (qc 1 1))) Example.chunk) = Ok d /\
    result (computing_absolute_and_relative_power d) = Ok p.
Proof.
  destruct (result (Example.run [1%nat] (Some (qc 1 1)) [Example.chunk; Example.chunk]))
    as [[psd_dict power_dict]|e] eqn:E; [|vm_compute in E; discriminate E].
  exact (call_output_is_per_chunk _ _ _ _ psd_dict power_dict E 1%nat Example.chunk eq_refl).
Defined.

(** ** Excluded channels *)

Lemma column_agree self s1 s2 channel :
  agree_on_analysed self s1 s2 ->
  py_in channel (exclude_channel_list self) = false ->
  column s1 channel = column s2 channel.
Proof.
  intros (_ & _ & H) Hex. unfold column. rewrite (H channel Hex). reflexivity.
Qed.

Lemma welch_periodogram_agree density self s1 s2 :
  agree_on_analysed self s1 s2 ->
  computing_welch_periodogram density self s1 = computing_welch_periodogram density self s2.
Proof.
  intros Hag. pose proof Hag as (Hr & Hn & _).
  unfold computing_welch_periodogram. rewrite Hr, Hn.
  apply bind_ext; intros win. apply for_each_ext; intros channel psd_dict _.
  destruct (py_in channel (exclude_channel_list self)) eqn:Hex; [reflexivity|].
  rewrite (column_agree self s1 s2 channel Hag Hex). reflexivity.
Qed.

Lemma report_band_agree density mt self s1 s2 channel band :
  agree_on_analysed self s1 s2 ->
  py_in channel (exclude_channel_list self) = false ->
  report_band density mt self s1 channel band = report_band density mt self s2 channel band.
Proof.
  intros Hag Hex. pose proof Hag as (Hr & _ & _).
  unfold report_band, computing_multitaper_bandpower, computing_welch_bandpower,
    signal_getitem.
  rewrite Hr, (column_agree self s1 s2 channel Hag Hex). reflexivity.
Qed.

Lemma ratio_and_bandpower_agree density mt self s1 s2 power_dict chunk_index :
  agree_on_analysed self s1 s2 ->
  computing_ratio_and_bandpower density mt self s1 power_dict chunk_index =
  computing_ratio_and_bandpower density mt self s2 power_dict chunk_index.
Proof.
  intros Hag. pose proof Hag as (_ & Hn & _).
  unfold computing_ratio_and_bandpower. rewrite Hn.
  apply for_each_ext; intros channel u _.
  destruct (py_in channel (exclude_channel_list self)) eqn:Hex; [reflexivity|].
  apply bind_ext; intros _. apply bind_ext; intros chunk_powers.
  apply bind_ext; intros r. f_equal.
  apply for_each_ext; intros band u' _.
  apply report_band_agree; assumption.
Qed.

Lemma for_each_enumerate_ext {A S} (R : A -> A -> Prop) (body : nat * A -> S -> M S) :
  (forall i a b s, R a b -> body (i, a) s = body (i, b) s) ->
  forall l1 l2, Forall2 R l1 l2 ->
  forall start s,
    for_each (combine (seq start (length l1)) l1) body s =
    for_each (combine (seq start (length l2)) l2) body s.
Proof.
  intros Hbody l1 l2 H. induction H as [|a b l1 l2 Hab _ IH]; intros start s; [reflexivity|].
  cbn [length seq combine for_each].
  rewrite (Hbody start a b s Hab).
  apply bind_ext; intros s'. apply IH.
Qed.

(** The operator never looks at an excluded channel: two signals whose
    chunks agree on the rate, the channel count and the buffers of the
    channels that are not excluded give the same run of [__call__], that
    is, the same estimator calls, the same log lines and the same outcome,
    whatever the excluded channels hold (even if they are missing). *)
Theorem excluded_channels_are_not_read :
  forall density mt self signal1 signal2,
    Forall2 (agree_on_analysed self) signal1 signal2 ->
    __call__ density mt self signal1 = __call__ density mt self signal2.
Proof.
  intros density mt self signal1 signal2 H. unfold __call__.
  apply for_each_enumerate_ext with (R := agree_on_analysed self); [|exact H].
  intros i a b dicts Hab. cbn [fst snd].
  rewrite (welch_periodogram_agree density self a b Hab).
  apply bind_ext; intros chunk_psd. apply bind_ext; intros chunk_power.
  rewrite (ratio_and_bandpower_agree density mt self a b _ i Hab). reflexivity.
Qed.

(** The example chunk with channel 1 excluded, and the same chunk with
    other samples on channel 1. *)
Lemma excluded_channels_are_not_read_witness :
  Example.run [1%nat] (Some (qc 1 1)) [Example.chunk] =
  Example.run [1%nat] (Some (qc 1 1))
    [{| data := [Example.samples [1; 3; 1; 3; 1; 3; 1; 3];
                 Example.samples [7; 7; 9];
                 Example.samples [2; 5; 2; 5; 2; 5; 2; 5]]%Z;
        rate := qc 64 1;
        number_of_channels := 3 |}].
Proof.
  apply (excluded_channels_are_not_read Example.density Example.multitaper_psd
           (Example.operator [1%nat] (Some (qc 1 1)))).
  constructor; [|constructor].
  split; [reflexivity|]. split; [reflexivity|].
  intros channel Hex.
  destruct channel as [|[|channel]]; [reflexivity | discriminate Hex | reflexivity].
Defined.

Lemma bandpower_result density mt self m signal band channel relative :
  result (computing_bandpower density mt self m signal band channel relative) =
  match signal_getitem signal channel with
  | Raise e =>
      match m, welch_segment self signal band with
      | Welch, Raise e' => Raise e'
      | _, _ => Raise e
      end
  | Ok x =>
      match estimate density mt self signal band m x with
      | Ok c => integrate_band (fst c) (snd c) band relative
      | Raise e => Raise e
      end
  end.
Proof.
  destruct m; cbn [computing_bandpower estimate].
  - rewrite multitaper_bandpower_result.
    destruct (signal_getitem signal channel) as [x|e]; [|reflexivity].
    destruct (mt x (rate signal)) as [c|e]; reflexivity.
  - rewrite welch_bandpower_result.
    destruct (welch_segment self signal band) as [n|e];
      destruct (signal_getitem signal channel) as [x|e']; reflexivity.
Qed.

Lemma bandpower_trace_no_log density mt self m signal band channel relative l :
  ~ In (LoggerInfo l)
       (trace (computing_bandpower density mt self m signal band channel relative)).
Proof.
  destruct m; cbn [computing_bandpower].
  - rewrite multitaper_bandpower_trace.
    destruct (signal_getitem signal channel); [intros [H|[]]; discriminate H | intros []].
  - rewrite welch_bandpower_trace.
    destruct (welch_segment self signal band); [|intros []].
    destruct (signal_getitem signal channel); [intros [H|[]]; discriminate H | intros []].
Qed.

(** Each line [report_band] logs carries the value the band-power method
    of that line returned. *)
Lemma report_band_line density mt self signal channel band band' relative m v :
  In (LoggerInfo (BandPowerLine band' relative m v))
     (trace (report_band density mt self signal channel band)) ->
  band' = band /\
  result (computing_bandpower density mt self m signal band channel relative) = Ok v.
Proof.
  unfold report_band. intros H.
  crack_trace H;
    [exfalso; exact (bandpower_trace_no_log density mt self Multitaper _ _ _ _ _ H)|].
  crack_trace H;
    [exfalso; exact (bandpower_trace_no_log density mt self Multitaper _ _ _ _ _ H)|].
  crack_trace H.
  { destruct H as [H|[]]. injection H as <- <- <- <-. split; [reflexivity | exact Ha]. }
  crack_trace H.
  { destruct H as [H|[]]. injection H as <- <- <- <-. split; [reflexivity | exact Ha0]. }
  crack_trace H;
    [exfalso; exact (bandpower_trace_no_log density mt self Welch _ _ _ _ _ H)|].
  crack_trace H;
    [exfalso; exact (bandpower_trace_no_log density mt self Welch _ _ _ _ _ H)|].
  crack_trace H.
  - destruct H as [H|[]]. injection H as <- <- <- <-. split; [reflexivity | exact Ha3].
  - destruct H as [H|[]]. injection H as <- <- <- <-. split; [reflexivity | exact Ha4].
Qed.

Lemma in_enumerate_nth {A} (l : list A) :
  forall start i a,
    In (i, a) (combine (seq start (length l)) l) ->
    (start <= i)%nat /\ nth_error l (i - start) = Some a.
Proof.
  induction l as [|b l IH]; intros start i a H; [contradiction|].
  cbn [length seq combine] in H. destruct H as [H|H].
  - injection H as <- <-. rewrite Nat.sub_diag. split; [lia | reflexivity].
  - destruct (IH _ _ _ H) as (Hle & Hn). split; [lia|].
    replace (i - start)%nat with (S (i - S start)) by lia. exact Hn.
Qed.

(** The events of one chunk of [__call__]. *)
Lemma call_trace_in density mt self signal ev :
  In ev (trace (__call__ density mt self signal)) ->
  exists i piece,
    nth_error signal i = Some piece /\
    (In ev (trace (computing_welch_periodogram density self piece)) \/
     exists d p pw,
       result (computing_welch_periodogram density self piece) = Ok d /\
       result (computing_absolute_and_relative_power d) = Ok p /\
       In ev (trace (computing_ratio_and_bandpower density mt self piece
                       (dict_set pw i p) i))).
Proof.
  unfold __call__. intros H.
  apply for_each_trace_in in H. destruct H as ([idx piece] & dicts & Hpiece & H).
  cbn [fst snd] in H.
  assert (Hn : nth_error signal idx = Some piece).
  { apply in_enumerate_nth in Hpiece. rewrite Nat.sub_0_r in Hpiece. apply Hpiece. }
  exists idx, piece. split; [exact Hn|].
  crack_trace H; [left; exact H|].
  crack_trace H; [rewrite power_trace in H; contradiction|].
  crack_trace H; [|contradiction].
  right. exists a, a0, (snd dicts).
  split; [exact Ha|]. split; [exact Ha0 | exact H].
Qed.

(** The events of [computing_ratio_and_bandpower]: for an analysed channel,
    the header line, the lines of a band of [band_list], or the lines of
    the channel's stored powers. *)
Lemma ratio_trace_in density mt self signal power_dict chunk_index ev :
  In ev (trace (computing_ratio_and_bandpower density mt self signal power_dict chunk_index)) ->
  exists channel,
    In channel (analysed_channels self signal) /\
    (ev = LoggerInfo (AnalysisOf chunk_index channel) \/
     exists chunk_powers r,
       dict_get power_dict chunk_index = Some chunk_powers /\
       dict_get chunk_powers channel = Some r /\
       ((exists band, In band (band_list self) /\
                      In ev (trace (report_band density mt self signal channel band))) \/
        In ev (trace (report_canonical channel r)))).
Proof.
  unfold computing_ratio_and_bandpower. intros H.
  apply for_each_trace_in in H. destruct H as (channel & u & Hch & H).
  destruct (py_in channel (exclude_channel_list self)) eqn:Hex; [contradiction|].
  exists channel. split; [exact (in_analysed_channels _ _ _ Hch Hex)|].
  crack_trace H; [destruct H as [<-|[]]; left; reflexivity|].
  crack_trace H; [contradiction|].
  crack_trace H; [contradiction|].
  rewrite result_lift in Ha0. rewrite result_lift in Ha1.
  apply dict_item_ok in Ha0. apply dict_item_ok in Ha1.
  right. exists a0, a1. split; [exact Ha0|]. split; [exact Ha1|].
  crack_trace H.
  - apply for_each_trace_in in H. destruct H as (band & u' & Hband & H).
    left. exists band. split; [exact Hband | exact H].
  - right. exact H.
Qed.

Lemma report_band_lines density mt self signal channel band ev :
  In ev (trace (report_band density mt self signal channel band)) ->
  (exists x fs nperseg nfft, ev = WelchCall x fs nperseg nfft) \/
  (exists x fs, ev = MultitaperCall x fs) \/
  (exists relative m v, ev = LoggerInfo (BandPowerLine band relative m v)).
Proof.
  unfold report_band. intros H.
  assert (Hmt : forall relative,
             In ev (trace (computing_multitaper_bandpower mt signal band channel relative)) ->
             exists x fs, ev = MultitaperCall x fs).
  { intros relative K. rewrite multitaper_bandpower_trace in K.
    destruct (signal_getitem signal channel); [|contradiction].
    destruct K as [<-|[]]. eexists; eexists; reflexivity. }
  assert (Hw : forall relative,
             In ev (trace (computing_welch_bandpower density self signal band channel relative)) ->
             exists x fs nperseg nfft, ev = WelchCall x fs nperseg nfft).
  { intros relative K. rewrite welch_bandpower_trace in K.
    destruct (welch_segment self signal band); [|contradiction].
    destruct (signal_getitem signal channel); [|contradiction].
    destruct K as [<-|[]]. do 4 eexists; reflexivity. }
  crack_trace H; [right; left; exact (Hmt _ H)|].
  crack_trace H; [right; left; exact (Hmt _ H)|].
  crack_trace H; [destruct H as [<-|[]]; right; right; do 3 eexists; reflexivity|].
  crack_trace H; [destruct H as [<-|[]]; right; right; do 3 eexists; reflexivity|].
  crack_trace H; [left; exact (Hw _ H)|].
  crack_trace H; [left; exact (Hw _ H)|].
  crack_trace H; destruct H as [<-|[]]; right; right; do 3 eexists; reflexivity.
Qed.

Lemma report_canonical_line channel r relative name ch v :
  In (LoggerInfo (CanonicalLine relative name ch v)) (trace (report_canonical channel r)) ->
  ch = channel /\
  v = if relative then rel_power_of r name else Finite (power_of r name).
Proof.
  unfold report_canonical. intros H.
  apply for_each_trace_in in H. destruct H as (e & s & He & H).
  crack_trace H; destruct H as [H|[]]; injection H as <- <- <- <-;
    (split; [reflexivity|]);
    repeat (destruct He as [<-|He]; [reflexivity|]); destruct He.
Qed.

(** ** The log, read under its headers *)

Lemma logged_app a b : logged (a ++ b) = logged a ++ logged b.
Proof. unfold logged. apply flat_map_app. Qed.


Lemma in_logged l t : In l (logged t) <-> In (LoggerInfo l) t.
Proof.
  unfold logged. rewrite in_flat_map. split.
  - intros (ev & Hev & H). destruct ev; try contradiction.
    destruct H as [<-|[]]. exact Hev.
  - intros H. exists (LoggerInfo l). split; [exact H | left; reflexivity].
Qed.

Lemma logged_nil t : (forall l, ~ In (LoggerInfo l) t) -> logged t = [].
Proof.
  intros H. destruct (logged t) as [|l ls] eqn:E; [reflexivity|].
  exfalso. apply (H l). apply in_logged. rewrite E. left. reflexivity.
Qed.

(** An attributed line of two logs in a row is one of the first log or one
    of the second, read under some header. *)
Lemma report_from_app_in l1 l2 e :
  forall h,
    In e (welch_report_from h (l1 ++ l2)) ->
    In e (welch_report_from h l1) \/ exists h', In e (welch_report_from h' l2).
Proof.
  induction l1 as [|line l1 IH]; intros h H.
  - right. exists h. exact H.
  - destruct line as [i c | band [|] [|] v | rel name ch v];
      cbn [app welch_report_from] in H |- *; try (exact (IH _ H)).
    destruct H as [H|H]; [left; left; exact H|].
    destruct (IH _ H) as [K|K]; [left; right; exact K | right; exact K].
Qed.

(** A log without header lines is read under the header it is entered
    with. *)
Lemma report_from_plain l e :
  (forall i c, ~ In (AnalysisOf i c) l) ->
  forall h,
    In e (welch_report_from h l) ->
    exists band v, e = (h, band, v) /\ In (BandPowerLine band false Welch v) l.
Proof.
  induction l as [|line l IH]; intros Hno h H; [contradiction|].
  assert (Hno' : forall i c, ~ In (AnalysisOf i c) l)
    by (intros i c K; apply (Hno i c); right; exact K).
  destruct line as [i c | band [|] [|] v | rel name ch v];
    cbn [welch_report_from] in H.
  - exfalso. apply (Hno i c). left. reflexivity.
  - destruct (IH Hno' _ H) as (b & w & E & K). exists b, w. split; [exact E | right; exact K].
  - destruct (IH Hno' _ H) as (b & w & E & K). exists b, w. split; [exact E | right; exact K].
  - destruct (IH Hno' _ H) as (b & w & E & K). exists b, w. split; [exact E | right; exact K].
  - destruct H as [<-|H].
    + exists band, v. split; [reflexivity | left; reflexivity].
    + destruct (IH Hno' _ H) as (b & w & E & K). exists b, w. split; [exact E | right; exact K].
  - destruct (IH Hno' _ H) as (b & w & E & K). exists b, w. split; [exact E | right; exact K].
Qed.

(** Two logs in a row, the second of which is read the same under every
    header (it is empty or starts with a header of its own). *)
Lemma report_from_app_headed l1 l2 :
  (forall h1 h2, welch_report_from h1 l2 = welch_report_from h2 l2) ->
  forall h h0,
    welch_report_from h (l1 ++ l2) = welch_report_from h l1 ++ welch_report_from h0 l2.
Proof.
  intros Hh. induction l1 as [|line l1 IH]; intros h h0.
  - apply Hh.
  - destruct line as [i c | band [|] [|] v | rel name ch v];
      cbn [app welch_report_from]; try apply IH.
    rewrite (IH h h0). reflexivity.
Qed.

Lemma for_each_report_in {A S} (body : A -> S -> M S) e (xs : list A) :
  forall s h,
    In e (welch_report_from h (logged (trace (for_each xs body s)))) ->
    exists x s' h', In x xs /\ In e (welch_report_from h' (logged (trace (body x s')))).
Proof.
  induction xs as [|x xs IH]; intros s h H; [contradiction|].
  cbn [for_each] in H. rewrite trace_bind, logged_app in H.
  apply report_from_app_in in H. destruct H as [H|(h' & H)].
  - exists x, s, h. split; [left; reflexivity | exact H].
  - destruct (result (body x s)) as [s1|err]; [|contradiction].
    destruct (IH _ _ H) as (y & s2 & h2 & Hy & K).
    exists y, s2, h2. split; [right; exact Hy | exact K].
Qed.

Lemma for_each_headed {A S} (body : A -> S -> M S) (xs : list A) :
  (forall x s h1 h2, In x xs ->
      welch_report_from h1 (logged (trace (body x s))) =
      welch_report_from h2 (logged (trace (body x s)))) ->
  forall s h1 h2,
    welch_report_from h1 (logged (trace (for_each xs body s))) =
    welch_report_from h2 (logged (trace (for_each xs body s))).
Proof.
  induction xs as [|x xs IH]; intros Hb s h1 h2; [reflexivity|].
  cbn [for_each]. rewrite trace_bind, logged_app.
  assert (Hrest : forall k1 k2,
             welch_report_from k1
               (logged match result (body x s) with
                       | Ok a => trace (for_each xs body a)
                       | Raise _ => []
                       end) =
             welch_report_from k2
               (logged match result (body x s) with
                       | Ok a => trace (for_each xs body a)
                       | Raise _ => []
                       end)).
  { intros k1 k2. destruct (result (body x s)) as [s1|err]; [|reflexivity].
    apply IH. intros y s' j1 j2 Hy. apply Hb. right. exact Hy. }
  rewrite (report_from_app_headed _ _ Hrest h1 None).
  rewrite (report_from_app_headed _ _ Hrest h2 None).
  rewrite (Hb x s h1 h2) by (left; reflexivity). reflexivity.
Qed.

(** The attributed lines of a loop that returns, when every iteration
    logs a section that is read the same under every header. *)
Lemma for_each_report_keys {A S} (body : A -> S -> M S)
    (K : A -> list (option (nat * nat) * Band)) (xs : list A) :
  (forall x s h1 h2, In x xs ->
      welch_report_from h1 (logged (trace (body x s))) =
      welch_report_from h2 (logged (trace (body x s)))) ->
  (forall x s s' h, In x xs -> result (body x s) = Ok s' ->
      map fst (welch_report_from h (logged (trace (body x s)))) = K x) ->
  forall s s' h,
    result (for_each xs body s) = Ok s' ->
    map fst (welch_report_from h (logged (trace (for_each xs body s)))) = flat_map K xs.
Proof.
  induction xs as [|x xs IH]; intros Hh HK s s' h H; [reflexivity|].
  cbn [for_each] in H |- *. rewrite result_bind in H. rewrite trace_bind, logged_app.
  destruct (result (body x s)) as [s1|err] eqn:E; [|discriminate H].
  rewrite (report_from_app_headed _ (logged (trace (for_each xs body s1)))) with (h0 := None).
  - rewrite map_app. cbn [flat_map]. f_equal.
    + apply (HK x s s1 h); [left; reflexivity | exact E].
    + apply (IH (fun y s0 j1 j2 Hy => Hh y s0 j1 j2 (or_intror Hy))
                (fun y s0 s0' j Hy => HK y s0 s0' j (or_intror Hy)) s1 s' None H).
  - apply for_each_headed. intros y s0 j1 j2 Hy. apply Hh. right. exact Hy.
Qed.


Lemma logged_cons_info l t : logged (LoggerInfo l :: t) = l :: logged t.
Proof. reflexivity. Qed.

Lemma logged_multitaper_bandpower mt signal band channel relative :
  logged (trace (computing_multitaper_bandpower mt signal band channel relative)) = [].
Proof.
  rewrite multitaper_bandpower_trace. destruct (signal_getitem signal channel); reflexivity.
Qed.

Lemma logged_welch_bandpower density self signal band channel relative :
  logged (trace (computing_welch_bandpower density self signal band channel relative)) = [].
Proof.
  rewrite welch_bandpower_trace.
  destruct (welch_segment self signal band); [|reflexivity].
  destruct (signal_getitem signal channel); reflexivity.
Qed.

Lemma logged_welch_periodogram density self signal :
  logged (trace (computing_welch_periodogram density self signal)) = [].
Proof.
  apply logged_nil. intros l H. apply welch_periodogram_events in H.
  destruct H as (? & ? & ? & _ & _ & _ & H). discriminate H.
Qed.

(** The four lines of a band, when [report_band] returns. *)
Lemma report_band_log density mt self signal channel band u :
  result (report_band density mt self signal channel band) = Ok u ->
  exists a b c d,
    logged (trace (report_band density mt self signal channel band)) =
    [BandPowerLine band false Multitaper a; BandPowerLine band true Multitaper b;
     BandPowerLine band false Welch c; BandPowerLine band true Welch d].
Proof.
  unfold report_band. intros H.
  crack H. rewrite trace_bind, logged_app, Ha, logged_multitaper_bandpower.
  crack H. rewrite trace_bind, logged_app, Ha0, logged_multitaper_bandpower.
  crack H. rewrite trace_bind, logged_app, Ha1.
  crack H. rewrite trace_bind, logged_app, Ha2.
  crack H. rewrite trace_bind, logged_app, Ha3, logged_welch_bandpower.
  crack H. rewrite trace_bind, logged_app, Ha4, logged_welch_bandpower.
  crack H. rewrite trace_bind, logged_app, Ha5.
  exists a, a0, a3, a4. reflexivity.
Qed.

Lemma report_canonical_report channel r h :
  welch_report_from h (logged (trace (report_canonical channel r))) = [].
Proof. reflexivity. Qed.

(** The attributed lines of the loop over [band_list], when it returns. *)
Lemma report_bands_keys density mt self signal channel (bl : list Band) :
  forall u u' h tail,
    result (for_each bl (fun band _ => report_band density mt self signal channel band) u)
    = Ok u' ->
    map fst (welch_report_from h
               (logged (trace (for_each bl
                                 (fun band _ => report_band density mt self signal channel band)
                                 u)) ++ tail)) =
    map (fun band => (h, band)) bl ++ map fst (welch_report_from h tail).
Proof.
  induction bl as [|band bl IH]; intros u u' h tail H; [reflexivity|].
  cbn [for_each] in H |- *. rewrite result_bind in H.
  destruct (result (report_band density mt self signal channel band)) as [u1|err] eqn:E;
    [|discriminate H].
  rewrite trace_bind, E, logged_app.
  destruct (report_band_log _ _ _ _ _ _ _ E) as (a & b & c & d & L). rewrite L.
  cbn [app welch_report_from map fst]. f_equal.
  exact (IH u1 u' h tail H).
Qed.

Lemma flat_map_filter {A B} (keep : A -> bool) (f : A -> list B) (xs : list A) :
  flat_map (fun x => if keep x then f x else []) xs = flat_map f (filter keep xs).
Proof.
  induction xs as [|x xs IH]; [reflexivity|].
  cbn [flat_map filter]. destruct (keep x); cbn [flat_map app]; rewrite IH; reflexivity.
Qed.

(** The section of the log of one chunk is read the same under every
    header: every channel starts with its own header. *)
Lemma ratio_headed density mt self signal power_dict chunk_index :
  forall h1 h2,
    welch_report_from h1
      (logged (trace (computing_ratio_and_bandpower density mt self signal
                        power_dict chunk_index))) =
    welch_report_from h2
      (logged (trace (computing_ratio_and_bandpower density mt self signal
                        power_dict chunk_index))).
Proof.
  unfold computing_ratio_and_bandpower. intros h1 h2.
  apply for_each_headed. intros channel u j1 j2 _.
  destruct (py_in channel (exclude_channel_list self)); [reflexivity|].
  rewrite trace_bind. cbn [emit trace result fst snd app].
  rewrite logged_cons_info. reflexivity.
Qed.

(** The headers and bands of the absolute Welch lines of one chunk, when
    [computing_ratio_and_bandpower] returns. *)
Lemma ratio_report_keys density mt self signal power_dict chunk_index u h :
  result (computing_ratio_and_bandpower density mt self signal power_dict chunk_index)
  = Ok u ->
  map fst (welch_report_from h
             (logged (trace (computing_ratio_and_bandpower density mt self signal
                               power_dict chunk_index)))) =
  flat_map (fun channel =>
              map (fun band => (Some (chunk_index, channel), band)) (band_list self))
           (analysed_channels self signal).
Proof.
  unfold computing_ratio_and_bandpower, analysed_channels. intros H.
  rewrite <- flat_map_filter.
  refine (for_each_report_keys _
            (fun channel =>
               if negb (py_in channel (exclude_channel_list self))
               then map (fun band => (Some (chunk_index, channel), band)) (band_list self)
               else [])
            _ _ _ _ _ _ H).
  - intros channel s j1 j2 _.
    destruct (py_in channel (exclude_channel_list self)); [reflexivity|].
    rewrite trace_bind. cbn [emit trace result fst snd app].
    rewrite logged_cons_info. reflexivity.
  - intros channel s s' j _ Hb.
    destruct (py_in channel (exclude_channel_list self)); [reflexivity|].
    cbn [negb].
    crack Hb. rewrite trace_bind, Ha. cbn [emit trace fst app].
    rewrite logged_cons_info. cbn [welch_report_from].
    crack Hb. rewrite trace_bind, Ha0, trace_lift. cbn [app].
    crack Hb. rewrite trace_bind, Ha1, trace_lift. cbn [app].
    crack Hb. rewrite trace_bind, Ha2, logged_app.
    rewrite (report_bands_keys _ _ _ _ _ _ _ _ _ _ Ha2).
    rewrite report_canonical_report. cbn [map]. apply app_nil_r.
Qed.

(** Every attributed line of one chunk stands under the header of an
    analysed channel and carries what the per-band Welch computation
    returned for that channel and a band of [band_list]. *)
Lemma ratio_report_in density mt self signal power_dict chunk_index e h :
  In e (welch_report_from h
          (logged (trace (computing_ratio_and_bandpower density mt self signal
                            power_dict chunk_index)))) ->
  exists channel band v,
    e = (Some (chunk_index, channel), band, v) /\
    In channel (analysed_channels self signal) /\
    In band (band_list self) /\
    result (computing_welch_bandpower density self signal band channel false) = Ok v.
Proof.
  unfold computing_ratio_and_bandpower. intros H.
  apply for_each_report_in in H. destruct H as (channel & u & h' & Hch & H).
  destruct (py_in channel (exclude_channel_list self)) eqn:Hex; [contradiction|].
  rewrite trace_bind in H. cbn [emit trace result fst snd app] in H.
  rewrite logged_cons_info in H. cbn [welch_report_from] in H.
  match type of H with
  | In _ (welch_report_from _ (logged ?t)) => set (rest := t) in H
  end.
  assert (Hrest : forall ev, In ev rest ->
             (exists band, In band (band_list self) /\
                           In ev (trace (report_band density mt self signal channel band))) \/
             (exists r, In ev (trace (report_canonical channel r)))).
  { intros ev K. subst rest.
    crack_trace K; [contradiction|].
    crack_trace K; [contradiction|].
    crack_trace K.
    - apply for_each_trace_in in K. destruct K as (band & u' & Hband & K).
      left. exists band. split; [exact Hband | exact K].
    - right. exists a0. exact K. }
  apply report_from_plain in H.
  - destruct H as (band & v & -> & K). apply in_logged in K.
    destruct (Hrest _ K) as [(band0 & Hband & K0)|(r & K0)].
    + apply report_band_welch_line in K0. destruct K0 as (-> & Hres).
      exists channel, band0, v. split; [reflexivity|].
      split; [exact (in_analysed_channels _ _ _ Hch Hex)|].
      split; [exact Hband | exact Hres].
    + apply report_canonical_lines in K0. destruct K0 as (? & ? & ? & ? & K0). discriminate K0.
  - intros i c K. apply in_logged in K.
    destruct (Hrest _ K) as [(band0 & Hband & K0)|(r & K0)].
    + apply report_band_lines in K0.
      destruct K0 as [(? & ? & ? & ? & K0)|[(? & ? & K0)|(? & ? & ? & K0)]]; discriminate K0.
    + apply report_canonical_lines in K0. destruct K0 as (? & ? & ? & ? & K0). discriminate K0.
Qed.

(** The log of one chunk of [__call__]: the two computations of the stored
    curves and powers log nothing. *)
Lemma call_chunk_log density mt self (piece : nat * Signal)
    (dicts : dict (dict Curve) * dict (dict PowerRecord)) :
  logged (trace (chunk_psd <- computing_welch_periodogram density self (snd piece) ;;
                 chunk_power <- computing_absolute_and_relative_power chunk_psd ;;
                 computing_ratio_and_bandpower density mt self (snd piece)
                   (dict_set (snd dicts) (fst piece) chunk_power) (fst piece) ;;;
                 ret (dict_set (fst dicts) (fst piece) chunk_psd,
                      dict_set (snd dicts) (fst piece) chunk_power))) =
  match result (computing_welch_periodogram density self (snd piece)) with
  | Ok d =>
      match result (computing_absolute_and_relative_power d) with
      | Ok p =>
          logged (trace (computing_ratio_and_bandpower density mt self (snd piece)
                           (dict_set (snd dicts) (fst piece) p) (fst piece)))
      | Raise _ => []
      end
  | Raise _ => []
  end.
Proof.
  rewrite trace_bind, logged_app, logged_welch_periodogram. cbn [app].
  destruct (result (computing_welch_periodogram density self (snd piece))) as [d|err];
    [|reflexivity].
  rewrite trace_bind, power_trace. cbn [app].
  destruct (result (computing_absolute_and_relative_power d)) as [p|err]; [|reflexivity].
  rewrite trace_bind.
  destruct (result (computing_ratio_and_bandpower density mt self (snd piece)
                      (dict_set (snd dicts) (fst piece) p) (fst piece))) as [u|err];
    [|rewrite app_nil_r; reflexivity].
  cbn [ret trace fst]. rewrite app_nil_r. reflexivity.
Qed.


(** C1 (as amended).  Read the log as its reader does, every band-power
    line under the header ("Analysis of chunk i, channel c") it follows.
    Then every absolute Welch band power stands under the header of an
    analysed channel [c] of chunk [i], names a band of [band_list], and is
    the Band-Power Integrator applied to a curve of its own: the curve
    [sig.welch] returns for the samples of channel [c] of chunk [i] as they
    are, with segment length [window * rate] and the default FFT length
    (the stored curve of that channel is estimated from the mean-centred
    samples with an FFT four times as long).  When [__call__] returns there
    is exactly one such line for every chunk, analysed channel and band of
    [band_list], in this order. *)
Theorem reported_welch_power_is_of_own_curve :
  forall density mt self signal,
    (forall header band v,
        In (header, band, v) (welch_report (trace (__call__ density mt self signal))) ->
        exists i channel piece,
          header = Some (i, channel) /\
          nth_error signal i = Some piece /\
          In channel (analysed_channels self piece) /\
          In band (band_list self) /\
          own_welch_power density self piece channel band v) /\
    (forall out,
        result (__call__ density mt self signal) = Ok out ->
        map fst (welch_report (trace (__call__ density mt self signal))) =
        report_keys self signal).
Proof.
  intros density mt self signal. unfold welch_report, report_keys, __call__. split.
  - intros header band v H.
    apply for_each_report_in in H. destruct H as ([i piece] & dicts & h' & Hin & H).
    rewrite call_chunk_log in H. cbn [fst snd] in H.
    destruct (result (computing_welch_periodogram density self piece)) as [d|err] eqn:Ed;
      [|contradiction].
    destruct (result (computing_absolute_and_relative_power d)) as [p|err]; [|contradiction].
    apply ratio_report_in in H.
    destruct H as (channel & band0 & v0 & E & Hch & Hband & Hres).
    injection E as -> -> ->.
    destruct (welch_periodogram_window _ _ _ _ Ed) as (w & Hw).
    apply in_enumerate_nth in Hin. rewrite Nat.sub_0_r in Hin. destruct Hin as [_ Hn].
    exists i, channel, piece. split; [reflexivity|]. split; [exact Hn|].
    split; [exact Hch|]. split; [exact Hband|].
    rewrite welch_bandpower_result in Hres. unfold welch_segment in Hres. rewrite Hw in Hres.
    destruct (signal_getitem piece channel) as [x|err] eqn:Hx; [|discriminate Hres].
    destruct (welch density x (rate piece) (w * rate piece)%Qc None) as [c|err] eqn:Hc;
      [|discriminate Hres].
    exists w, x, c. split; [exact Hw|]. split; [exact Hx|]. split; [exact Hc|].
    apply integrate_band_spec. exact Hres.
  - intros out H.
    refine (for_each_report_keys _
              (fun piece =>
                 flat_map (fun channel =>
                             map (fun band => (Some (fst piece, channel), band))
                                 (band_list self))
                          (analysed_channels self (snd piece)))
              _ _ _ _ _ _ H).
    + intros piece dicts h1 h2 _. rewrite call_chunk_log.
      destruct (result (computing_welch_periodogram density self (snd piece))) as [d|err];
        [|reflexivity].
      destruct (result (computing_absolute_and_relative_power d)) as [p|err]; [|reflexivity].
      apply ratio_headed.
    + intros piece dicts dicts' h _ Hb. rewrite call_chunk_log.
      cbn beta zeta in Hb. crack Hb. crack Hb. crack Hb. rewrite Ha, Ha0.
      exact (ratio_report_keys _ _ _ _ _ _ _ _ Ha1).
Qed.

(** The example chunk with channel 1 excluded: the line under the header of
    channel 2 is integrated over the curve of the samples of channel 2. *)
Lemma reported_welch_power_witness :
  exists i channel piece,
    Some (0%nat, 2%nat) = Some (i, channel) /\
    nth_error [Example.chunk] i = Some piece /\
    In channel (analysed_channels (Example.operator [1%nat] (Some (qc 1 1))) piece) /\
    In (qc 8 1, qc 32 1) (band_list (Example.operator [1%nat] (Some (qc 1 1)))) /\
    own_welch_power Example.density (Example.operator [1%nat] (Some (qc 1 1)))
                    piece channel (qc 8 1, qc 32 1) (Finite (qc 2784 1)).
Proof.
  apply (proj1 (reported_welch_power_is_of_own_curve
                  Example.density Example.multitaper_psd
                  (Example.operator [1%nat] (Some (qc 1 1))) [Example.chunk])).
  match goal with
  | |- In ?e ?r => let t := eval vm_compute in r in change (In e t)
  end.
  right. left. reflexivity.
Defined.

(** C1, counterexample: the example chunk (eight samples at 64 Hz, channels
    1 and 2 excluded, window of one second), whatever the estimators
    compute.  The run calls [sig.welch] three times for channel 0: once for
    the stored curve, on the mean-centred samples with an FFT of 256
    points, and twice for the reported band powers, on the samples as they
    are with the default FFT length.  The stored curve has 129 bins,
    1/4 Hz apart; the curve the reported power is integrated over has 5
    bins, 8 Hz apart. *)
Lemma reported_welch_power_counterexample :
  (forall density,
      welch_calls (trace (__call__ density Example.multitaper_psd
                            (Example.operator [1%nat; 2%nat] (Some (qc 1 1)))
                            [Example.chunk])) =
      [(Example.samples [-1; 1; -1; 1; -1; 1; -1; 1]%Z, qc 64 1, qc 64 1, Some (qc 256 1));
       (Example.samples [1; 3; 1; 3; 1; 3; 1; 3]%Z, qc 64 1, qc 64 1, None);
       (Example.samples [1; 3; 1; 3; 1; 3; 1; 3]%Z, qc 64 1, qc 64 1, None)]) /\
  (forall density,
      exists d c0 c,
        result (computing_welch_periodogram density
                  (Example.operator [1%nat; 2%nat] (Some (qc 1 1))) Example.chunk) = Ok d /\
        dict_get d 0 = Some c0 /\
        freqs c0 = rfftfreq 256 (qc 64 1) /\
        length (freqs c0) = 129%nat /\
        freq_res_of (freqs c0) = Ok (qc 1 4) /\
        welch density (Example.samples [1; 3; 1; 3; 1; 3; 1; 3]%Z)
              (qc 64 1) (qc 1 1 * qc 64 1)%Qc None = Ok c /\
        fst c = rfftfreq 8 (qc 64 1) /\
        length (fst c) = 5%nat /\
        freq_res_of (fst c) = Ok (qc 8 1)).
Proof.
  split.
  - intros density. vm_compute. reflexivity.
  - intros density. do 3 eexists.
    split; [vm_compute; reflexivity|].
    split; [vm_compute; reflexivity|].
    split; [vm_compute; reflexivity|].
    split; [vm_compute; reflexivity|].
    split; [vm_compute; reflexivity|].
    split; [vm_compute; reflexivity|].
    split; [vm_compute; reflexivity|].
    split; vm_compute; reflexivity.
Qed.

(** ** What the log lines carry *)

(** Every band-power line [__call__] logs, of either method, absolute or
    relative, carries the outcome of the integration steps on the curve the
    method's estimator returned for the samples, as they are, of an
    analysed channel of some chunk; the band is one of [band_list].  For
    the multitaper method the estimator returns the densities first and the
    frequency axis second. *)
Theorem reported_band_powers :
  forall density mt self signal band relative m v,
    In (LoggerInfo (BandPowerLine band relative m v))
       (trace (__call__ density mt self signal)) ->
    exists piece channel x c,
      In piece signal /\
      In channel (analysed_channels self piece) /\
      In band (band_list self) /\
      signal_getitem piece channel = Ok x /\
      estimate density mt self piece band m x = Ok c /\
      integrate_band (fst c) (snd c) band relative = Ok v.
Proof.
  intros density mt self signal band relative m v H.
  apply call_trace_in in H. destruct H as (i & piece & Hn & H).
  destruct H as [H|(d & p & pw & _ & _ & H)].
  { apply welch_periodogram_events in H.
    destruct H as (? & ? & ? & _ & _ & _ & H). discriminate H. }
  apply ratio_trace_in in H. destruct H as (channel & Hch & H).
  destruct H as [H|(cp & r & _ & _ & H)]; [discriminate H|].
  destruct H as [(band0 & Hband & H)|H].
  - apply report_band_line in H. destruct H as (-> & Hres).
    rewrite bandpower_result in Hres.
    destruct (signal_getitem piece channel) as [x|e] eqn:Hx.
    + destruct (estimate density mt self piece band0 m x) as [c|e] eqn:Hc;
        [|discriminate Hres].
      exists piece, channel, x, c.
      split; [exact (nth_error_In _ _ Hn)|]. split; [exact Hch|].
      split; [exact Hband|]. split; [exact Hx|]. split; [exact Hc | exact Hres].
    + destruct m; [discriminate Hres|].
      destruct (welch_segment self piece band0); discriminate Hres.
  - apply report_canonical_lines in H. destruct H as (? & ? & ? & ? & H). discriminate H.
Qed.

Lemma reported_band_powers_witness :
  exists piece channel x c,
    In piece [Example.chunk] /\
    In channel (analysed_channels (Example.operator [1%nat] (Some (qc 1 1))) piece) /\
    In (qc 8 1, qc 32 1) (band_list (Example.operator [1%nat] (Some (qc 1 1)))) /\
    signal_getitem piece channel = Ok x /\
    estimate Example.density Example.multitaper_psd
             (Example.operator [1%nat] (Some (qc 1 1))) piece (qc 8 1, qc 32 1)
             Multitaper x = Ok c /\
    integrate_band (fst c) (snd c) (qc 8 1, qc 32 1) false = Ok (Finite (qc 960 1)).
Proof.
  apply (reported_band_powers Example.density Example.multitaper_psd
           (Example.operator [1%nat] (Some (qc 1 1))) [Example.chunk]
           (qc 8 1, qc 32 1) false Multitaper (Finite (qc 960 1))).
  match goal with
  | |- In ?ev (trace ?m) =>
      let t := eval vm_compute in (trace m) in
      change (In ev t)
  end.
  do 5 right. left. reflexivity.
Defined.

(** Every line about the stored powers of a channel ("Absolute/Relative
    <band> power (Welch) of channel <n>") that [__call__] logs carries the
    entry of the power record computed, for an analysed channel of some
    chunk, from that channel's stored Welch curve: the Simpson integral of
    the band for an absolute line, its quotient by the total power for a
    relative one. *)
Theorem canonical_lines_report_stored_powers :
  forall density mt self signal relative name channel v,
    In (LoggerInfo (CanonicalLine relative name channel v))
       (trace (__call__ density mt self signal)) ->
    exists piece d p c r,
      In piece signal /\
      In channel (analysed_channels self piece) /\
      result (computing_welch_periodogram density self piece) = Ok d /\
      result (computing_absolute_and_relative_power d) = Ok p /\
      dict_get d channel = Some c /\
      dict_get p channel = Some r /\
      record_of_curve c r /\
      v = if relative then rel_power_of r name else Finite (power_of r name).
Proof.
  intros density mt self signal relative name channel v H.
  apply call_trace_in in H. destruct H as (i & piece & Hn & H).
  destruct H as [H|(d & p & pw & Hd & Hp & H)].
  { apply welch_periodogram_events in H.
    destruct H as (? & ? & ? & _ & _ & _ & H). discriminate H. }
  apply ratio_trace_in in H. destruct H as (ch & Hch & H).
  destruct H as [H|(cp & r & Hcp & Hr & H)]; [discriminate H|].
  rewrite dict_get_set_eq in Hcp. injection Hcp as <-.
  destruct H as [(band & _ & H)|H].
  { apply report_band_lines in H.
    destruct H as [(? & ? & ? & ? & H)|[(? & ? & H)|(? & ? & ? & H)]]; discriminate H. }
  apply report_canonical_line in H. destruct H as (-> & Hv).
  assert (Hkey : In ch (dict_keys d)).
  { rewrite (welch_periodogram_keys _ _ _ _ Hd). exact Hch. }
  destruct (dict_get_in_keys _ _ Hkey) as (c & Hc).
  destruct (power_of_returned d p Hp ch c Hc) as (r' & Hr' & Hrec).
  assert (r' = r) by congruence. subst r'.
  exists piece, d, p, c, r.
  split; [exact (nth_error_In _ _ Hn)|]. split; [exact Hch|].
  split; [exact Hd|]. split; [exact Hp|]. split; [exact Hc|].
  split; [exact Hr|]. split; [exact Hrec | exact Hv].
Qed.

Lemma canonical_lines_report_stored_powers_witness :
  exists piece d p c r,
    In piece [Example.chunk] /\
    In 0%nat (analysed_channels (Example.operator [1%nat] (Some (qc 1 1))) piece) /\
    result (computing_welch_periodogram Example.density
              (Example.operator [1%nat] (Some (qc 1 1))) piece) = Ok d /\
    result (computing_absolute_and_relative_power d) = Ok p /\
    dict_get d 0 = Some c /\
    dict_get p 0 = Some r /\
    record_of_curve c r /\
    Finite (qc 28 1) = Finite (power_of r delta).
Proof.
  apply (canonical_lines_report_stored_powers Example.density Example.multitaper_psd
           (Example.operator [1%nat] (Some (qc 1 1))) [Example.chunk]
           false delta 0%nat (Finite (qc 28 1))).
  match goal with
  | |- In ?ev (trace ?m) =>
      let t := eval vm_compute in (trace m) in
      change (In ev t)
  end.
  do 11 right. left. do 3 f_equal. apply Qc_is_canon. reflexivity.
Defined.

(** ** Absolute and relative band power *)

Lemma integrate_band_absolute_relative fr ps band a :
  integrate_band fr ps band false = Ok a ->
  exists bp total,
    a = Finite bp /\
    total_power {| freqs := fr; psd := ps |} = Ok total /\
    integrate_band fr ps band true = Ok (np_true_divide bp total).
Proof.
  unfold integrate_band, total_power. cbn [freqs psd].
  destruct (freq_res_of fr) as [dx|e]; [|discriminate].
  destruct (simpson_masked ps (band_idx fr band) dx) as [bp|e] eqn:E; [|discriminate].
  intros H. apply Ok_inj in H. subst a.
  apply simpson_masked_ok in E. destruct E as [Hlen Hin].
  destruct (simpson_returns ps dx) as (total & Ht).
  { intros ->. destruct (band_idx fr band); [contradiction | discriminate Hlen]. }
  exists bp, total. rewrite Ht. repeat split.
Qed.

Lemma integrate_band_relative_absolute fr ps band v :
  integrate_band fr ps band true = Ok v ->
  exists bp total,
    integrate_band fr ps band false = Ok (Finite bp) /\
    total_power {| freqs := fr; psd := ps |} = Ok total /\
    v = np_true_divide bp total.
Proof.
  unfold integrate_band, total_power. cbn [freqs psd].
  destruct (freq_res_of fr) as [dx|e]; [|discriminate].
  destruct (simpson_masked ps (band_idx fr band) dx) as [bp|e]; [|discriminate].
  destruct (simpson ps dx) as [total|e]; [|discriminate].
  intros H. apply Ok_inj in H. subst v. exists bp, total. repeat split.
Qed.

(** The two calls [report_band] makes of a band-power method stand or fall
    together: the relative computation returns exactly when the absolute
    one does (the total power of a curve with a selected bin can always be
    integrated), and its value is NumPy's quotient of the absolute band
    power by the total power of the same curve, the curve the method's
    estimator returns for the samples of the channel. *)
Theorem relative_power_follows_absolute :
  forall density mt self m signal band channel,
    (forall a,
        result (computing_bandpower density mt self m signal band channel false) = Ok a ->
        exists x c bp total,
          signal_getitem signal channel = Ok x /\
          estimate density mt self signal band m x = Ok c /\
          total_power {| freqs := fst c; psd := snd c |} = Ok total /\
          a = Finite bp /\
          result (computing_bandpower density mt self m signal band channel true)
          = Ok (np_true_divide bp total)) /\
    (forall v,
        result (computing_bandpower density mt self m signal band channel true) = Ok v ->
        exists x c bp total,
          signal_getitem signal channel = Ok x /\
          estimate density mt self signal band m x = Ok c /\
          total_power {| freqs := fst c; psd := snd c |} = Ok total /\
          result (computing_bandpower density mt self m signal band channel false)
          = Ok (Finite bp) /\
          v = np_true_divide bp total).
Proof.
  intros density mt self m signal band channel. split.
  - intros a H. rewrite bandpower_result in H |- *.
    destruct (signal_getitem signal channel) as [x|e].
    + destruct (estimate density mt self signal band m x) as [c|e] eqn:Hc; [|discriminate H].
      destruct (integrate_band_absolute_relative _ _ _ _ H) as (bp & total & Ha & Ht & Hr).
      exists x, c, bp, total.
      split; [reflexivity|]. split; [exact Hc|]. split; [exact Ht|].
      split; [exact Ha | exact Hr].
    + destruct m; [discriminate H|].
      destruct (welch_segment self signal band); discriminate H.
  - intros v H. rewrite bandpower_result in H |- *.
    destruct (signal_getitem signal channel) as [x|e].
    + destruct (estimate density mt self signal band m x) as [c|e] eqn:Hc; [|discriminate H].
      destruct (integrate_band_relative_absolute _ _ _ _ H) as (bp & total & Ha & Ht & Hr).
      exists x, c, bp, total.
      split; [reflexivity|]. split; [exact Hc|]. split; [exact Ht|].
      split; [exact Ha | exact Hr].
    + destruct m; [discriminate H|].
      destruct (welch_segment self signal band); discriminate H.
Qed.

Lemma relative_power_follows_absolute_witness :
  exists x c bp total,
    signal_getitem Example.chunk 0 = Ok x /\
    estimate Example.density Example.multitaper_psd
             (Example.operator [] (Some (qc 1 1))) Example.chunk (qc 8 1, qc 32 1)
             Welch x = Ok c /\
    total_power {| freqs := fst c; psd := snd c |} = Ok total /\
    Finite (qc 960 1) = Finite bp /\
    result (computing_bandpower Example.density Example.multitaper_psd
              (Example.operator [] (Some (qc 1 1))) Welch Example.chunk
              (qc 8 1, qc 32 1) 0 true)
    = Ok (np_true_divide bp total).
Proof.
  apply (proj1 (relative_power_follows_absolute Example.density Example.multitaper_psd
                  (Example.operator [] (Some (qc 1 1))) Welch Example.chunk
                  (qc 8 1, qc 32 1) 0%nat)).
  vm_compute. reflexivity.
Defined.

(** ** A missing power record *)

(** A loop over a list whose first kept element stops the loop. *)
Lemma for_each_first_stop {A S} (body : A -> S -> M S) (keep : A -> bool)
    (x : A) (t : list event) (e : exn) :
  forall xs rest,
    filter keep xs = x :: rest ->
    (forall y s, keep y = false -> body y s = ret s) ->
    (forall s, body x s = (t, Raise e)) ->
    forall s, for_each xs body s = (t, Raise e).
Proof.
  induction xs as [|y xs IH]; intros rest Hf Hskip Hx s; [discriminate Hf|].
  cbn [filter] in Hf. cbn [for_each].
  destruct (keep y) eqn:Ey.
  - injection Hf as -> _. rewrite Hx. reflexivity.
  - rewrite (Hskip y s Ey). unfold ret. cbn [bind].
    rewrite (IH rest Hf Hskip Hx s). reflexivity.
Qed.

(** [computing_ratio_and_bandpower] on a power mapping that has no record
    for the first analysed channel of the chunk (no entry for the chunk, or
    none for the channel in it): the header line of that channel is logged,
    then the lookup fails with [KeyError]; no estimator is called. *)
Theorem ratio_missing_record_is_key_error :
  forall density mt self signal power_dict chunk_index channel rest,
    analysed_channels self signal = channel :: rest ->
    (forall p, dict_get power_dict chunk_index = Some p -> dict_get p channel = None) ->
    computing_ratio_and_bandpower density mt self signal power_dict chunk_index
    = ([LoggerInfo (AnalysisOf chunk_index channel)], Raise KeyError).
Proof.
  intros density mt self signal power_dict chunk_index channel rest Hfirst Hmiss.
  unfold computing_ratio_and_bandpower.
  apply for_each_first_stop
    with (keep := fun c => negb (py_in c (exclude_channel_list self)))
         (x := channel) (rest := rest).
  - exact Hfirst.
  - intros y s Hy. apply negb_false_iff in Hy. rewrite Hy. destruct s. reflexivity.
  - intros s.
    assert (Hin : In channel (analysed_channels self signal))
      by (rewrite Hfirst; left; reflexivity).
    apply analysed_channels_in in Hin. destruct Hin as [_ Hex]. rewrite Hex.
    unfold dict_item, emit, lift.
    destruct (dict_get power_dict chunk_index) as [p|] eqn:Hp; [|reflexivity].
    cbn [bind app]. rewrite (Hmiss p eq_refl). reflexivity.
Qed.

Lemma ratio_missing_record_witness :
  computing_ratio_and_bandpower Example.density Example.multitaper_psd
    (Example.operator [0%nat] (Some (qc 1 1))) Example.chunk [] 3
  = ([LoggerInfo (AnalysisOf 3 1)], Raise KeyError).
Proof.
  apply (ratio_missing_record_is_key_error Example.density Example.multitaper_psd
           (Example.operator [0%nat] (Some (qc 1 1))) Example.chunk [] 3%nat 1%nat [2%nat]).
  - reflexivity.
  - intros p Hp. discriminate Hp.
Defined.

(** ** Header lines *)

(** Every header line ("Analysis of chunk <i>, channel <n>") that
    [__call__] logs names a chunk of the signal and a channel that chunk is
    analysed on: no line is logged for an excluded channel. *)
Theorem header_lines_name_analysed_channels :
  forall density mt self signal chunk channel,
    In (LoggerInfo (AnalysisOf chunk channel)) (trace (__call__ density mt self signal)) ->
    exists piece,
      nth_error signal chunk = Some piece /\
      In channel (analysed_channels self piece) /\
      ~ In channel (exclude_channel_list self).
Proof.
  intros density mt self signal chunk channel H.
  apply call_trace_in in H. destruct H as (i & piece & Hn & H).
  destruct H as [H|(d & p & pw & _ & _ & H)].
  { apply welch_periodogram_events in H.
    destruct H as (? & ? & ? & _ & _ & _ & H). discriminate H. }
  apply ratio_trace_in in H. destruct H as (ch & Hch & H).
  destruct H as [H|(cp & r & _ & _ & H)].
  - injection H as -> ->. exists piece. split; [exact Hn|]. split; [exact Hch|].
    apply analysed_channels_spec in Hch. apply Hch.
  - destruct H as [(band & _ & H)|H].
    + apply report_band_lines in H.
      destruct H as [(? & ? & ? & ? & H)|[(? & ? & H)|(? & ? & ? & H)]]; discriminate H.
    + apply report_canonical_lines in H. destruct H as (? & ? & ? & ? & H). discriminate H.
Qed.

Lemma header_lines_witness :
  exists piece,
    nth_error [Example.chunk; Example.chunk] 1 = Some piece /\
    In 2%nat (analysed_channels (Example.operator [1%nat] (Some (qc 1 1))) piece) /\
    ~ In 2%nat (exclude_channel_list (Example.operator [1%nat] (Some (qc 1 1)))).
Proof.
  apply (header_lines_name_analysed_channels Example.density Example.multitaper_psd
           (Example.operator [1%nat] (Some (qc 1 1))) [Example.chunk; Example.chunk]
           1%nat 2%nat).
  match goal with
  | |- In ?ev (trace ?m) =>
      let t := eval vm_compute in (trace m) in
      change (In ev t)
  end.
  repeat (first [left; reflexivity | right]).
Defined.

(** ** Counting interactions *)

Lemma count_kind_app k a b :
  count_kind k (a ++ b) = (count_kind k a + count_kind k b)%nat.
Proof. unfold count_kind. rewrite filter_app, length_app. reflexivity. Qed.

Lemma count_kind_bind {A B} k (m : M A) (f : A -> M B) :
  count_kind k (trace (bind m f)) =
  (count_kind k (trace m) +
   match result m with Ok a => count_kind k (trace (f a)) | Raise _ => 0 end)%nat.
Proof.
  rewrite trace_bind, count_kind_app. destruct (result m); reflexivity.
Qed.

(** A loop that returned has spent the sum of what its iterations spend. *)
Lemma for_each_count {A S} k (body : A -> S -> M S) (w : A -> nat) (xs : list A) :
  (forall x s s2, In x xs -> result (body x s) = Ok s2 ->
                  count_kind k (trace (body x s)) = w x) ->
  forall s s', result (for_each xs body s) = Ok s' ->
  count_kind k (trace (for_each xs body s)) = list_sum (map w xs).
Proof.
  induction xs as [|x xs IH]; intros Hw s s' H; [reflexivity|].
  cbn [for_each] in *. rewrite count_kind_bind.
  rewrite result_bind in H.
  destruct (result (body x s)) as [s1|e] eqn:E; [|discriminate H].
  rewrite (Hw x s s1 (or_introl eq_refl) E).
  rewrite (IH (fun y t t2 Hy => Hw y t t2 (or_intror Hy)) s1 s' H).
  reflexivity.
Qed.

Lemma list_sum_filter {A} (keep : A -> bool) (c : nat) (xs : list A) :
  list_sum (map (fun x => if keep x then c else 0%nat) xs) = (c * length (filter keep xs))%nat.
Proof.
  induction xs as [|x xs IH]; [simpl; lia|].
  cbn [map filter]. change (list_sum (?a :: ?l)) with (a + list_sum l)%nat.
  rewrite IH. destruct (keep x); cbn [length]; lia.
Qed.

Lemma list_sum_const {A} (c : nat) (xs : list A) :
  list_sum (map (fun _ => c) xs) = (c * length xs)%nat.
Proof.
  induction xs as [|x xs IH]; [simpl; lia|].
  cbn [map length]. change (list_sum (?a :: ?l)) with (a + list_sum l)%nat. lia.
Qed.

Lemma list_sum_enumerate {A} (w : A -> nat) (l : list A) :
  forall start,
    list_sum (map (fun p : nat * A => w (snd p)) (combine (seq start (length l)) l)) =
    list_sum (map w l).
Proof.
  induction l as [|a l IH]; intros start; [reflexivity|].
  cbn [length seq combine map snd].
  change (list_sum (?a :: ?l)) with (a + list_sum l)%nat.
  rewrite IH. reflexivity.
Qed.

Lemma welch_periodogram_count density self signal d k :
  result (computing_welch_periodogram density self signal) = Ok d ->
  count_kind k (trace (computing_welch_periodogram density self signal)) =
  ((if kind_eqb EstimateWelch k then 1 else 0) * length (analysed_channels self signal))%nat.
Proof.
  unfold computing_welch_periodogram, analysed_channels. intros H.
  rewrite count_kind_bind, trace_lift. crack H. rewrite Ha. cbn [count_kind filter length plus].
  rewrite <- list_sum_filter.
  apply (for_each_count k _ _ _) with (s' := d); [|exact H].
  intros x s s2 _ Hbody.
  destruct (py_in x (exclude_channel_list self)); [reflexivity|]. cbn [negb].
  crack Hbody. rewrite count_kind_bind, trace_lift, Ha0. cbn [count_kind filter length plus].
  crack Hbody. rewrite count_kind_bind, Ha1.
  unfold sig_welch at 1. rewrite trace_bind. cbn [emit trace result fst snd app].
  rewrite trace_lift. cbn [app].
  destruct k; reflexivity.
Qed.

(** A band-power method that returned has called its estimator once. *)
Lemma multitaper_bandpower_count mt signal band channel relative v k :
  result (computing_multitaper_bandpower mt signal band channel relative) = Ok v ->
  count_kind k (trace (computing_multitaper_bandpower mt signal band channel relative)) =
  if kind_eqb EstimateMultitaper k then 1%nat else 0%nat.
Proof.
  intros H. rewrite multitaper_bandpower_result in H. rewrite multitaper_bandpower_trace.
  destruct (signal_getitem signal channel); [|discriminate H].
  destruct k; reflexivity.
Qed.

Lemma welch_bandpower_count density self signal band channel relative v k :
  result (computing_welch_bandpower density self signal band channel relative) = Ok v ->
  count_kind k (trace (computing_welch_bandpower density self signal band channel relative)) =
  if kind_eqb EstimateWelch k then 1%nat else 0%nat.
Proof.
  intros H. rewrite welch_bandpower_result in H. rewrite welch_bandpower_trace.
  destruct (welch_segment self signal band); [|discriminate H].
  destruct (signal_getitem signal channel); [|discriminate H].
  destruct k; reflexivity.
Qed.

Lemma report_band_count density mt self signal channel band u k :
  result (report_band density mt self signal channel band) = Ok u ->
  count_kind k (trace (report_band density mt self signal channel band)) =
  match k with EstimateWelch => 2%nat | EstimateMultitaper => 2%nat | LogLine => 4%nat end.
Proof.
  unfold report_band. intros H.
  crack H. rewrite count_kind_bind, Ha, (multitaper_bandpower_count _ _ _ _ _ _ k Ha).
  crack H. rewrite count_kind_bind, Ha0, (multitaper_bandpower_count _ _ _ _ _ _ k Ha0).
  crack H. rewrite count_kind_bind, Ha1.
  crack H. rewrite count_kind_bind, Ha2.
  crack H. rewrite count_kind_bind, Ha3, (welch_bandpower_count _ _ _ _ _ _ _ k Ha3).
  crack H. rewrite count_kind_bind, Ha4, (welch_bandpower_count _ _ _ _ _ _ _ k Ha4).
  crack H. rewrite count_kind_bind, Ha5.
  destruct k; reflexivity.
Qed.

Lemma report_canonical_count channel r k :
  count_kind k (trace (report_canonical channel r)) =
  match k with LogLine => 10%nat | _ => 0%nat end.
Proof. destruct k; reflexivity. Qed.

Lemma ratio_and_bandpower_count density mt self signal power_dict chunk_index u k :
  result (computing_ratio_and_bandpower density mt self signal power_dict chunk_index) = Ok u ->
  count_kind k (trace (computing_ratio_and_bandpower density mt self signal
                         power_dict chunk_index)) =
  ((channel_cost (length (band_list self)) k - (if kind_eqb EstimateWelch k then 1 else 0))
   * length (analysed_channels self signal))%nat.
Proof.
  unfold computing_ratio_and_bandpower, analysed_channels. intros H.
  rewrite <- list_sum_filter.
  apply (for_each_count k _ _ _) with (s' := u); [|exact H].
  intros x s s2 _ Hbody.
  destruct (py_in x (exclude_channel_list self)); [reflexivity|]. cbn [negb].
  crack Hbody. rewrite count_kind_bind, Ha.
  crack Hbody. rewrite count_kind_bind, trace_lift, Ha0.
  crack Hbody. rewrite count_kind_bind, trace_lift, Ha1.
  crack Hbody. rewrite count_kind_bind, Ha2.
  rewrite report_canonical_count.
  rewrite (for_each_count k _
             (fun _ => match k with EstimateWelch => 2%nat | EstimateMultitaper => 2%nat
                                  | LogLine => 4%nat end) _) with (s' := a2); [| |exact Ha2].
  - rewrite list_sum_const. destruct k; cbn; lia.
  - intros band t t2 _ Hb. exact (report_band_count _ _ _ _ _ _ _ k Hb).
Qed.

(** The cost of a run of [__call__] that returns: on every chunk, every
    analysed channel costs one Welch estimate for the stored curve plus two
    per band of [band_list], two multitaper estimates per band, and
    [11 + 4 * len(band_list)] log lines. *)
Theorem run_cost :
  forall density mt self signal out,
    result (__call__ density mt self signal) = Ok out ->
    forall k,
      count_kind k (trace (__call__ density mt self signal)) =
      list_sum (map (fun piece => (channel_cost (length (band_list self)) k *
                                   length (analysed_channels self piece))%nat) signal).
Proof.
  intros density mt self signal out H k. unfold __call__ in *.
  rewrite (for_each_count k _
             (fun piece : nat * Signal =>
                (channel_cost (length (band_list self)) k *
                 length (analysed_channels self (snd piece)))%nat) _) with (s' := out);
    [| |exact H].
  - apply list_sum_enumerate with
      (w := fun piece => (channel_cost (length (band_list self)) k *
                          length (analysed_channels self piece))%nat).
  - intros [idx piece] s s2 _ Hbody. cbn [fst snd] in *.
    crack Hbody. rewrite count_kind_bind, Ha.
    rewrite (welch_periodogram_count _ _ _ _ k Ha).
    crack Hbody. rewrite count_kind_bind, power_trace, Ha0.
    crack Hbody. rewrite count_kind_bind, Ha1.
    rewrite (ratio_and_bandpower_count _ _ _ _ _ _ _ k Ha1).
    destruct k; cbn; lia.
Qed.

(** The example chunk twice with channel 1 excluded and one band: two
    analysed channels per chunk. *)
Lemma run_cost_witness :
  count_kind EstimateWelch
    (trace (Example.run [1%nat] (Some (qc 1 1)) [Example.chunk; Example.chunk])) = 12%nat /\
  count_kind EstimateMultitaper
    (trace (Example.run [1%nat] (Some (qc 1 1)) [Example.chunk; Example.chunk])) = 8%nat /\
  count_kind LogLine
    (trace (Example.run [1%nat] (Some (qc 1 1)) [Example.chunk; Example.chunk])) = 60%nat.
Proof.
  destruct (result (Example.run [1%nat] (Some (qc 1 1)) [Example.chunk; Example.chunk]))
    as [out|e] eqn:E; [|vm_compute in E; discriminate E].
  pose proof (run_cost Example.density Example.multitaper_psd
                (Example.operator [1%nat] (Some (qc 1 1)))
                [Example.chunk; Example.chunk] out E) as K.
  split; [exact (K EstimateWelch) | split; [exact (K EstimateMultitaper) | exact (K LogLine)]].
Defined.

(** ** Where a power record comes from *)

Lemma power_record_origin psd_dict power :
  result (computing_absolute_and_relative_power psd_dict) = Ok power ->
  forall channel r, dict_get power channel = Some r ->
  exists c, dict_get psd_dict channel = Some c /\ record_of_curve c r.
Proof.
  intros H. unfold computing_absolute_and_relative_power in H.
  refine (for_each_invariant
            (fun (done : list nat) (power : dict PowerRecord) =>
               forall channel r, dict_get power channel = Some r ->
               exists c, dict_get psd_dict channel = Some c /\ record_of_curve c r)
            _ _ _ _ _ _ H).
  - intros channel r Hr. discriminate Hr.
  - intros done x rest s1 s2 _ HI Hbody channel r Hr.
    do 8 crack Hbody. apply Ok_inj in Hbody. subst s2.
    rewrite result_lift in *.
    destruct (Nat.eq_dec x channel) as [->|Hne].
    + rewrite dict_get_set_eq in Hr. injection Hr as <-.
      apply dict_item_ok in Ha. exists a. split; [exact Ha|].
      exists a0, a6. split; [exact Ha0|]. split; [exact Ha6|].
      intros [| | | |]; cbn [idx_of power_of rel_power_of idx_delta idx_theta idx_alpha
        idx_beta idx_gamma delta_power theta_power alpha_power beta_power gamma_power
        delta_rel_power theta_rel_power alpha_rel_power beta_rel_power gamma_rel_power];
        (split; [reflexivity|]; split; [assumption | reflexivity]).
    + rewrite dict_get_set_ne in Hr by exact Hne. exact (HI channel r Hr).
Qed.

(** ** Non-negative densities *)

Lemma nonneg_rev y : nonneg y -> nonneg (rev y).
Proof. apply Forall_rev. Qed.

(** Simpson's rule as SciPy applies it has no negative total weight: over
    non-negative samples with a non-negative spacing it is non-negative. *)
Lemma simpson_nonneg y dx v :
  nonneg y -> (0 <= dx)%Qc -> simpson y dx = Ok v -> (0 <= v)%Qc.
Proof.
  intros Hn Hdx H.
  pose proof (basic_simpson_sum_nonneg y Hn) as HB.
  unfold simpson in H.
  destruct (Nat.even (length y)) eqn:Ev.
  - pose proof (nonneg_rev y Hn) as Hr.
    destruct (rev y) as [|a [|b [|c r]]] eqn:E.
    + discriminate H.
    + apply Ok_inj in H. subst v. qc_norm.
      setoid_replace (/ (3 # 1))%Q with (1 # 3)%Q by reflexivity. nra.
    + inversion Hr as [|? ? Pa Hr1]; subst. inversion Hr1 as [|? ? Pb _]; subst.
      apply Ok_inj in H. subst v. qc_norm. nra.
    + rewrite last_interval_term in H. apply Ok_inj in H. subst v.
      pose proof (basic_simpson_sum_tail y a b c r Hn Ev E) as HT.
      inversion Hr as [|? ? Pa Hr1]; subst. inversion Hr1 as [|? ? Pb Hr2]; subst.
      inversion Hr2 as [|? ? Pc _]; subst.
      qc_norm. setoid_replace (/ (3 # 1))%Q with (1 # 3)%Q by reflexivity.
      set (B := this (basic_simpson_sum y)) in *.
      assert (K : (0 <= B * (1 # 3) + ((5 # 12) * a + (2 # 3) * b - (1 # 12) * c))%Q) by lra.
      nra.
  - apply Ok_inj in H. subst v. qc_norm.
    setoid_replace (/ (3 # 1))%Q with (1 # 3)%Q by reflexivity. nra.
Qed.

Lemma select_nonneg (a : list Qc) (idx : list bool) :
  nonneg a -> nonneg (map fst (filter snd (combine a idx))).
Proof.
  intros H. apply Forall_forall. intros v Hv. apply select_in in Hv.
  unfold nonneg in H. rewrite Forall_forall in H. exact (H v Hv).
Qed.

Lemma simpson_masked_nonneg psd idx dx v :
  nonneg psd -> (0 <= dx)%Qc -> simpson_masked psd idx dx = Ok v -> (0 <= v)%Qc.
Proof.
  intros Hn Hdx. unfold simpson_masked, np_select.
  destruct (Nat.eqb (length idx) (length psd)); [|discriminate].
  apply simpson_nonneg; [apply select_nonneg; exact Hn | exact Hdx].
Qed.

(** The quotient of a band power by the total power, both non-negative:
    [nan] when the total vanishes (then so does the band power), a
    non-negative number otherwise. *)
Lemma np_true_divide_nonneg (bp total : Qc) :
  (0 <= bp)%Qc -> (0 <= total)%Qc -> (total = 0%Qc -> bp = 0%Qc) ->
  np_true_divide bp total = NaN \/
  exists q, np_true_divide bp total = Finite q /\ (0 <= q)%Qc.
Proof.
  intros Hbp Ht Hz. unfold np_true_divide.
  destruct (Qceqb total 0) eqn:E.
  - apply Qceqb_eq in E. rewrite (Hz E). left. reflexivity.
  - right. exists (bp / total)%Qc. split; [reflexivity|].
    assert (Hne : total <> 0%Qc).
    { intros K. rewrite K in E. discriminate E. }
    assert (Hpos : (0 < total)%Qc).
    { destruct (Qcle_lt_or_eq _ _ Ht) as [K|K]; [exact K | congruence]. }
    assert (Hinv : (0 < / this total)%Q) by (apply Qinv_lt_0_compat; exact Hpos).
    clear E Hne Hz. qc_norm. nra.
Qed.

(** The spacing of the bins of [rfftfreq]. *)
Lemma rfftfreq_spacing (m : Z) (fs dx : Qc) :
  freq_res_of (rfftfreq m fs) = Ok dx -> dx = (fs / of_Z m)%Qc.
Proof.
  unfold rfftfreq, rfft_bins.
  destruct (Z.to_nat (m / 2)) as [|n]; [discriminate|].
  rewrite Nat.add_1_r. cbn [seq map freq_res_of]. intros H. apply Ok_inj in H. subst dx.
  replace (of_nat 1) with 1%Qc by (apply Qc_is_canon; reflexivity).
  rewrite of_nat_0. ring.
Qed.

Lemma welch_psd_nonneg density x fs nperseg nfft c :
  (forall x fs n m k, (0 <= density x fs n m k)%Qc) ->
  welch density x fs nperseg nfft = Ok c -> nonneg (snd c).
Proof.
  intros Hd. unfold welch. destruct x as [|v x]; [intros H; injection H as <-; constructor|].
  destruct (py_int nperseg <? 1)%Z; [discriminate|].
  destruct (match nfft with
            | Some f =>
                if Qcltb f (of_Z (Z.min (py_int nperseg) (Z.of_nat (length (v :: x)))))
                then Raise ValueError else Ok (py_int f)
            | None => Ok (Z.min (py_int nperseg) (Z.of_nat (length (v :: x))))
            end) as [m|e]; [|discriminate].
  intros H; injection H as <-. cbn [snd].
  apply Forall_forall. intros p Hp. apply in_map_iff in Hp. destruct Hp as (k & <- & _).
  apply Hd.
Qed.

Lemma of_Z_pos (m : Z) : (1 <= m)%Z -> (0 < of_Z m)%Qc.
Proof.
  intros H. unfold of_Z, Qclt. cbn [this Q2Qc]. rewrite !Qred_correct.
  unfold Qlt. simpl. lia.
Qed.

(** With a periodogram that is never negative, the powers stored for a
    chunk are never negative: every absolute band power is non-negative,
    and every relative band power is either [nan] (the total power of the
    curve is zero) or a non-negative number. *)
Theorem stored_powers_are_nonnegative :
  forall density self signal d p,
    (forall x fs n m k, (0 <= density x fs n m k)%Qc) ->
    result (computing_welch_periodogram density self signal) = Ok d ->
    result (computing_absolute_and_relative_power d) = Ok p ->
    forall channel r, dict_get p channel = Some r ->
    forall b,
      (0 <= power_of r b)%Qc /\
      (rel_power_of r b = NaN \/
       exists q, rel_power_of r b = Finite q /\ (0 <= q)%Qc).
Proof.
  intros density self signal d p Hdens Hd Hp channel r Hr b.
  destruct (power_record_origin d p Hp channel r Hr) as (c & Hc & dx & total & Hdx & Ht & Hb).
  pose proof (power_returned_analysable d p Hp channel c Hc) as Han.
  destruct (stored_curve_facts _ _ _ _ _ _ Hd Hc Han)
    as (col & w & m & _ & _ & _ & _ & Hrate & Hm & Haxis & Hwelch).
  assert (Hnn : nonneg (psd c)).
  { exact (welch_psd_nonneg _ _ _ _ _ _ Hdens Hwelch). }
  assert (Hdx0 : (0 <= dx)%Qc).
  { rewrite Haxis in Hdx. rewrite (rfftfreq_spacing _ _ _ Hdx).
    pose proof (of_Z_pos m Hm) as Hmq.
    assert (Hinv : (0 < / this (of_Z m))%Q) by (apply Qinv_lt_0_compat; exact Hmq).
    clear Hdx. qc_norm. nra. }
  destruct (Hb b) as (Hi & Hpow & Hrel).
  pose proof (simpson_masked_nonneg _ _ _ _ Hnn Hdx0 Hpow) as Hbp.
  pose proof (simpson_nonneg _ _ _ Hnn Hdx0 Ht) as Htot.
  split; [exact Hbp|].
  rewrite Hrel. apply np_true_divide_nonneg; [exact Hbp | exact Htot|].
  intros K. subst total.
  destruct Han as (Hlen & H2 & Hsel).
  rewrite Hi in Hpow.
  rewrite (simpson_masked_zero (psd c) (band_idx (freqs c) (bands b)) dx) in Hpow.
  - apply Ok_inj in Hpow. symmetry. exact Hpow.
  - exact Hnn.
  - rewrite Hlen. exact H2.
  - exact Ht.
  - rewrite band_idx_length. congruence.
  - apply Hsel.
Qed.

Lemma example_density_nonneg :
  forall x fs n m k, (0 <= Example.density x fs n m k)%Qc.
Proof.
  intros x fs n m k. unfold Example.density, Example.energy.
  induction x as [|v x IH]; [apply Qcle_refl|].
  cbn [map np_sum fold_right]. fold (np_sum (map (fun v => (v * v)%Qc) x)).
  qc_norm. nra.
Qed.

Lemma stored_powers_are_nonnegative_witness :
  exists r,
    dict_get
      (match result (computing_welch_periodogram Example.density
                       (Example.operator [] (Some (qc 1 1))) Example.chunk) with
       | Ok d => match result (computing_absolute_and_relative_power d) with
                 | Ok p => p
                 | Raise _ => []
                 end
       | Raise _ => []
       end) 1 = Some r /\
    (0 <= power_of r alpha)%Qc /\
    (rel_power_of r alpha = NaN \/
     exists q, rel_power_of r alpha = Finite q /\ (0 <= q)%Qc).
Proof.
  destruct (result (computing_welch_periodogram Example.density
                      (Example.operator [] (Some (qc 1 1))) Example.chunk))
    as [d|e] eqn:Ed; [|vm_compute in Ed; discriminate Ed].
  destruct (result (computing_absolute_and_relative_power d))
    as [p|e] eqn:Ep;
    [|vm_compute in Ed; apply Ok_inj in Ed; subst d; vm_compute in Ep; discriminate Ep].
  destruct (dict_get p 1) as [r|] eqn:Er;
    [|vm_compute in Ed; apply Ok_inj in Ed; subst d;
      vm_compute in Ep; apply Ok_inj in Ep; subst p; discriminate Er].
  exists r. split; [reflexivity|].
  exact (stored_powers_are_nonnegative Example.density
           (Example.operator [] (Some (qc 1 1))) Example.chunk d p
           example_density_nonneg Ed Ep 1%nat r Er alpha).
Defined.

(** ** The five bands on a frequency axis *)

Lemma nth_error_band_idx (freqs : list Qc) (band : Band) :
  forall i,
    nth_error (band_idx freqs band) i =
    option_map (fun f => Qcleb (fst band) f && Qcleb f (snd band)) (nth_error freqs i).
Proof.
  induction freqs as [|f freqs IH]; intros [|i]; try reflexivity.
  rewrite band_idx_cons. cbn [nth_error]. apply IH.
Qed.

Lemma in_band_iff (freqs : list Qc) (band : Band) i f :
  nth_error freqs i = Some f ->
  (nth_error (band_idx freqs band) i = Some true <->
   (fst band <= f)%Qc /\ (f <= snd band)%Qc).
Proof.
  intros Hf. rewrite nth_error_band_idx, Hf. cbn [option_map].
  rewrite <- !Qcleb_iff, <- andb_true_iff.
  split; [intros H; injection H; auto | intros ->; reflexivity].
Qed.

(** The five bands of the per-chunk power computation tile the closed
    interval from 0.5 Hz to 100 Hz with shared edges: a bin belongs to some
    band exactly when its frequency lies in that interval (so the bin at
    0 Hz belongs to none); a bin that belongs to two bands sits on one of
    the edges 4, 8, 12 or 30 Hz, and a bin on such an edge does belong to
    two bands, so its density enters two band powers. *)
Theorem canonical_bands_tile :
  forall (freqs : list Qc) i f,
    nth_error freqs i = Some f ->
    ((exists b, nth_error (band_idx freqs (bands b)) i = Some true) <->
     (qc 1 2 <= f)%Qc /\ (f <= qc 100 1)%Qc) /\
    ((exists b1 b2, b1 <> b2 /\
                    nth_error (band_idx freqs (bands b1)) i = Some true /\
                    nth_error (band_idx freqs (bands b2)) i = Some true) <->
     f = qc 4 1 \/ f = qc 8 1 \/ f = qc 12 1 \/ f = qc 30 1).
Proof.
  intros freqs i f Hf.
  assert (Hin : forall b, nth_error (band_idx freqs (bands b)) i = Some true <->
                          (fst (bands b) <= f)%Qc /\ (f <= snd (bands b))%Qc)
    by (intros b; apply in_band_iff; exact Hf).
  split; split.
  - intros (b & Hb). apply Hin in Hb. destruct b; cbn [bands fst snd] in Hb;
      destruct Hb as [H1 H2]; split; qc_norm; lra.
  - intros [H1 H2].
    destruct (Qclt_le_dec (qc 4 1) f) as [K4|K4];
      [|exists delta; apply Hin; cbn [bands fst snd]; split; [exact H1 | exact K4]].
    destruct (Qclt_le_dec (qc 8 1) f) as [K8|K8];
      [|exists theta; apply Hin; cbn [bands fst snd]; split;
        [apply Qclt_le_weak; exact K4 | exact K8]].
    destruct (Qclt_le_dec (qc 12 1) f) as [K12|K12];
      [|exists alpha; apply Hin; cbn [bands fst snd]; split;
        [apply Qclt_le_weak; exact K8 | exact K12]].
    destruct (Qclt_le_dec (qc 30 1) f) as [K30|K30];
      [|exists beta; apply Hin; cbn [bands fst snd]; split;
        [apply Qclt_le_weak; exact K12 | exact K30]].
    exists gamma. apply Hin. cbn [bands fst snd]. split;
      [apply Qclt_le_weak; exact K30 | exact H2].
  - intros (b1 & b2 & Hne & Hb1 & Hb2). apply Hin in Hb1, Hb2.
    destruct b1, b2; try congruence; cbn [bands fst snd] in Hb1, Hb2;
      destruct Hb1 as [L1 U1]; destruct Hb2 as [L2 U2];
      try (exfalso; qc_norm; lra);
      first [ left; apply Qcle_antisym; assumption
            | right; left; apply Qcle_antisym; assumption
            | right; right; left; apply Qcle_antisym; assumption
            | right; right; right; apply Qcle_antisym; assumption ].
  - intros [-> | [-> | [-> | ->]]].
    + exists delta, theta. split; [discriminate|].
      split; apply Hin; cbn [bands fst snd]; split; vm_compute; discriminate.
    + exists theta, alpha. split; [discriminate|].
      split; apply Hin; cbn [bands fst snd]; split; vm_compute; discriminate.
    + exists alpha, beta. split; [discriminate|].
      split; apply Hin; cbn [bands fst snd]; split; vm_compute; discriminate.
    + exists beta, gamma. split; [discriminate|].
      split; apply Hin; cbn [bands fst snd]; split; vm_compute; discriminate.
Qed.

(** The bin at 4 Hz of the axis 0, 2, 4, ... Hz. *)
Lemma canonical_bands_tile_witness :
  ((exists b, nth_error (band_idx (rfftfreq 32 (qc 64 1)) (bands b)) 2 = Some true) <->
   (qc 1 2 <= qc 4 1)%Qc /\ (qc 4 1 <= qc 100 1)%Qc) /\
  ((exists b1 b2, b1 <> b2 /\
                  nth_error (band_idx (rfftfreq 32 (qc 64 1)) (bands b1)) 2 = Some true /\
                  nth_error (band_idx (rfftfreq 32 (qc 64 1)) (bands b2)) 2 = Some true) <->
   qc 4 1 = qc 4 1 \/ qc 4 1 = qc 8 1 \/ qc 4 1 = qc 12 1 \/ qc 4 1 = qc 30 1).
Proof.
  apply (canonical_bands_tile (rfftfreq 32 (qc 64 1)) 2%nat (qc 4 1)).
  vm_compute. reflexivity.
Defined.

(** ** A band with a single bin *)

Lemma select_length (a : list Qc) :
  forall idx, length idx = length a ->
  length (map fst (filter snd (combine a idx))) = count_occ bool_dec idx true.
Proof.
  induction a as [|v a IH]; intros [|m idx] Hlen; try discriminate Hlen; [reflexivity|].
  cbn [combine filter snd]. injection Hlen as Hlen.
  destruct m; cbn [map length count_occ].
  - destruct (bool_dec true true) as [_|K]; [|congruence]. rewrite IH by exact Hlen. reflexivity.
  - destruct (bool_dec false true) as [K|_]; [discriminate K|]. apply IH. exact Hlen.
Qed.

Lemma simpson_single (v dx : Qc) : simpson [v] dx = Ok 0%Qc.
Proof. unfold simpson. cbn [length Nat.even basic_simpson_sum]. f_equal. ring. Qed.

(** A band whose mask selects exactly one bin has no power: SciPy's
    [simpson] integrates a single sample to [0.0] whatever its value, so the
    stored absolute power of the band is zero and its relative power is
    zero (or [nan] on a curve of zero total power). *)
Theorem single_bin_band_has_no_power :
  forall psd_dict power,
    result (computing_absolute_and_relative_power psd_dict) = Ok power ->
    forall channel r b,
      dict_get power channel = Some r ->
      count_occ bool_dec (idx_of r b) true = 1%nat ->
      power_of r b = 0%Qc /\
      (rel_power_of r b = NaN \/ rel_power_of r b = Finite 0%Qc).
Proof.
  intros psd_dict power H channel r b Hr Hone.
  destruct (power_record_origin psd_dict power H channel r Hr)
    as (c & Hc & dx & total & Hdx & Ht & Hb).
  destruct (Hb b) as (Hi & Hp & Hrel).
  assert (Hzero : power_of r b = 0%Qc).
  { pose proof Hp as Hp'. apply simpson_masked_ok in Hp'. destruct Hp' as [Hlen _].
    unfold simpson_masked in Hp. rewrite (np_select_ok _ _ Hlen) in Hp.
    pose proof (select_length (psd c) (idx_of r b) Hlen) as Hl. rewrite Hone in Hl.
    destruct (map fst (filter snd (combine (psd c) (idx_of r b)))) as [|v [|v' l]];
      try discriminate Hl.
    rewrite simpson_single in Hp. apply Ok_inj in Hp. symmetry. exact Hp. }
  split; [exact Hzero|].
  rewrite Hrel, Hzero. unfold np_true_divide.
  destruct (Qceqb total 0); [left; reflexivity | right; f_equal; unfold Qcdiv; ring].
Qed.

(** A window of a sixteenth of a second at 64 Hz: the stored curve has a
    bin every 4 Hz, the delta band (0.5 to 4 Hz) holds the bin at 4 Hz
    alone, and the stored delta power of channel 0 is zero although the
    density there is not. *)
Lemma single_bin_band_witness :
  exists c r,
    dict_get (match result (computing_welch_periodogram Example.density
                              (Example.operator [] (Some (qc 1 16))) Example.chunk)
              with Ok d => d | Raise _ => [] end) 0 = Some c /\
    nth_error (psd c) 1 = Some (qc 8 1) /\
    dict_get (match result (computing_welch_periodogram Example.density
                              (Example.operator [] (Some (qc 1 16))) Example.chunk)
              with
              | Ok d => match result (computing_absolute_and_relative_power d) with
                        | Ok p => p
                        | Raise _ => []
                        end
              | Raise _ => []
              end) 0 = Some r /\
    power_of r delta = 0%Qc /\
    (rel_power_of r delta = NaN \/ rel_power_of r delta = Finite 0%Qc).
Proof.
  destruct (result (computing_welch_periodogram Example.density
                      (Example.operator [] (Some (qc 1 16))) Example.chunk))
    as [d|e] eqn:Ed; [|vm_compute in Ed; discriminate Ed].
  destruct (result (computing_absolute_and_relative_power d))
    as [p|e] eqn:Ep;
    [|vm_compute in Ed; apply Ok_inj in Ed; subst d; vm_compute in Ep; discriminate Ep].
  assert (Hc : exists c, dict_get d 0 = Some c /\ nth_error (psd c) 1 = Some (qc 8 1)).
  { vm_compute in Ed. apply Ok_inj in Ed. subst d. eexists. split; [reflexivity|].
    vm_compute. reflexivity. }
  destruct Hc as (c & Hc & Hv).
  assert (Hr : exists r, dict_get p 0 = Some r /\
                         count_occ bool_dec (idx_of r delta) true = 1%nat).
  { vm_compute in Ed. apply Ok_inj in Ed. subst d.
    vm_compute in Ep. apply Ok_inj in Ep. subst p.
    eexists. split; [reflexivity | vm_compute; reflexivity]. }
  destruct Hr as (r & Hr & Hone).
  exists c, r. split; [exact Hc|]. split; [exact Hv|]. split; [exact Hr|].
  exact (single_bin_band_has_no_power d p Ep 0%nat r delta Hr Hone).
Defined.

(** ** Runs of the plotting method *)

Lemma outcome_pbind {A B} (m : P A) (f : A -> P B) :
  outcome_of (pbind m f) =
  match outcome_of m with Ok a => outcome_of (f a) | Raise e => Raise e end.
Proof.
  destruct m as [t [a|e]]; simpl; [destruct (f a); reflexivity | reflexivity].
Qed.

Lemma calls_pbind {A B} (m : P A) (f : A -> P B) :
  calls (pbind m f) =
  calls m ++ match outcome_of m with Ok a => calls (f a) | Raise _ => [] end.
Proof.
  destruct m as [t [a|e]]; simpl.
  - destruct (f a); reflexivity.
  - symmetry; apply app_nil_r.
Qed.

Lemma run_eta {A} (m : P A) : m = (calls m, outcome_of m).
Proof. destruct m; reflexivity. Qed.

(** ** File names *)

Lemma string_of_uint_digits (d : Decimal.uint) :
  all_digits (NilEmpty.string_of_uint d) = true.
Proof. induction d; cbn [NilEmpty.string_of_uint all_digits]; try rewrite IHd; reflexivity. Qed.

Lemma string_of_uint_inj (d d' : Decimal.uint) :
  NilEmpty.string_of_uint d = NilEmpty.string_of_uint d' -> d = d'.
Proof.
  intros H. apply (f_equal NilEmpty.uint_of_string) in H.
  rewrite !NilEmpty.usu in H. injection H. auto.
Qed.

Lemma str_of_int_inj (n n' : nat) : str_of_int n = str_of_int n' -> n = n'.
Proof.
  unfold str_of_int. intros H. apply string_of_uint_inj in H.
  exact (Unsigned.to_uint_inj n n' H).
Qed.

Lemma append_cancel_l (a b c : string) : (a ++ b = a ++ c)%string -> b = c.
Proof.
  induction a as [|ch a IH]; cbn [append]; intros H; [exact H|].
  injection H as H. exact (IH H).
Qed.

(** Where the digits of a number end is determined by the text. *)
Lemma digits_split (d1 : string) :
  forall d2 r1 r2,
    all_digits d1 = true -> all_digits d2 = true ->
    starts_without_digit r1 = true -> starts_without_digit r2 = true ->
    (d1 ++ r1 = d2 ++ r2)%string -> d1 = d2 /\ r1 = r2.
Proof.
  induction d1 as [|c d1 IH]; intros [|c' d2] r1 r2 H1 H2 R1 R2 E; cbn [append] in E.
  - split; [reflexivity | exact E].
  - subst r1. cbn [starts_without_digit all_digits] in R1, H2.
    apply andb_true_iff in H2. destruct H2 as [H2 _]. rewrite H2 in R1. discriminate R1.
  - subst r2. cbn [starts_without_digit all_digits] in R2, H1.
    apply andb_true_iff in H1. destruct H1 as [H1 _]. rewrite H1 in R2. discriminate R2.
  - injection E as -> E. cbn [all_digits] in H1, H2.
    apply andb_true_iff in H1, H2.
    destruct (IH d2 r1 r2 (proj2 H1) (proj2 H2) R1 R2 E) as [-> ->].
    split; reflexivity.
Qed.

(** Figures of different chunks or channels are saved to different files:
    the file name determines the chunk and the channel, so with
    [save_path] given no figure of a run overwrites another. *)
Theorem plot_path_determines_figure :
  forall (save_path : string) (chunk channel chunk' channel' : nat),
    plot_path save_path chunk channel = plot_path save_path chunk' channel' ->
    chunk = chunk' /\ channel = channel'.
Proof.
  intros dir chunk channel chunk' channel' H.
  unfold plot_path, os_path_join in H.
  cbn [append prefix] in H.
  destruct (ascii_dec "/" "C") as [K|_]; [discriminate K|].
  assert (E : (str_of_int chunk ++ "_Welch_periodogram_of_channel_"
               ++ str_of_int channel ++ ".png"
               = str_of_int chunk' ++ "_Welch_periodogram_of_channel_"
               ++ str_of_int channel' ++ ".png")%string).
  { destruct (String.eqb dir "" || ends_with_sep dir)%bool.
    - apply append_cancel_l in H. injection H as H. exact H.
    - apply append_cancel_l in H. cbn [append] in H. injection H as H. exact H. }
  clear H.
  apply digits_split in E; try apply string_of_uint_digits; try reflexivity.
  destruct E as [E1 E2]. apply str_of_int_inj in E1.
  cbn [append] in E2. injection E2 as E2.
  apply digits_split in E2; try apply string_of_uint_digits; try reflexivity.
  destruct E2 as [E2 _]. apply str_of_int_inj in E2.
  split; assumption.
Qed.

Lemma plot_path_example :
  plot_path "out" 0 12 = "out/Chunk0_Welch_periodogram_of_channel_12.png"%string /\
  plot_path "out/" 3 1 = "out/Chunk3_Welch_periodogram_of_channel_1.png"%string.
Proof. split; reflexivity. Qed.

Lemma plot_path_determines_figure_witness : (0 = 0 /\ 12 = 12)%nat.
Proof.
  apply (plot_path_determines_figure "out" 0 12 0 12). reflexivity.
Defined.

(** ** Figures opened, closed and saved *)

Lemma opened_app a b : opened (a ++ b) = (opened a + opened b)%nat.
Proof. unfold opened. rewrite filter_app, length_app. reflexivity. Qed.

Lemma closed_app a b : closed (a ++ b) = (closed a + closed b)%nat.
Proof. unfold closed. rewrite filter_app, length_app. reflexivity. Qed.

Lemma saved_app a b : saved (a ++ b) = saved a ++ saved b.
Proof. unfold saved. apply flat_map_app. Qed.

Lemma quiet_accounts t :
  Forall quiet t -> opened t = 0%nat /\ closed t = 0%nat /\ saved t = [].
Proof.
  induction 1 as [|c t Hc _ IH]; [repeat split|].
  destruct IH as (I1 & I2 & I3).
  destruct c; try contradiction; cbn; repeat split; assumption.
Qed.

Lemma quiet_pbind {A B} (m : P A) (f : A -> P B) :
  Forall quiet (calls m) -> (forall a, Forall quiet (calls (f a))) ->
  Forall quiet (calls (pbind m f)).
Proof.
  intros Hm Hf. rewrite calls_pbind. apply Forall_app. split; [exact Hm|].
  destruct (outcome_of m); [apply Hf | constructor].
Qed.

Lemma quiet_pfor {A} (xs : list A) (body : A -> P unit) :
  (forall x, Forall quiet (calls (body x))) -> Forall quiet (calls (pfor xs body)).
Proof.
  intros H. induction xs as [|x xs IH]; [constructor|].
  cbn [pfor]. apply quiet_pbind; [apply H | intros _; exact IH].
Qed.

Lemma quiet_plift {A} (o : outcome A) : Forall quiet (calls (plift o)).
Proof. constructor. Qed.

Lemma quiet_pcall c : quiet c -> Forall quiet (calls (pcall c)).
Proof. intros H. constructor; [exact H | constructor]. Qed.

Lemma draw_panel_quiet ax freqs psd power_dict chunk channel :
  Forall quiet (calls (draw_panel ax freqs psd power_dict chunk channel)).
Proof.
  unfold draw_panel.
  apply quiet_pbind.
  { unfold draw_line. destruct (Nat.eqb (length freqs) (length psd));
      [apply quiet_pcall; destruct ax; exact I | apply quiet_plift]. }
  intros _. apply quiet_pbind; [apply quiet_pcall; exact I|].
  intros _. apply quiet_pbind.
  { destruct ax; [apply quiet_pcall; exact I | constructor]. }
  intros _. apply quiet_pbind.
  { apply quiet_pfor. intros b. unfold fill_between.
    apply quiet_pbind; [apply quiet_plift|]. intros p.
    apply quiet_pbind; [apply quiet_plift|]. intros r.
    destruct (Nat.eqb (length (idx_of r b)) (length freqs));
      [apply quiet_pcall; exact I | apply quiet_plift]. }
  intros _. apply quiet_pbind.
  { unfold set_ylim. apply quiet_pbind; [apply quiet_plift|].
    intros top. apply quiet_pcall. exact I. }
  intros _. apply quiet_pbind; [apply quiet_pcall; destruct ax; exact I|].
  intros _. apply quiet_pcall. exact I.
Qed.

Lemma pbind_plift_ok {A B} (a : A) (f : A -> P B) : pbind (plift (Ok a)) f = f a.
Proof. unfold plift. cbn [pbind]. destruct (f a); reflexivity. Qed.

Ltac plot_step :=
  rewrite ?calls_pbind, ?outcome_pbind;
  cbn [pcall pret plift calls outcome_of fst snd].

(** One figure: opened once; closed once, and saved once if asked for,
    exactly when nothing is raised. *)
Lemma draw_figure_accounts savefig psd_dict power_dict show save_path chunk channel d c :
  dict_get psd_dict chunk = Some d -> dict_get d channel = Some c ->
  let m := draw_figure savefig psd_dict power_dict show save_path chunk channel in
  opened (calls m) = 1%nat /\
  match outcome_of m with
  | Ok _ =>
      closed (calls m) = 1%nat /\
      saved (calls m) = match save_path with
                        | Some dir => [plot_path dir chunk channel]
                        | None => []
                        end
  | Raise _ => closed (calls m) = 0%nat
  end.
Proof.
  intros Hd Hc m. subst m. unfold draw_figure.
  apply dict_item_ok in Hd. apply dict_item_ok in Hc.
  rewrite Hd, pbind_plift_ok, Hc, pbind_plift_ok.
  destruct (quiet_accounts _ (draw_panel_quiet ax1 (freqs c) (psd c) power_dict chunk channel))
    as (O1 & C1 & S1).
  destruct (quiet_accounts _ (draw_panel_quiet ax2 (freqs c) (psd c) power_dict chunk channel))
    as (O2 & C2 & S2).
  revert O1 C1 S1 O2 C2 S2.
  generalize (draw_panel ax1 (freqs c) (psd c) power_dict chunk channel).
  generalize (draw_panel ax2 (freqs c) (psd c) power_dict chunk channel).
  intros p2 p1 O1 C1 S1 O2 C2 S2.
  plot_step.
  destruct (outcome_of p1) as [[]|e1];
    [|rewrite ?opened_app, ?closed_app, O1, C1; cbn; split; reflexivity].
  plot_step.
  destruct (outcome_of p2) as [[]|e2];
    [|rewrite ?opened_app, ?closed_app, O1, C1, O2, C2; cbn; split; reflexivity].
  plot_step.
  assert (Hshow : opened (calls (if show then pcall ShowFigure else pret tt)) = 0%nat /\
                  closed (calls (if show then pcall ShowFigure else pret tt)) = 0%nat /\
                  saved (calls (if show then pcall ShowFigure else pret tt)) = [] /\
                  outcome_of (if show then pcall ShowFigure else pret tt) = Ok tt)
    by (destruct show; repeat split).
  destruct Hshow as (O3 & C3 & S3 & R3). rewrite R3.
  plot_step.
  destruct save_path as [dir|].
  - generalize (plot_path dir chunk channel). intros path.
    plot_step.
    destruct (savefig path) as [[]|e3]; plot_step;
      rewrite ?opened_app, ?closed_app, ?saved_app,
        ?O1, ?C1, ?S1, ?O2, ?C2, ?S2, ?O3, ?C3, ?S3;
      cbn; repeat split; reflexivity.
  - plot_step.
    rewrite ?opened_app, ?closed_app, ?saved_app, O1, C1, S1, O2, C2, S2, O3, C3, S3.
    cbn. repeat split; reflexivity.
Qed.

Lemma pfor_accounted {A} (body : A -> P unit) (n : A -> nat) (files : A -> list string) :
  forall xs,
    (forall x, In x xs -> accounted (body x) (n x) (files x)) ->
    accounted (pfor xs body) (list_sum (map n xs)) (flat_map files xs).
Proof.
  induction xs as [|x xs IH]; intros H; [repeat split|].
  specialize (IH (fun y Hy => H y (or_intror Hy))).
  pose proof (H x (or_introl eq_refl)) as Hx.
  unfold accounted in *. cbn [pfor map flat_map].
  change (list_sum (?a :: ?l)) with (a + list_sum l)%nat.
  rewrite calls_pbind, outcome_pbind.
  destruct (outcome_of (body x)) as [[]|e].
  - destruct Hx as (O & C & S). rewrite opened_app, closed_app, saved_app, O, C, S.
    destruct (outcome_of (pfor xs body)) as [[]|e].
    + destruct IH as (O' & C' & S'). rewrite O', C', S'. repeat split.
    + rewrite IH. lia.
  - rewrite app_nil_r. exact Hx.
Qed.

Lemma figures_length (psd_dict : dict (dict Curve)) (keys : list nat) :
  list_sum (map (fun chunk => match dict_get psd_dict chunk with
                              | Some d => length (dict_keys d)
                              | None => 0%nat
                              end) keys)
  = length (flat_map (fun chunk =>
                        match dict_get psd_dict chunk with
                        | Some d => map (fun channel => (chunk, channel)) (dict_keys d)
                        | None => []
                        end) keys).
Proof.
  induction keys as [|k keys IH]; [reflexivity|].
  cbn [map flat_map]. change (list_sum (?a :: ?l)) with (a + list_sum l)%nat.
  rewrite length_app, IH. destruct (dict_get psd_dict k); [rewrite length_map|]; reflexivity.
Qed.

Lemma figures_files (psd_dict : dict (dict Curve)) (dir : string) (keys : list nat) :
  flat_map (fun chunk => match dict_get psd_dict chunk with
                         | Some d => map (plot_path dir chunk) (dict_keys d)
                         | None => []
                         end) keys
  = map (fun f => plot_path dir (fst f) (snd f))
        (flat_map (fun chunk =>
                     match dict_get psd_dict chunk with
                     | Some d => map (fun channel => (chunk, channel)) (dict_keys d)
                     | None => []
                     end) keys).
Proof.
  induction keys as [|k keys IH]; [reflexivity|].
  cbn [flat_map]. rewrite map_app, IH. f_equal.
  destruct (dict_get psd_dict k); [rewrite map_map|]; reflexivity.
Qed.

Lemma flat_map_unit {A B} (f : A -> B) (xs : list A) :
  flat_map (fun x => [f x]) xs = map f xs.
Proof. induction xs as [|x xs IH]; [reflexivity | cbn [flat_map map app]; rewrite IH; reflexivity]. Qed.

Lemma flat_map_nil {A B} (xs : list A) : flat_map (fun _ : A => @nil B) xs = [].
Proof. induction xs; [reflexivity | exact IHxs]. Qed.

(** Whatever the mappings hold, [plot_welch_periodogram] opens one figure
    per chunk and channel of the PSD mapping.  When it returns, every
    figure has been closed and, with [save_path] given, saved to the file
    of its chunk and channel, in the order of the mapping (without
    [save_path] nothing is saved).  When it raises (a missing power record,
    arrays that do not fit, or [savefig] failing), the figure being drawn
    is never closed: exactly one figure is left open. *)
Theorem plot_accounts_for_figures :
  forall savefig output show save_path,
    match outcome_of (plot_welch_periodogram savefig output show save_path) with
    | Ok _ =>
        opened (calls (plot_welch_periodogram savefig output show save_path))
        = length (figures (fst output)) /\
        closed (calls (plot_welch_periodogram savefig output show save_path))
        = length (figures (fst output)) /\
        saved (calls (plot_welch_periodogram savefig output show save_path))
        = match save_path with
          | Some dir => map (fun f => plot_path dir (fst f) (snd f)) (figures (fst output))
          | None => []
          end
    | Raise _ =>
        opened (calls (plot_welch_periodogram savefig output show save_path))
        = S (closed (calls (plot_welch_periodogram savefig output show save_path)))
    end.
Proof.
  intros savefig [psd_dict power_dict] show save_path.
  unfold plot_welch_periodogram, figures. cbn [fst snd].
  rewrite <- figures_length.
  assert (Hfiles :
            match save_path with
            | Some dir =>
                map (fun f => plot_path dir (fst f) (snd f))
                    (flat_map (fun chunk =>
                                 match dict_get psd_dict chunk with
                                 | Some d => map (fun channel => (chunk, channel)) (dict_keys d)
                                 | None => []
                                 end) (dict_keys psd_dict))
            | None => []
            end
            = flat_map (fun chunk =>
                          match dict_get psd_dict chunk, save_path with
                          | Some d, Some dir => map (plot_path dir chunk) (dict_keys d)
                          | _, _ => []
                          end) (dict_keys psd_dict)).
  { destruct save_path as [dir|].
    - symmetry. apply figures_files.
    - symmetry. erewrite flat_map_ext; [apply flat_map_nil|].
      intros k. destruct (dict_get psd_dict k); reflexivity. }
  rewrite Hfiles.
  apply (pfor_accounted _ _ _ (dict_keys psd_dict)).
  intros chunk Hchunk.
  destruct (dict_get_in_keys _ _ Hchunk) as (d & Hd). rewrite Hd.
  rewrite (proj2 (dict_item_ok _ _ _) Hd), pbind_plift_ok.
  assert (Hinner :
            accounted (pfor (dict_keys d)
                         (draw_figure savefig psd_dict power_dict show save_path chunk))
                      (list_sum (map (fun _ => 1%nat) (dict_keys d)))
                      (flat_map (fun channel =>
                                   match save_path with
                                   | Some dir => [plot_path dir chunk channel]
                                   | None => []
                                   end) (dict_keys d))).
  { apply pfor_accounted. intros channel Hchannel.
    destruct (dict_get_in_keys _ _ Hchannel) as (c & Hc).
    pose proof (draw_figure_accounts savefig psd_dict power_dict show save_path
                  chunk channel d c Hd Hc) as K.
    cbv zeta in K. destruct K as [O K]. unfold accounted.
    destruct (outcome_of (draw_figure savefig psd_dict power_dict show save_path
                            chunk channel)) as [[]|e].
    - destruct K as [C S]. repeat split; assumption.
    - rewrite O, K. reflexivity. }
  rewrite list_sum_const, Nat.mul_1_l in Hinner.
  destruct save_path as [dir|].
  - rewrite flat_map_unit in Hinner. exact Hinner.
  - rewrite flat_map_nil in Hinner. exact Hinner.
Qed.

(** ** Plotting what [__call__] returned *)

Lemma pfor_returns {A} (body : A -> P unit) (xs : list A) :
  (forall x, In x xs -> outcome_of (body x) = Ok tt) ->
  outcome_of (pfor xs body) = Ok tt.
Proof.
  induction xs as [|x xs IH]; intros H; [reflexivity|].
  cbn [pfor]. rewrite outcome_pbind, (H x (or_introl eq_refl)).
  apply IH. intros y Hy. apply H. right. exact Hy.
Qed.

Lemma np_max_returns (a : list Qc) : a <> [] -> exists top, np_max a = Ok top.
Proof. destruct a as [|v a]; [contradiction | intros _; eexists; reflexivity]. Qed.

Lemma draw_panel_returns ax (c : Curve) power_dict chunk channel p r :
  length (psd c) = length (freqs c) -> psd c <> [] ->
  dict_get power_dict chunk = Some p -> dict_get p channel = Some r ->
  (forall b, length (idx_of r b) = length (freqs c)) ->
  outcome_of (draw_panel ax (freqs c) (psd c) power_dict chunk channel) = Ok tt.
Proof.
  intros Hlen Hne Hp Hr Hidx. unfold draw_panel, draw_line.
  rewrite <- Hlen, Nat.eqb_refl.
  rewrite outcome_pbind. cbn [pcall outcome_of snd].
  rewrite outcome_pbind. cbn [pcall outcome_of snd].
  rewrite outcome_pbind.
  assert (Ht : outcome_of (match ax with ax1 => pcall (SetTitle channel) | ax2 => pret tt end)
               = Ok tt) by (destruct ax; reflexivity).
  rewrite Ht.
  rewrite outcome_pbind, pfor_returns.
  - rewrite outcome_pbind. unfold set_ylim.
    destruct (np_max_returns (psd c) Hne) as (top & Htop). rewrite Htop, pbind_plift_ok.
    cbn [pcall outcome_of snd].
    rewrite outcome_pbind. destruct ax; reflexivity.
  - intros b _. unfold fill_between.
    apply dict_item_ok in Hp. apply dict_item_ok in Hr.
    rewrite Hp, pbind_plift_ok, Hr, pbind_plift_ok.
    rewrite Hidx, Nat.eqb_refl. reflexivity.
Qed.

Lemma draw_figure_returns savefig psd_dict power_dict show save_path chunk channel d c p r :
  dict_get psd_dict chunk = Some d -> dict_get d channel = Some c ->
  length (psd c) = length (freqs c) -> psd c <> [] ->
  dict_get power_dict chunk = Some p -> dict_get p channel = Some r ->
  (forall b, length (idx_of r b) = length (freqs c)) ->
  (forall path, savefig path = Ok tt) ->
  outcome_of (draw_figure savefig psd_dict power_dict show save_path chunk channel) = Ok tt.
Proof.
  intros Hd Hc Hlen Hne Hp Hr Hidx Hsave. unfold draw_figure.
  apply dict_item_ok in Hd. apply dict_item_ok in Hc.
  rewrite Hd, pbind_plift_ok, Hc, pbind_plift_ok.
  apply dict_item_ok in Hd. apply dict_item_ok in Hc.
  rewrite outcome_pbind. cbn [pcall outcome_of snd].
  rewrite outcome_pbind, (draw_panel_returns ax1 c power_dict chunk channel p r) by assumption.
  rewrite outcome_pbind, (draw_panel_returns ax2 c power_dict chunk channel p r) by assumption.
  rewrite outcome_pbind.
  assert (Hs : outcome_of (if show then pcall ShowFigure else pret tt) = Ok tt)
    by (destruct show; reflexivity).
  rewrite Hs, outcome_pbind.
  destruct save_path as [dir|]; [|reflexivity].
  rewrite outcome_pbind. cbn [pcall outcome_of snd]. rewrite Hsave. reflexivity.
Qed.

(** The mappings [__call__] returns can always be plotted: every chunk and
    channel of the PSD mapping has a power record, the masks have the
    length of the frequency axis and no curve is empty, so, unless
    [savefig] fails, [plot_welch_periodogram] raises nothing (neither
    [KeyError] nor [ValueError]) on them, with or without [show] and
    [save_path]. *)
Theorem plot_after_call_returns :
  forall density mt self signal output savefig show save_path,
    result (__call__ density mt self signal) = Ok output ->
    (forall path, savefig path = Ok tt) ->
    outcome_of (plot_welch_periodogram savefig output show save_path) = Ok tt.
Proof.
  intros density mt self signal [psd_dict power_dict] savefig show save_path H Hsave.
  destruct (call_entries _ _ _ _ _ _ H) as (Hkeys & Hent).
  unfold plot_welch_periodogram. cbn [fst snd].
  apply pfor_returns. intros chunk Hchunk.
  assert (Hpiece : exists piece, In (chunk, piece) (combine (seq 0 (length signal)) signal)).
  { rewrite Hkeys in Hchunk. apply in_seq in Hchunk.
    destruct (nth_error signal chunk) as [piece|] eqn:Hn.
    - exists piece. exact (in_enumerate signal 0 chunk piece Hn).
    - apply nth_error_None in Hn. lia. }
  destruct Hpiece as (piece & Hpiece).
  destruct (Hent chunk piece Hpiece) as (d & p & Hd & Hp & Hwd & Hpw).
  rewrite (proj2 (dict_item_ok _ _ _) Hd), pbind_plift_ok.
  apply pfor_returns. intros channel Hchannel.
  destruct (dict_get_in_keys _ _ Hchannel) as (c & Hc).
  destruct (power_of_returned d p Hpw channel c Hc) as (r & Hr & dx & total & _ & _ & Hb).
  destruct (power_returned_analysable d p Hpw channel c Hc) as (Hlen & H2 & _).
  apply (draw_figure_returns savefig psd_dict power_dict show save_path
           chunk channel d c p r); try assumption.
  - intros K. rewrite K in Hlen. simpl in Hlen. lia.
  - intros b. destruct (Hb b) as (Hi & _). rewrite Hi. apply band_idx_length.
Qed.

(** ** Concrete runs of the plotting method *)

(** The result of the example run (the example chunk twice, channel 1
    excluded) is plotted without an exception, shown and saved or not. *)
Lemma plot_after_call_witness :
  outcome_of (plot_welch_periodogram (fun _ => Ok tt)
                (match result (Example.run [1%nat] (Some (qc 1 1))
                                 [Example.chunk; Example.chunk]) with
                 | Ok output => output
                 | Raise _ => ([], [])
                 end)
                true (Some "figures"%string)) = Ok tt.
Proof.
  destruct (result (Example.run [1%nat] (Some (qc 1 1)) [Example.chunk; Example.chunk]))
    as [output|e] eqn:E; [|vm_compute in E; discriminate E].
  apply (plot_after_call_returns Example.density Example.multitaper_psd
           (Example.operator [1%nat] (Some (qc 1 1))) [Example.chunk; Example.chunk]
           output (fun _ => Ok tt) true (Some "figures"%string) E).
  intros path. reflexivity.
Defined.

(** A PSD mapping with one curve and a power mapping without a record for
    it: the first [fill_between] fails with [KeyError], and the figure that
    was opened is not closed. *)
Lemma plot_accounts_witness :
  outcome_of (plot_welch_periodogram (fun _ => Ok tt)
                ([(0%nat, [(0%nat, Example.flat_curve)])], []) false None)
  = Raise KeyError /\
  opened (calls (plot_welch_periodogram (fun _ => Ok tt)
                   ([(0%nat, [(0%nat, Example.flat_curve)])], []) false None)) = 1%nat /\
  closed (calls (plot_welch_periodogram (fun _ => Ok tt)
                   ([(0%nat, [(0%nat, Example.flat_curve)])], []) false None)) = 0%nat.
Proof.
  pose proof (plot_accounts_for_figures (fun _ => Ok tt)
                ([(0%nat, [(0%nat, Example.flat_curve)])], []) false None) as K.
  assert (E : outcome_of (plot_welch_periodogram (fun _ => Ok tt)
                            ([(0%nat, [(0%nat, Example.flat_curve)])], []) false None)
              = Raise KeyError) by (vm_compute; reflexivity).
  rewrite E in K. split; [exact E|].
  assert (C : closed (calls (plot_welch_periodogram (fun _ => Ok tt)
                               ([(0%nat, [(0%nat, Example.flat_curve)])], []) false None))
              = 0%nat) by (vm_compute; reflexivity).
  rewrite C in K. split; [exact K | exact C].
Defined.

(** The power computation on the silent curve at 64 Hz returns. *)
Lemma power_returns_iff_analysable_witness :
  exists power,
    result (computing_absolute_and_relative_power [(0%nat, Example.silent_curve)]) = Ok power.
Proof.
  apply (proj2 (proj1 (power_returns_iff_analysable [(0%nat, Example.silent_curve)]))).
  intros channel c Hc. destruct channel; [|discriminate Hc].
  injection Hc as <-. exact silent_curve_analysable.
Defined.
